(** * AGON MOS command shell (src/mos.c): tokenizer, loader, dispatch.

    The C code works on NUL-terminated character buffers that it edits in
    place, on a byte-addressed RAM, and on collaborators that live outside
    mos.c (FatFS, the pattern matcher, the CPU-mode trampolines, the system
    variable list).  The development keeps that shape: buffers are lists of
    characters indexed by offsets, stateful functions thread their state, and
    the collaborators are interfaces. *)

From Stdlib Require Import ZArith Lia Ascii String.
From stdpp Require Import base option list strings gmap.

Local Open Scope Z_scope.

(** ** Characters and line buffers *)

Definition NUL : ascii := Ascii.zero.

Definition is_nul (c : ascii) : bool := Ascii.eqb c NUL.

(** [isspace] of <ctype.h> in the C locale: space, and \t \n \v \f \r. *)
Definition isspace (c : ascii) : bool :=
  let n := N_of_ascii c in
  (N.eqb n 32 || (N.leb 9 n && N.leb n 13))%bool.

Definition is_star (c : ascii) : bool := Ascii.eqb c "*"%char.

(** A [char *] into the line buffer is an offset; [rd] is [*p] and [wr] is
    [*p = c].  The buffer is a NUL-terminated array: an offset at or past its
    end reads as the terminator, and a store there (the code only ever stores
    the terminator) changes nothing. *)
Definition rd (buf : list ascii) (p : nat) : ascii := default NUL (buf !! p).
Definition wr (buf : list ascii) (p : nat) (c : ascii) : list ascii := <[p:=c]> buf.

(** Number of leading characters of [l] that satisfy [P]: the common shape of
    the scanning loops [while (P( *s )) s++]. *)
Fixpoint span (P : ascii -> bool) (l : list ascii) : nat :=
  match l with
  | [] => O
  | c :: l' => if P c then S (span P l') else O
  end.

Definition in_set (d : list ascii) (c : ascii) : bool :=
  existsb (Ascii.eqb c) d.

(** A character of the string that is in the set [d], and one that is not. *)
Definition is_delim (d : list ascii) (c : ascii) : bool :=
  (negb (is_nul c) && in_set d c)%bool.
Definition is_tokch (d : list ascii) (c : ascii) : bool :=
  (negb (is_nul c) && negb (in_set d c))%bool.

(** <string.h>: [strlen], [strspn], [strcspn] on the string at offset [s]. *)
Definition strlen (buf : list ascii) (s : nat) : nat :=
  span (fun c => negb (is_nul c)) (drop s buf).
Definition strspn (buf : list ascii) (s : nat) (d : list ascii) : nat :=
  span (is_delim d) (drop s buf).
Definition strcspn (buf : list ascii) (s : nat) (d : list ascii) : nat :=
  span (is_tokch d) (drop s buf).

(** The C string that starts at offset [p]. *)
Definition cstr (buf : list ascii) (p : nat) : list ascii :=
  take (strlen buf p) (drop p buf).

(** ** mos_trim *)

(** [while (ptr > s && isspace( *ptr )) ptr--;] *)
Fixpoint trim_back (buf : list ascii) (s ptr : nat) : nat :=
  match ptr with
  | O => O
  | S p => if ((s <? ptr)%nat && isspace (rd buf ptr))%bool
           then trim_back buf s p else ptr
  end.

(** [char * mos_trim(char * s)]; [None] is the NULL pointer.  The result is
    the edited buffer and the returned pointer.  [s + strlen(s) - 1] is
    computed on offsets: when the scan has consumed the whole string, [s] has
    advanced by at least one, so the subtraction does not go below zero. *)
Definition mos_trim (buf : list ascii) (s : option nat) : list ascii * option nat :=
  match s with
  | None => (buf, None)
  | Some s =>
      if is_nul (rd buf s) then (buf, Some s)
      else
        let s := (s + span (fun c => isspace c || is_star c)%bool (drop s buf))%nat in
        let ptr := (s + strlen buf s - 1)%nat in
        let ptr := trim_back buf s ptr in
        (wr buf (ptr + 1) NUL, Some s)
  end.

(** ** mos_strtok_r *)

(** [char * mos_strtok_r(char *s1, const char *s2, char **ptr)].  [s1] may be
    NULL ([None]); [save] is the content of [*ptr] on entry, an initialised
    cursor.  Returns the token (or NULL), the buffer, and [*ptr] on exit. *)
Definition mos_strtok_r (buf : list ascii) (s1 : option nat) (s2 : list ascii)
    (save : nat) : option nat * list ascii * nat :=
  let s1 := match s1 with None => save | Some p => p end in
  if is_nul (rd buf s1) then (None, buf, s1)
  else
    let s1 := (s1 + strspn buf s1 s2)%nat in
    if is_nul (rd buf s1) then (None, buf, s1)
    else
      let e := (s1 + strcspn buf s1 s2)%nat in
      if is_nul (rd buf e) then (Some s1, buf, e)
      else (Some s1, wr buf e NUL, S e).

Definition lit (s : string) : list ascii := list_ascii_of_string s.

(** ** The shared tokenizer cursor and its consumers *)

(** [UINT24] is the eZ80's 24-bit unsigned int, [long] its 32-bit integer. *)
Definition u24 (z : Z) : Z := z mod 2 ^ 24.
Definition LONG_MAX : Z := 2 ^ 31 - 1.
Definition LONG_MIN : Z := - 2 ^ 31.

(** The line edit buffer together with [static char * mos_strtok_ptr]. *)
Record tok_state := TokState {
  line : list ascii;
  mos_strtok_ptr : nat
}.

(** [char * mos_strtok(char *s1, char * s2)]:
    [mos_strtok_r(s1, s2, &mos_strtok_ptr)]. *)
Definition mos_strtok (st : tok_state) (s1 : option nat) (s2 : list ascii)
    : option nat * tok_state :=
  let '(tok, buf, save) := mos_strtok_r (line st) s1 s2 (mos_strtok_ptr st) in
  (tok, TokState buf save).

(** Where a call [mos_strtok(ptr, ...)] starts to scan. *)
Definition tok_start (st : tok_state) (ptr : option nat) : nat :=
  match ptr with None => mos_strtok_ptr st | Some p => p end.

(** Value of a digit character in bases up to 36. *)
Definition digit_val (c : ascii) : option Z :=
  let n := Z.of_N (N_of_ascii c) in
  if ((48 <=? n) && (n <=? 57))%bool then Some (n - 48)
  else if ((97 <=? n) && (n <=? 122))%bool then Some (n - 87)
  else if ((65 <=? n) && (n <=? 90))%bool then Some (n - 55)
  else None.

Definition is_digit (base : Z) (c : ascii) : bool :=
  match digit_val c with Some d => d <? base | None => false end.

Definition digits_value (base : Z) (ds : list ascii) : Z :=
  fold_left (fun acc c => acc * base + default 0 (digit_val c)) ds 0.

(** [long strtol(const char *nptr, char **endptr, int base)] of <stdlib.h>
    for base 10 and 16: white space, an optional sign, for base 16 an
    optional 0x, then the digits; out-of-range values saturate.  Returns the
    value and [*endptr]; without digits [*endptr] is [nptr]. *)
Definition strtol (buf : list ascii) (nptr : nat) (base : Z) : Z * nat :=
  let p := (nptr + span isspace (drop nptr buf))%nat in
  let neg := Ascii.eqb (rd buf p) "-"%char in
  let p := if (neg || Ascii.eqb (rd buf p) "+"%char)%bool then S p else p in
  let p := if ((base =? 16) && Ascii.eqb (rd buf p) "0"%char
               && (Ascii.eqb (rd buf (S p)) "x"%char || Ascii.eqb (rd buf (S p)) "X"%char)
               && is_digit base (rd buf (S (S p))))%bool
           then S (S p) else p in
  let n := span (is_digit base) (drop p buf) in
  match n with
  | O => (0, nptr)
  | _ =>
      let v := digits_value base (take n (drop p buf)) in
      let v := if neg then - v else v in
      (Z.max LONG_MIN (Z.min LONG_MAX v), (p + n)%nat)
  end.

(** [BOOL mos_parseNumber(char * ptr, UINT24 * p_Value)].  [pv] is the
    content of [*p_Value] on entry; the result is the return value, the
    content of [*p_Value] on exit, and the tokenizer state. *)
Definition mos_parseNumber (st : tok_state) (ptr : option nat) (pv : Z)
    : Z * Z * tok_state :=
  let '(p, st) := mos_strtok st ptr (lit " ") in
  match p with
  | None => (0, pv, st)
  | Some p =>
      let '(base, p) :=
        if Ascii.eqb (rd (line st) p) "&"%char then (16, S p) else (10, p) in
      let '(value, e) := strtol (line st) p base in
      if negb (is_nul (rd (line st) e)) then (0, pv, st)
      else (1, u24 value, st)
  end.

(** [BOOL mos_parseString(char * ptr, char ** p_Value)]. *)
Definition mos_parseString (st : tok_state) (ptr : option nat) (pv : option nat)
    : Z * option nat * tok_state :=
  let '(p, st) := mos_strtok st ptr (lit " ") in
  match p with
  | None => (0, pv, st)
  | Some p => (1, Some p, st)
  end.

Definition cline (s : string) : list ascii := lit s ++ [NUL].

(** ** Result codes *)

(** The FatFS [FRESULT] values and the MOS codes that extend them, numbered
    as the [mos_errors] table indexes them ("MOS-specific errors beyond this
    point (index 20+)"). *)
Definition FR_OK : Z := 0.
Definition FR_DISK_ERR : Z := 1.
Definition FR_INT_ERR : Z := 2.
Definition FR_NOT_READY : Z := 3.
Definition FR_NO_FILE : Z := 4.
Definition FR_NO_PATH : Z := 5.
Definition FR_INVALID_OBJECT : Z := 9.
Definition FR_INVALID_PARAMETER : Z := 19.
Definition MOS_INVALID_COMMAND : Z := 20.
Definition MOS_INVALID_EXECUTABLE : Z := 21.
Definition MOS_OVERLAPPING_SYSTEM : Z := 24.

Definition FA_READ : Z := 1.

(** ** Collaborators *)

(** The match modes of the pattern matcher that mos.c and the variable list
    ask for. *)
Inductive match_flags := MATCH_COMMANDS | MATCH_VARIABLES.

(** [int pmatch(const char *pattern, const char *string, uint8_t flags)]
    (strings.h): 0 on a match. *)
Class Matcher := {
  pmatch : list ascii -> list ascii -> match_flags -> Z
}.

(** The address constants of defines.h and the table size of mos.h. *)
Class Defines := {
  MOS_maxOpenFiles : Z;
  MOS_defaultLoadAddress : Z;
  MOS_starLoadAddress : Z;
  MOS_systemAddress : Z;
  MOS_externLastRAMaddress : Z
}.

(** FatFS (ff.h).  [FS] is the state of the volume, [FIL] a file object.
    [f_read] returns the result code, the bytes it delivers (their number is
    [*br]) and the advanced file object; [f_write] takes the bytes to write
    and returns [*bw]. *)
Class FatFs := {
  FS : Type;
  FIL : Type;
  f_open : FS -> list ascii -> Z -> Z * FIL * FS;
  f_size : FIL -> Z;
  f_read : FS -> FIL -> Z -> Z * list Z * FIL * FS;
  f_write : FS -> FIL -> list Z -> Z * Z * FIL * FS;
  f_lseek : FS -> FIL -> Z -> Z * FIL * FS;
  f_close : FS -> FIL -> Z * FS
}.

(** ** System variables *)

(** Modelled from the spec: the kinds of a Variable Entry (section 3);
    mos_sysvars.h is not part of the sources. *)
Inductive MOSVARTYPE :=
  MOS_VAR_STRING | MOS_VAR_NUMBER | MOS_VAR_MACRO | MOS_VAR_CODE.

#[global] Instance MOSVARTYPE_eq_dec : EqDecision MOSVARTYPE.
Proof. solve_decision. Defined.

(** Modelled from the spec: [t_mosSystemVariable] (mos_sysvars.h), a node of
    the sorted, singly linked variable list.  [value] is the number, or the
    address of the owned text, or the address of the accessor pair; [next] is
    the link ([None] is NULL). *)
Record t_mosSystemVariable := SysVar {
  label : list ascii;
  type : MOSVARTYPE;
  value : Z;
  next : option Z
}.

(** Modelled from the spec: the variable store as mos.c reaches it through
    node pointers.  [cells] are the entries of the store, each at the address
    of its node, [mosSystemVariables] is the list head, [released] the
    addresses handed back to the allocator.  An entry that has been removed
    is destroyed (section 3): it is no entry of [cells] any more, whatever
    pointer to it a caller still holds. *)
Record sysvars := SysVars {
  cells : gmap Z t_mosSystemVariable;
  mosSystemVariables : option Z;
  released : gset Z
}.

(** [toupper] of <ctype.h> on the ASCII letters. *)
Definition toupper (c : ascii) : ascii :=
  let n := N_of_ascii c in
  if (N.leb 97 n && N.leb n 122)%bool then ascii_of_N (n - 32) else c.

(** Modelled from the spec: case-insensitive "sorts before", the order of
    the variable list. *)
Fixpoint sorts_before (a b : list ascii) : bool :=
  match a, b with
  | _, [] => false
  | [], _ :: _ => true
  | x :: a', y :: b' =>
      let x := N_of_ascii (toupper x) in
      let y := N_of_ascii (toupper y) in
      if N.ltb x y then true
      else if N.ltb y x then false
      else sorts_before a' b'
  end.

Section SysVars.
Context `{Matcher}.

(** Modelled from the spec: the scan of [getSystemVariable] (mos_sysvars.c is
    not part of the sources).  Walks the links from [current]; the first node
    whose label matches the pattern is found (result 0); otherwise the result
    is non-zero and the pointer handed back is the last node scanned whose
    label sorts before the pattern. *)
Fixpoint locate_from (fuel : nat) (c : gmap Z t_mosSystemVariable)
    (pattern : list ascii) (current pred : option Z) : Z * option Z :=
  match fuel with
  | O => (-1, pred)
  | S fuel =>
      match current with
      | None => (-1, pred)
      | Some a =>
          match c !! a with
          | None => (-1, pred)
          | Some n =>
              if pmatch pattern (label n) MATCH_VARIABLES =? 0 then (0, Some a)
              else locate_from fuel c pattern (next n)
                     (if sorts_before (label n) pattern then Some a else pred)
          end
      end
  end.

(** What a call of [getSystemVariable] gives: its result and [*var] on exit,
    or, when the cursor it is handed is no entry of the store, nothing the
    spec defines: the scan would start from the link of a destroyed entry. *)
Inductive located :=
  | Located (searchResult : Z) (var : option Z)
  | Destroyed (cursor : Z).

(** Modelled from the spec: [int getSystemVariable(char *pattern,
    t_mosSystemVariable **var)], the store's single search primitive.  With
    [*var] NULL the scan starts at the head, otherwise at the entry after
    [*var]. *)
Definition getSystemVariable (sv : sysvars) (pattern : list ascii)
    (var : option Z) : located :=
  match var with
  | None =>
      let '(r, v) := locate_from (S (size (cells sv))) (cells sv) pattern
                       (mosSystemVariables sv) None in
      Located r v
  | Some c =>
      match cells sv !! c with
      | Some n =>
          let '(r, v) := locate_from (S (size (cells sv))) (cells sv) pattern
                           (next n) (Some c) in
          Located r v
      | None => Destroyed c
      end
  end.

(** Modelled from the spec: the walk that finds the node whose link is
    [var], which the unlink of [removeSystemVariable] needs in a singly
    linked list. *)
Fixpoint find_parent (fuel : nat) (c : gmap Z t_mosSystemVariable)
    (current : option Z) (var : Z) : option Z :=
  match fuel with
  | O => None
  | S fuel =>
      match current with
      | None => None
      | Some a =>
          match c !! a with
          | None => None
          | Some n =>
              if decide (next n = Some var) then Some a
              else find_parent fuel c (next n) var
          end
      end
  end.

Definition set_next (nx : option Z) (n : t_mosSystemVariable) : t_mosSystemVariable :=
  SysVar (label n) (type n) (value n) nx.

(** Modelled from the spec: [void removeSystemVariable(t_mosSystemVariable
    *var)], "unlink and free owned payload", after which the entry is
    destroyed.  The head or the parent's link is redirected to the entry
    after [var]; the node and, for the owning kinds String and Macro, its
    text are released, and [var] is no entry of the store any more. *)
Definition removeSystemVariable (sv : sysvars) (var : Z) : sysvars :=
  match cells sv !! var with
  | None => sv
  | Some n =>
      let owned : gset Z :=
        match type n with
        | MOS_VAR_STRING | MOS_VAR_MACRO => {[ value n ]}
        | _ => ∅
        end in
      let rel := released sv ∪ {[ var ]} ∪ owned in
      if decide (mosSystemVariables sv = Some var)
      then SysVars (delete var (cells sv)) (next n) rel
      else
        match find_parent (S (size (cells sv))) (cells sv)
                (mosSystemVariables sv) var with
        | Some p =>
            SysVars (delete var (alter (set_next (next n)) p (cells sv)))
                    (mosSystemVariables sv) rel
        | None => SysVars (delete var (cells sv)) (mosSystemVariables sv) rel
        end
  end.

(** How [mos_cmdUNSET] ends: it returns; or it hands [getSystemVariable] a
    pointer to an entry it has destroyed, with the store as it is then; or
    [fuel] iterations do not finish the loop. *)
Inductive unset_run (A : Type) :=
  | Returns (a : A)
  | ReadsDestroyed (var : Z) (sv : sysvars)
  | OutOfFuel.
#[global] Arguments Returns {A} a.
#[global] Arguments ReadsDestroyed {A} var sv.
#[global] Arguments OutOfFuel {A}.

(** The loop of [mos_cmdUNSET]:
    [while (searchResult == 0) { if (var->type != MOS_VAR_CODE)
    removeSystemVariable(var); searchResult = getSystemVariable(token, &var); }].
    [var] is not reset after a removal: the next search is handed the
    pointer to the removed entry. *)
Fixpoint unset_loop (fuel : nat) (sv : sysvars) (token : list ascii)
    (searchResult : Z) (var : option Z) : unset_run sysvars :=
  if searchResult =? 0 then
    match fuel with
    | O => OutOfFuel
    | S fuel =>
        let sv :=
          match var with
          | Some v =>
              match cells sv !! v with
              | Some n =>
                  if decide (type n = MOS_VAR_CODE) then sv
                  else removeSystemVariable sv v
              | None => sv
              end
          | None => sv
          end in
        match getSystemVariable sv token var with
        | Located searchResult var => unset_loop fuel sv token searchResult var
        | Destroyed v => ReadsDestroyed v sv
        end
    end
  else Returns sv.

(** [int mos_cmdUNSET(char * ptr)] on the tokenizer state and the variable
    list. *)
Definition mos_cmdUNSET (fuel : nat) (ptr : nat) (st : tok_state) (sv : sysvars)
    : unset_run (Z * tok_state * sysvars) :=
  let '(ok, token, st) := mos_parseString st None None in
  if ok =? 0 then Returns (FR_INVALID_PARAMETER, st, sv)
  else
    let token := match token with Some t => cstr (line st) t | None => [] end in
    match getSystemVariable sv token None with
    | Located searchResult var =>
        match unset_loop fuel sv token searchResult var with
        | Returns sv => Returns (FR_OK, st, sv)
        | ReadsDestroyed v sv => ReadsDestroyed v sv
        | OutOfFuel => OutOfFuel
        end
    | Destroyed v => ReadsDestroyed v sv
    end.

(** The nodes [l], linked in this order, lead from the pointer [p] to the
    pointer [q]. *)
Fixpoint lseg (c : gmap Z t_mosSystemVariable) (p : option Z) (l : list Z)
    (q : option Z) : Prop :=
  match l with
  | [] => p = q
  | a :: l' => p = Some a /\ exists n, c !! a = Some n /\ lseg c (next n) l' q
  end.

(** The variable list holds exactly the nodes [l], in this order. *)
Definition is_list (sv : sysvars) (l : list Z) : Prop :=
  lseg (cells sv) (mosSystemVariables sv) l None /\ NoDup l.

(** Where a scan that is handed the cursor [var], an entry of the store or
    NULL, starts. *)
Definition resume (sv : sysvars) (var : option Z) : option Z :=
  match var with
  | None => mosSystemVariables sv
  | Some v => cells sv !! v ≫= next
  end.

Definition var_matches (pattern : list ascii) (c : gmap Z t_mosSystemVariable)
    (a : Z) : bool :=
  match c !! a with
  | Some n => pmatch pattern (label n) MATCH_VARIABLES =? 0
  | None => false
  end.

Definition var_is_code (c : gmap Z t_mosSystemVariable) (a : Z) : bool :=
  match c !! a with
  | Some n => bool_decide (type n = MOS_VAR_CODE)
  | None => false
  end.

(** The entries an UNSET of [pattern] is to leave in the list: those of kind
    Code and those that do not match. *)
Definition unset_keeps (pattern : list ascii) (c : gmap Z t_mosSystemVariable)
    (a : Z) : bool :=
  (var_is_code c a || negb (var_matches pattern c a))%bool.

(** A node without its link. *)
Definition strip (n : t_mosSystemVariable) : list ascii * MOSVARTYPE * Z :=
  (label n, type n, value n).

End SysVars.

(** ** The command table *)

(** The handlers the table points to. *)
Inductive t_func :=
  | cmdDIR | cmdCD | cmdCLS | cmdCOPY | cmdCREDITS | cmdDEL | cmdDISC
  | cmdECHO | cmdEXEC | cmdHELP | cmdJMP | cmdLOAD | cmdHOTKEY | cmdMEM
  | cmdMKDIR | cmdMOUNT | cmdREN | cmdPRINTF | cmdRUN | cmdSAVE | cmdSET
  | cmdSETEVAL | cmdSETMACRO | cmdSHOW | cmdTIME | cmdTYPE | cmdUNSET
  | cmdVDU.

(** [t_mosCommand], without the two help strings, which dispatch never
    reads.  [func] is a function pointer; [None] is the null pointer. *)
Record t_mosCommand := MosCommand {
  name : list ascii;
  func : option t_func
}.

Definition mk_cmd (n : string) (f : t_func) : t_mosCommand :=
  MosCommand (lit n) (Some f).

(** [mosCommands], in the order of the source (release build). *)
Definition mosCommands : list t_mosCommand :=
  [ mk_cmd "." cmdDIR; mk_cmd "CAT" cmdDIR; mk_cmd "CD" cmdCD;
    mk_cmd "CDIR" cmdCD; mk_cmd "CLS" cmdCLS; mk_cmd "COPY" cmdCOPY;
    mk_cmd "CP" cmdCOPY; mk_cmd "CREDITS" cmdCREDITS;
    mk_cmd "DELETE" cmdDEL; mk_cmd "DIR" cmdDIR; mk_cmd "DISC" cmdDISC;
    mk_cmd "ECHO" cmdECHO; mk_cmd "ERASE" cmdDEL; mk_cmd "EXEC" cmdEXEC;
    mk_cmd "HELP" cmdHELP; mk_cmd "JMP" cmdJMP; mk_cmd "LOAD" cmdLOAD;
    mk_cmd "LS" cmdDIR; mk_cmd "HOTKEY" cmdHOTKEY; mk_cmd "MEM" cmdMEM;
    mk_cmd "MKDIR" cmdMKDIR; mk_cmd "MOUNT" cmdMOUNT; mk_cmd "MOVE" cmdREN;
    mk_cmd "MV" cmdREN; mk_cmd "PRINTF" cmdPRINTF; mk_cmd "RENAME" cmdREN;
    mk_cmd "RM" cmdDEL; mk_cmd "RUN" cmdRUN; mk_cmd "SAVE" cmdSAVE;
    mk_cmd "Set" cmdSET; mk_cmd "SetEval" cmdSETEVAL;
    mk_cmd "SetMacro" cmdSETMACRO; mk_cmd "Show" cmdSHOW;
    mk_cmd "TIME" cmdTIME; mk_cmd "TYPE" cmdTYPE; mk_cmd "UNSET" cmdUNSET;
    mk_cmd "VDU" cmdVDU ].

(** The loop of [mos_getCommand] from index [i]; a descriptor pointer
    [&mosCommands[i]] is the index [i]. *)
Fixpoint getCommand_from `{Matcher} (ptr : list ascii) (tbl : list t_mosCommand)
    (i : nat) : option nat :=
  match tbl with
  | [] => None
  | cmd :: tbl =>
      if pmatch ptr (name cmd) MATCH_COMMANDS =? 0 then Some i
      else getCommand_from ptr tbl (S i)
  end.

(** [t_mosCommand *mos_getCommand(char * ptr)]; [None] is NULL. *)
Definition mos_getCommand `{Matcher} (ptr : list ascii) : option nat :=
  getCommand_from ptr mosCommands O.

(** ** The machine state and what the shell does to it *)

Section Shell.
Context `{Matcher} `{Defines} `{FatFs}.

(** [t_mosFileObject]: [free] is 0 for an unused slot. *)
Record t_mosFileObject := MosFileObject {
  free : Z;
  fileObject : FIL
}.

Record world := World {
  tok : tok_state;
  ram : Z -> Z;
  mosFileObjects : nat -> t_mosFileObject;
  fatfs : FS
}.

(** What the shell does outside its own variables, in order. *)
Inductive event :=
  | EvDescFunc (cmd : option nat)
  | EvCall (f : t_func) (arg : nat)
  | EvOpen (path : list ascii) (mode : Z)
  | EvRead (address size : Z)
  | EvWrite (address size : Z)
  | EvLseek (offset : Z)
  | EvClose
  | EvExec16 (addr : Z) (params : nat)
  | EvExec24 (addr : Z) (params : nat).

Definition is_call (e : event) : bool :=
  match e with EvCall _ _ => true | _ => false end.

(** Code the shell transfers control to, taken as given: the two entry
    trampolines of misc.asm and the command handlers behind the [func]
    fields, each returning its result and the state it leaves.  A transfer is
    one event of the trace ([EvExec16], [EvExec24], [EvCall]); what the code
    entered does in turn, a handler of mos.c included, shows in the state it
    leaves and not in the trace.  Further: what a read of the [func] field
    finds behind a null descriptor pointer; the address of the file object
    of slot [i]. *)
Class Machine := {
  exec16 : Z -> nat -> world -> Z * world;
  exec24 : Z -> nat -> world -> Z * world;
  call : t_func -> nat -> world -> Z * world;
  null_func : option t_func;
  fileObject_addr : nat -> Z
}.

Context `{Machine}.

(** A computation returns a value, the new state and the events it made. *)
Definition M (A : Type) : Type := world -> A * world * list event.

Definition ret {A} (a : A) : M A := fun w => (a, w, []).

Definition bind {A B} (m : M A) (k : A -> M B) : M B :=
  fun w =>
    let '(a, w1, e1) := m w in
    let '(b, w2, e2) := k a w1 in
    (b, w2, e1 ++ e2).

Definition get_world : M world := fun w => (w, w, []).

Notation "'let*' x ':=' m 'in' k" := (bind m (fun x => k))
  (at level 10, x name, m at level 100, k at level 200).

Definition set_tok (w : world) (t : tok_state) : world :=
  World t (ram w) (mosFileObjects w) (fatfs w).
Definition set_ram (w : world) (r : Z -> Z) : world :=
  World (tok w) r (mosFileObjects w) (fatfs w).
Definition set_fatfs (w : world) (fs : FS) : world :=
  World (tok w) (ram w) (mosFileObjects w) fs.
Definition set_slot (w : world) (i : nat) (fo : t_mosFileObject) : world :=
  World (tok w) (ram w)
        (fun j => if decide (j = i) then fo else mosFileObjects w j) (fatfs w).

(** Storing [data] at [address] and reading [n] bytes from it. *)
Definition write_bytes (r : Z -> Z) (address : Z) (data : list Z) : Z -> Z :=
  fun a =>
    if ((address <=? a) && (a <? address + Z.of_nat (length data)))%bool
    then nth (Z.to_nat (a - address)) data 0 else r a.

Definition read_bytes (r : Z -> Z) (address : Z) (n : Z) : list Z :=
  map (fun i => r (address + Z.of_nat i)) (seq 0 (Z.to_nat n)).

(** *** FatFS calls as computations *)

Definition do_f_open (path : list ascii) (mode : Z) : M (Z * FIL) :=
  fun w =>
    let '(fr, fil, fs) := f_open (fatfs w) path mode in
    ((fr, fil), set_fatfs w fs, [EvOpen path mode]).

(** [f_read(fp, (void * )address, size, &br)]: at most [size] of the bytes
    delivered are stored, from [address] on. *)
Definition do_f_read (fil : FIL) (address size : Z) : M (Z * Z * FIL) :=
  fun w =>
    let '(fr, data, fil, fs) := f_read (fatfs w) fil size in
    let data := take (Z.to_nat size) data in
    ((fr, Z.of_nat (length data), fil),
     set_ram (set_fatfs w fs) (write_bytes (ram w) address data),
     [EvRead address size]).

Definition do_f_write (fil : FIL) (address size : Z) : M (Z * Z * FIL) :=
  fun w =>
    let '(fr, bw, fil, fs) := f_write (fatfs w) fil (read_bytes (ram w) address size) in
    ((fr, bw, fil), set_fatfs w fs, [EvWrite address size]).

Definition do_f_lseek (fil : FIL) (offset : Z) : M (Z * FIL) :=
  fun w =>
    let '(fr, fil, fs) := f_lseek (fatfs w) fil offset in
    ((fr, fil), set_fatfs w fs, [EvLseek offset]).

Definition do_f_close (fil : FIL) : M Z :=
  fun w =>
    let '(fr, fs) := f_close (fatfs w) fil in
    (fr, set_fatfs w fs, [EvClose]).

(** *** mos_LOAD *)

(** [if(size) { if(fSize < size) size = fSize; } else { size = fSize; }]:
    the number of bytes [mos_LOAD] sets out to read. *)
Definition load_size (fSize size : Z) : Z :=
  if negb (size =? 0) then (if fSize <? size then fSize else size)
  else u24 fSize.

(** [UINT24 mos_LOAD(char * filename, UINT24 address, UINT24 size)].
    [f_size] is a 32-bit [FSIZE_t]; [size = fSize] keeps its low 24 bits, and
    [address + size] is a 24-bit sum. *)
Definition mos_LOAD (filename : list ascii) (address size : Z) : M Z :=
  let* r := do_f_open filename FA_READ in
  let '(fr, fil) := r in
  let* fr :=
    if fr =? FR_OK then
      let fSize := f_size fil in
      let size := load_size fSize size in
      if ((address <=? MOS_externLastRAMaddress)
          && (u24 (address + size) >? MOS_systemAddress))%bool
      then ret MOS_OVERLAPPING_SYSTEM
      else
        let* r := do_f_read fil address size in
        ret (r.1.1)
    else ret fr in
  let* _ := do_f_close fil in
  ret fr.

(** *** mos_execMode and mos_runBin *)

(** The image at [ptr] carries the signature 'M' 'O' 'S' at 0x40..0x42. *)
Definition has_signature (r : Z -> Z) (ptr : Z) : Prop :=
  r (ptr + 0x40) = 77 /\ r (ptr + 0x41) = 79 /\ r (ptr + 0x42) = 83.

(** [UINT8 mos_execMode(UINT8 * ptr)]: 'M' 'O' 'S' at 0x40..0x42, the mode
    byte at 0x44. *)
Definition mos_execMode (r : Z -> Z) (ptr : Z) : Z :=
  if ((r (ptr + 0x40) =? 77) && (r (ptr + 0x41) =? 79)
      && (r (ptr + 0x42) =? 83))%bool
  then r (ptr + 0x44)
  else 0xFF.

Definition do_exec16 (addr : Z) (params : nat) : M Z :=
  fun w => let '(r, w') := exec16 addr params w in (r, w', [EvExec16 addr params]).
Definition do_exec24 (addr : Z) (params : nat) : M Z :=
  fun w => let '(r, w') := exec24 addr params w in (r, w', [EvExec24 addr params]).
Definition do_call (f : t_func) (arg : nat) : M Z :=
  fun w => let '(r, w') := call f arg w in (r, w', [EvCall f arg]).

(** [int mos_runBin(UINT24 addr)]. *)
Definition mos_runBin (addr : Z) : M Z :=
  let* w := get_world in
  let mode := mos_execMode (ram w) addr in
  if mode =? 0 then do_exec16 addr (mos_strtok_ptr (tok w))
  else if mode =? 1 then do_exec24 addr (mos_strtok_ptr (tok w))
  else ret MOS_INVALID_EXECUTABLE.

(** *** mos_exec *)

Definition do_trim (s : option nat) : M (option nat) :=
  fun w =>
    let '(b, p) := mos_trim (line (tok w)) s in
    (p, set_tok w (TokState b (mos_strtok_ptr (tok w))), []).

Definition do_strtok_r (s1 : option nat) (s2 : list ascii) : M (option nat) :=
  fun w =>
    let '(t, b, save) :=
      mos_strtok_r (line (tok w)) s1 s2 (mos_strtok_ptr (tok w)) in
    (t, set_tok w (TokState b save), []).

(** [cmd->func].  The read is an event, so that a read through a null
    descriptor pointer shows in the trace. *)
Definition do_desc_func (cmd : option nat) : M (option t_func) :=
  fun w =>
    (match cmd with
     | Some i => mosCommands !! i ≫= func
     | None => null_func
     end, w, [EvDescFunc cmd]).

(** [*ptr == '#' || *ptr == '\0' || ( *ptr == '|' && *(ptr+1) == ' ')] *)
Definition blank_or_comment (buf : list ascii) (ptr : nat) : bool :=
  (Ascii.eqb (rd buf ptr) "#"%char || is_nul (rd buf ptr)
   || (Ascii.eqb (rd buf ptr) "|"%char && Ascii.eqb (rd buf (S ptr)) " "%char))%bool.

(** The tail of [mos_exec] once the last load has failed with [fr]. *)
Definition not_found_result (fr : Z) : Z :=
  if ((fr =? FR_NO_FILE) || (fr =? FR_NO_PATH))%bool
  then MOS_INVALID_COMMAND else fr.

(** [int mos_exec(char * buffer, BOOL in_mos)].  [strtok] cannot return NULL
    on a trimmed line that is not blank; the model reads a null token as the
    empty string. *)
Definition mos_exec (buffer : option nat) (in_mos : bool) : M Z :=
  let* ptr := do_trim buffer in
  let* w := get_world in
  match ptr with
  | None => ret 0
  | Some p =>
      if blank_or_comment (line (tok w)) p then ret FR_OK
      else
        let* ptr := do_strtok_r (Some p) (lit " ") in
        let* w := get_world in
        let ptr := match ptr with
                   | Some t => cstr (line (tok w)) t
                   | None => []
                   end in
        let cmd := mos_getCommand ptr in
        let* func := do_desc_func cmd in
        match cmd, func with
        | Some _, Some f => do_call f (mos_strtok_ptr (tok w))
        | _, _ =>
            if (246 <? length ptr)%nat then ret MOS_INVALID_COMMAND
            else
              let* fr := mos_LOAD (lit "/mos/" ++ ptr ++ lit ".bin")
                           MOS_starLoadAddress 0 in
              if fr =? FR_OK then mos_runBin MOS_starLoadAddress
              else if fr =? MOS_OVERLAPPING_SYSTEM then ret fr
              else if in_mos then
                let* fr := mos_LOAD (ptr ++ lit ".bin")
                             MOS_defaultLoadAddress 0 in
                if fr =? FR_OK then mos_runBin MOS_defaultLoadAddress
                else if fr =? MOS_OVERLAPPING_SYSTEM then ret fr
                else
                  let* fr := mos_LOAD (lit "/bin/" ++ ptr ++ lit ".bin")
                               MOS_defaultLoadAddress 0 in
                  if fr =? FR_OK then mos_runBin MOS_defaultLoadAddress
                  else if fr =? MOS_OVERLAPPING_SYSTEM then ret fr
                  else ret (not_found_result fr)
              else ret (not_found_result fr)
        end
  end.

(** *** The file-handle API *)

(** [UINT24 mos_GETFIL(UINT8 fh)]: the address of the slot's file object,
    or 0. *)
Definition mos_GETFIL (w : world) (fh : Z) : Z :=
  if ((0 <? fh) && (fh <=? MOS_maxOpenFiles))%bool then
    let mfo := mosFileObjects w (Z.to_nat (fh - 1)) in
    if 0 <? free mfo then fileObject_addr (Z.to_nat (fh - 1)) else 0
  else 0.

(** The file object behind a pointer obtained from [mos_GETFIL fh] is the one
    of slot [fh - 1]; the FatFS call advances it in place. *)
Definition put_fileObject (i : nat) (fil : FIL) : M unit :=
  fun w =>
    (tt, set_slot w i (MosFileObject (free (mosFileObjects w i)) fil), []).

(** [UINT24 mos_FREAD(UINT8 fh, UINT24 buffer, UINT24 btr)]. *)
Definition mos_FREAD (fh buffer btr : Z) : M Z :=
  let* w := get_world in
  let fo := mos_GETFIL w fh in
  if 0 <? fo then
    let i := Z.to_nat (fh - 1) in
    let* r := do_f_read (fileObject (mosFileObjects w i)) buffer btr in
    let '(fr, br, fil) := r in
    let* _ := put_fileObject i fil in
    if fr =? FR_OK then ret br else ret 0
  else ret 0.

(** [UINT24 mos_FWRITE(UINT8 fh, UINT24 buffer, UINT24 btw)]. *)
Definition mos_FWRITE (fh buffer btw : Z) : M Z :=
  let* w := get_world in
  let fo := mos_GETFIL w fh in
  if 0 <? fo then
    let i := Z.to_nat (fh - 1) in
    let* r := do_f_write (fileObject (mosFileObjects w i)) buffer btw in
    let '(fr, bw, fil) := r in
    let* _ := put_fileObject i fil in
    if fr =? FR_OK then ret bw else ret 0
  else ret 0.

(** [UINT8 mos_FLSEEK(UINT8 fh, UINT32 offset)]. *)
Definition mos_FLSEEK (fh offset : Z) : M Z :=
  let* w := get_world in
  let fo := mos_GETFIL w fh in
  if 0 <? fo then
    let i := Z.to_nat (fh - 1) in
    let* r := do_f_lseek (fileObject (mosFileObjects w i)) offset in
    let '(fr, fil) := r in
    let* _ := put_fileObject i fil in
    ret fr
  else ret FR_INVALID_OBJECT.

(** *** The search of [mos_exec], candidate by candidate *)

(** The search as the specification words it, with the one rule the code
    follows for every failed load that is not an overlap: go on to the next
    candidate, and let the last failure decide the result. *)
Fixpoint search_candidates (cands : list (list ascii * Z)) (fr : Z) : M Z :=
  match cands with
  | [] => ret (not_found_result fr)
  | (path, addr) :: rest =>
      let* fr := mos_LOAD path addr 0 in
      if fr =? FR_OK then mos_runBin addr
      else if fr =? MOS_OVERLAPPING_SYSTEM then ret fr
      else search_candidates rest fr
  end.

Definition candidates (name : list ascii) (in_mos : bool) : list (list ascii * Z) :=
  (lit "/mos/" ++ name ++ lit ".bin", MOS_starLoadAddress)
  :: (if in_mos
      then [ (name ++ lit ".bin", MOS_defaultLoadAddress);
             (lit "/bin/" ++ name ++ lit ".bin", MOS_defaultLoadAddress) ]
      else []).

End Shell.

(** ** Console output, messages and small helpers of mos.c *)

(** The code of a character, as [putch] sends it. *)
Definition code (c : ascii) : Z := Z.of_N (N_of_ascii c).

Definition CR : ascii := "013"%char.
Definition LF : ascii := "010"%char.

(** [mos_errors], indexed by the result code. *)
Definition mos_errors : list (list ascii) :=
  map lit
    [ "OK"; "Error accessing SD card"; "Internal error"; "SD card failure";
      "Could not find file"; "Could not find path"; "Invalid path name";
      "Access denied or directory full"; "Access denied";
      "Invalid file/directory object"; "SD card is write protected";
      "Logical drive number is invalid"; "Volume has no work area";
      "No valid FAT volume"; "Error occurred during mkfs"; "Volume timeout";
      "Volume locked"; "LFN working buffer could not be allocated";
      "Too many open files"; "Invalid parameter";
      "Invalid command"; "Invalid executable"; "Out of memory";
      "Not implemented"; "Load overlaps system area"; "Bad string" ]%string.

Definition mos_errors_count : Z := Z.of_nat (length mos_errors).

(** [void mos_error(int error)]: the bytes it prints. *)
Definition mos_error (error : Z) : list Z :=
  if ((0 <=? error) && (error <? mos_errors_count))%bool then
    match mos_errors !! Z.to_nat error with
    | Some msg => map code ([LF; CR] ++ msg ++ [LF; CR])
    | None => []
    end
  else [].

(** [strncpy(dst, src, n)] of <string.h>: the [n] bytes it stores, the source
    cut at [n] or padded with terminators up to [n]. *)
Definition strncpy_bytes (src : list ascii) (n : nat) : list Z :=
  take n (map code src) ++ repeat 0 (n - length src).

(** [void mos_GETERROR(UINT8 errno, UINT24 address, UINT24 size)]:
    [strncpy((char * )address, mos_errors[errno], size - 1)], the count a
    24-bit difference.  [None] when [errno] indexes past the table. *)
Definition mos_GETERROR (errno address size : Z) (r : Z -> Z) : option (Z -> Z) :=
  match mos_errors !! Z.to_nat errno with
  | Some msg =>
      Some (write_bytes r address (strncpy_bytes msg (Z.to_nat (u24 (size - 1)))))
  | None => None
  end.

(** [isxdigit] of <ctype.h>. *)
Definition isxdigit (c : ascii) : bool :=
  let n := code c in
  ((48 <=? n) && (n <=? 57) || (65 <=? n) && (n <=? 70)
   || (97 <=? n) && (n <=? 102))%bool.

(** [static int xdigit_to_int(char digit)]. *)
Definition xdigit_to_int (digit : ascii) : Z :=
  let digit := code (toupper digit) in
  if digit <? 65 then digit - 48 else digit - 55.

(** The loop of [mos_cmdPRINTF] on the characters of the argument string:
    the bytes sent with [putch]. *)
Fixpoint printf_out (p : list ascii) : list Z :=
  match p with
  | [] => []
  | c :: p1 =>
      if Ascii.eqb c "\"%char then
        match p1 with
        | [] => []
        | e :: p2 =>
            if Ascii.eqb e "\"%char then 92 :: printf_out p2
            else if Ascii.eqb e "r"%char then 13 :: printf_out p2
            else if Ascii.eqb e "n"%char then 10 :: printf_out p2
            else if Ascii.eqb e "f"%char then 12 :: printf_out p2
            else if Ascii.eqb e "t"%char then 9 :: printf_out p2
            else if Ascii.eqb e "x"%char then
              match p2 with
              | [] => [0]
              | h1 :: p3 =>
                  if isxdigit h1 then
                    match p3 with
                    | [] => [xdigit_to_int h1]
                    | h2 :: p4 =>
                        if isxdigit h2
                        then (xdigit_to_int h1 * 16 + xdigit_to_int h2) :: printf_out p4
                        else xdigit_to_int h1 :: printf_out p3
                    end
                  else 0 :: printf_out p2
              end
            else printf_out p2
        end
      else code c :: printf_out p1
  end.

(** [int mos_cmdPRINTF(char *ptr)] on the line buffer: the result and the
    bytes printed. *)
Definition mos_cmdPRINTF (buf : list ascii) (ptr : nat) : Z * list Z :=
  (0, printf_out (cstr buf ptr)).

(** [void printEscapedString(char * value)]: the bytes printed. *)
Fixpoint printEscapedString (value : list ascii) : list Z :=
  match value with
  | [] => []
  | c :: value =>
      (if code c <? 0x20 then [code "|"%char; code c + 0x40] else [code c])
      ++ printEscapedString value
  end.

(** [tolower] of <ctype.h> on the ASCII letters. *)
Definition tolower (c : ascii) : Z :=
  let n := code c in
  if ((65 <=? n) && (n <=? 90))%bool then n + 32 else n.

(** [strcasecmp]: the difference of the first two characters that differ,
    letter case aside; the end of a string counts as 0. *)
Fixpoint strcasecmp (a b : list ascii) : Z :=
  match a, b with
  | [], [] => 0
  | [], y :: _ => 0 - tolower y
  | x :: _, [] => tolower x
  | x :: a', y :: b' =>
      if tolower x - tolower y =? 0 then strcasecmp a' b'
      else tolower x - tolower y
  end.

(** [SmallFilInfo], with [fname] the name it points to. *)
Record SmallFilInfo := MkSmallFilInfo {
  fsize : Z;
  fdate : Z;
  ftime : Z;
  fattrib : Z;
  fname : list ascii
}.

(** The directory bit of a FatFS attribute byte. *)
Definition AM_DIR : Z := 0x10.

(** [static int cmp_filinfo(const SmallFilInfo* a, const SmallFilInfo* b)]. *)
Definition cmp_filinfo (a b : SmallFilInfo) : Z :=
  if Z.land (fattrib a) AM_DIR =? Z.land (fattrib b) AM_DIR
  then strcasecmp (fname a) (fname b)
  else if negb (Z.land (fattrib a) AM_DIR =? 0) then -1
  else 1.

(** [int readCWD(char * buffer, int * size)].  [cwd] is the string held in
    the global of that name, [buffer] may be NULL; the result is the return
    value, the memory, and [*size] on exit. *)
Definition readCWD (cwd : list ascii) (r : Z -> Z) (buffer : option Z) (size : Z)
    : Z * (Z -> Z) * Z :=
  let len := Z.of_nat (length cwd) + 1 in
  let r :=
    if size >=? len then
      match buffer with
      | Some b => write_bytes r b (strncpy_bytes cwd (Z.to_nat len))
      | None => r
      end
    else r in
  (FR_OK, r, len).

(** ** More of the shell: file handles, SAVE, and argument parsing *)

Section ShellMore.
Context `{Matcher} `{Defines} `{FatFs} `{!Machine}.

Notation "'let*' x ':=' m 'in' k" := (bind m (fun x => k))
  (at level 10, x name, m at level 100, k at level 200).

Definition FA_WRITE : Z := 0x02.
Definition FA_CREATE_NEW : Z := 0x04.

(** [mosFileObjects[i].free = v]. *)
Definition set_free (i : nat) (v : Z) : M unit :=
  fun w =>
    (tt, set_slot w i (MosFileObject v (fileObject (mosFileObjects w i))), []).

(** The loop of [mos_FOPEN] over the slots still to try.  [f_open] works on
    the slot's own file object, whatever its result. *)
Fixpoint FOPEN_from (filename : list ascii) (mode : Z) (slots : list nat) : M Z :=
  match slots with
  | [] => ret 0
  | i :: slots =>
      let* w := get_world in
      if free (mosFileObjects w i) =? 0 then
        let* r := do_f_open filename mode in
        let* _ := put_fileObject i r.2 in
        if r.1 =? FR_OK then
          let* _ := set_free i 1 in
          ret (Z.of_nat i + 1)
        else FOPEN_from filename mode slots
      else FOPEN_from filename mode slots
  end.

(** [UINT24 mos_FOPEN(char * filename, UINT8 mode)]. *)
Definition mos_FOPEN (filename : list ascii) (mode : Z) : M Z :=
  FOPEN_from filename mode (seq 0 (Z.to_nat MOS_maxOpenFiles)).

(** [if(mosFileObjects[i].free > 0) { f_close(...); mosFileObjects[i].free = 0; }] *)
Definition close_slot (i : nat) : M unit :=
  let* w := get_world in
  if 0 <? free (mosFileObjects w i) then
    let* _ := do_f_close (fileObject (mosFileObjects w i)) in
    set_free i 0
  else ret tt.

Fixpoint close_slots (slots : list nat) : M unit :=
  match slots with
  | [] => ret tt
  | i :: slots => let* _ := close_slot i in close_slots slots
  end.

(** [UINT24 mos_FCLOSE(UINT8 fh)]. *)
Definition mos_FCLOSE (fh : Z) : M Z :=
  let* _ :=
    if ((0 <? fh) && (fh <=? MOS_maxOpenFiles))%bool
    then close_slot (Z.to_nat (fh - 1))
    else close_slots (seq 0 (Z.to_nat MOS_maxOpenFiles)) in
  ret fh.

(** [UINT24 mos_SAVE(char * filename, UINT24 address, UINT24 size)]. *)
Definition mos_SAVE (filename : list ascii) (address size : Z) : M Z :=
  let* r := do_f_open filename (Z.lor FA_WRITE FA_CREATE_NEW) in
  let '(fr, fil) := r in
  if fr =? FR_OK then
    let* r := do_f_write fil address size in
    let* _ := do_f_close r.2 in
    ret r.1.1
  else
    let* _ := do_f_close fil in
    ret fr.

(** [mos_parseString(NULL, &v)] and [mos_parseNumber(NULL, &v)] on the
    tokenizer state of the world; [pv] is what the local [v] holds before. *)
Definition do_parseString (pv : option nat) : M (Z * option nat) :=
  fun w =>
    let '(r, v, st) := mos_parseString (tok w) None pv in
    ((r, v), set_tok w st, []).

Definition do_parseNumber (pv : Z) : M (Z * Z) :=
  fun w =>
    let '(r, v, st) := mos_parseNumber (tok w) None pv in
    ((r, v), set_tok w st, []).

(** The string a [char *] local designates when it is used. *)
Definition str_at (v : option nat) : M (list ascii) :=
  fun w =>
    (match v with Some p => cstr (line (tok w)) p | None => [] end, w, []).

(** [int mos_cmdLOAD(char * ptr)].  The locals start with whatever the stack
    holds; each is written before it is read. *)
Definition mos_cmdLOAD (ptr : nat) : M Z :=
  let* f := do_parseString None in
  if f.1 =? 0 then ret FR_INVALID_PARAMETER
  else
    let* a := do_parseNumber 0 in
    let addr := if a.1 =? 0 then MOS_defaultLoadAddress else a.2 in
    let* filename := str_at f.2 in
    mos_LOAD filename addr 0.

(** [int mos_cmdSAVE(char * ptr)]. *)
Definition mos_cmdSAVE (ptr : nat) : M Z :=
  let* f := do_parseString None in
  if f.1 =? 0 then ret FR_INVALID_PARAMETER
  else
    let* a := do_parseNumber 0 in
    if a.1 =? 0 then ret FR_INVALID_PARAMETER
    else
      let* s := do_parseNumber 0 in
      if s.1 =? 0 then ret FR_INVALID_PARAMETER
      else
        let* filename := str_at f.2 in
        mos_SAVE filename a.2 s.2.

(** [UINT24 mos_OSCLI(char * cmd)]. *)
Definition mos_OSCLI (cmd : nat) : M Z :=
  let* fr := mos_exec (Some cmd) false in
  ret (u24 fr).

(** The paths handed to [f_open] in a trace, in order. *)
Definition open_paths (ev : list event) : list (list ascii) :=
  omap (fun e => match e with EvOpen p _ => Some p | _ => None end) ev.

End ShellMore.

(** ** A concrete machine for the examples *)

Definition ci_eqb (a b : ascii) : bool := Ascii.eqb (toupper a) (toupper b).

(** The typed token is a prefix of the command name, letter case aside. *)
Fixpoint prefix_ci (q c : list ascii) : bool :=
  match q, c with
  | [], _ => true
  | _ :: _, [] => false
  | x :: q', y :: c' => (ci_eqb x y && prefix_ci q' c')%bool
  end.

(** Glob match with [*] for any run of characters, letter case aside. *)
Fixpoint glob_ci (p : list ascii) : list ascii -> bool :=
  match p with
  | [] => fun s => match s with [] => true | _ :: _ => false end
  | c :: p' =>
      if is_star c then
        fix star (s : list ascii) : bool :=
          (glob_ci p' s || match s with [] => false | _ :: s' => star s' end)%bool
      else
        fun s => match s with
                 | [] => false
                 | y :: s' => (ci_eqb c y && glob_ci p' s')%bool
                 end
  end.

(** Modelled from the spec: the pattern matcher [pmatch] (strings.c is not
    part of the sources).  Command resolution treats the query as a
    case-insensitive prefix of the candidate; variable names are matched
    case-insensitively with [*] as a multi-character wildcard. *)
Definition spec_matcher : Matcher :=
  {| pmatch p s fl :=
       match fl with
       | MATCH_COMMANDS => if prefix_ci p s then 0 else 1
       | MATCH_VARIABLES => if glob_ci p s then 0 else 1
       end |}.

(** The values of the Agon Light build for the constants of defines.h and
    mos.h (neither header is part of the sources). *)
Definition agon_defines : Defines :=
  {| MOS_maxOpenFiles := 8;
     MOS_defaultLoadAddress := 0x040000;
     MOS_starLoadAddress := 0x0B0000;
     MOS_systemAddress := 0x0BC000;
     MOS_externLastRAMaddress := 0x0BFFFF |}.

(** A volume is a list of paths with the result of opening each and the
    bytes of the file; a file object is the bytes not yet read. *)
Definition toy_volume : Type := list (list ascii * (Z * list Z)).

Fixpoint toy_lookup (v : toy_volume) (path : list ascii) : option (Z * list Z) :=
  match v with
  | [] => None
  | (p, f) :: v' => if decide (p = path) then Some f else toy_lookup v' path
  end.

Definition toy_fatfs : FatFs :=
  {| FS := toy_volume;
     FIL := list Z;
     f_open v path _ :=
       match toy_lookup v path with
       | Some (fr, bytes) => (fr, bytes, v)
       | None => (FR_NO_FILE, [], v)
       end;
     f_size fil := Z.of_nat (length fil);
     f_read v fil n := (FR_OK, take (Z.to_nat n) fil, drop (Z.to_nat n) fil, v);
     f_write v fil data := (FR_OK, Z.of_nat (length data), fil, v);
     f_lseek v fil _ := (FR_OK, fil, v);
     f_close v _ := (FR_OK, v) |}.

(** Trampolines and handlers that return a recognisable code and leave the
    state alone. *)
Definition toy_machine : @Machine toy_fatfs :=
  {| exec16 _ _ w := (116, w);
     exec24 _ _ w := (124, w);
     call _ _ w := (100, w);
     null_func := None;
     fileObject_addr i := 0x0BD000 + 0x300 * Z.of_nat i |}.

(** An image with the MOS header and mode byte [mode]. *)
Definition toy_image (mode : Z) : list Z :=
  repeat 0 64 ++ [77; 79; 83; 0; mode] ++ repeat 0 8.

Definition toy_world (l : list ascii) (v : toy_volume) : @world toy_fatfs :=
  @World toy_fatfs (TokState l O) (fun _ => 0)
         (fun _ => @MosFileObject toy_fatfs 0 []) v.

(** The world after an image with mode byte [mode] has been loaded at the
    default load address. *)
Definition loaded_world (mode : Z) : @world toy_fatfs :=
  @set_ram toy_fatfs (toy_world [] [])
    (write_bytes (fun _ => 0) 0x040000 (toy_image mode)).

(** The world when the handler of LOAD is entered for the line
    [load foo.bin &50000], on volume [v]: the command token is cut off and
    the cursor stands behind it. *)
Definition load_line_world (v : toy_volume) : @world toy_fatfs :=
  @World toy_fatfs
    (TokState (lit "load" ++ NUL :: lit "foo.bin &50000" ++ [NUL]) 5)
    (fun _ => 0) (fun _ => @MosFileObject toy_fatfs 0 []) v.

(** A volume with a 32-byte file. *)
Definition big_volume : toy_volume := [ (lit "big.bin", (FR_OK, repeat 0 32)) ].

(** A volume whose /mos/foo.bin cannot be read from the medium, and with a
    good foo.bin in the current directory. *)
Definition disk_error_volume : toy_volume :=
  [ (lit "/mos/foo.bin", (FR_DISK_ERR, []));
    (lit "foo.bin", (FR_OK, toy_image 1)) ].

(** A variable list Alpha, Beta, Current$Dir, the last of kind Code. *)
Definition ex_vars : sysvars :=
  SysVars
    (<[100 := SysVar (lit "Alpha") MOS_VAR_STRING 500 (Some 300)]>
       (<[300 := SysVar (lit "Beta") MOS_VAR_NUMBER 2 (Some 200)]>
          (<[200 := SysVar (lit "Current$Dir") MOS_VAR_CODE 900 None]> ∅)))
    (Some 100) ∅.

(** The line [unset *] after [mos_exec] has cut the command word. *)
Definition ex_unset_line : list ascii := lit "unset" ++ NUL :: lit "*" ++ [NUL].

(** A volume whose every file opens and reports 0xFC0000 bytes. *)
Definition huge_fatfs : FatFs :=
  {| FS := unit;
     FIL := unit;
     f_open _ _ _ := (FR_OK, tt, tt);
     f_size _ := 0xFC0000;
     f_read _ _ _ := (FR_OK, [0x76], tt, tt);
     f_write _ _ _ := (FR_OK, 0, tt, tt);
     f_lseek _ _ _ := (FR_OK, tt, tt);
     f_close _ _ := (FR_OK, tt) |}.

Definition huge_machine : @Machine huge_fatfs :=
  {| exec16 _ _ w := (116, w);
     exec24 _ _ w := (124, w);
     call _ _ w := (100, w);
     null_func := None;
     fileObject_addr i := 0x0BD000 + 0x300 * Z.of_nat i |}.

Definition huge_world : @world huge_fatfs :=
  @World huge_fatfs (TokState [] O) (fun _ => 0)
         (fun _ => @MosFileObject huge_fatfs 0 tt) tt.

(** * Properties *)

(** ** Reading and writing a line buffer *)

Lemma is_nul_true c : is_nul c = true <-> c = NUL.
Proof. unfold is_nul. apply Ascii.eqb_eq. Qed.

Lemma is_nul_false c : is_nul c = false <-> c <> NUL.
Proof. unfold is_nul. apply Ascii.eqb_neq. Qed.

Lemma rd_drop (buf : list ascii) s i :
  default NUL (drop s buf !! i) = rd buf (s + i).
Proof. unfold rd. by rewrite lookup_drop. Qed.

Lemma rd_wr_ne (buf : list ascii) i j c : i <> j -> rd (wr buf i c) j = rd buf j.
Proof. intros Hne. unfold rd, wr. by rewrite list_lookup_insert_ne. Qed.

Lemma rd_wr_nul (buf : list ascii) i : rd (wr buf i NUL) i = NUL.
Proof.
  unfold rd, wr. destruct (decide (i < length buf)%nat) as [Hlt|Hge].
  - by rewrite list_lookup_insert_eq.
  - rewrite lookup_ge_None_2; [done|]. rewrite length_insert. lia.
Qed.

Lemma wr_id (buf : list ascii) i : rd buf i = NUL -> wr buf i NUL = buf.
Proof.
  unfold rd, wr. intros Hrd. destruct (buf !! i) as [c|] eqn:E.
  - simpl in Hrd. subst c. by apply list_insert_id.
  - apply list_insert_ge. by apply lookup_ge_None_1.
Qed.

(** ** The scanning loops *)

Lemma span_lt P (l : list ascii) i :
  (i < span P l)%nat -> P (default NUL (l !! i)) = true.
Proof.
  revert i. induction l as [|c l IH]; simpl; intros i Hi; [lia|].
  destruct (P c) eqn:E; [|lia].
  destruct i as [|i]; simpl; [done|]. apply IH. lia.
Qed.

Lemma span_stop P (l : list ascii) :
  P NUL = false -> P (default NUL (l !! span P l)) = false.
Proof.
  intros HP. induction l as [|c l IH]; simpl; [done|].
  destruct (P c) eqn:E; simpl; done.
Qed.

Lemma span_unique P (l : list ascii) n :
  (forall i, (i < n)%nat -> P (default NUL (l !! i)) = true) ->
  P (default NUL (l !! n)) = false ->
  span P l = n.
Proof.
  revert n. induction l as [|c l IH]; intros n Hlt Hn; simpl.
  - destruct n as [|n]; [done|].
    specialize (Hlt O ltac:(lia)). simpl in *. congruence.
  - destruct n as [|n]; simpl in *; [by rewrite Hn|].
    pose proof (Hlt O ltac:(lia)) as H0. simpl in H0. rewrite H0.
    f_equal. apply IH; [|done].
    intros i Hi. apply (Hlt (S i)). lia.
Qed.

Lemma span_at_lt P buf s i :
  (i < span P (drop s buf))%nat -> P (rd buf (s + i)) = true.
Proof. intros Hi. rewrite <- rd_drop. by apply span_lt. Qed.

Lemma span_at_stop P buf s :
  P NUL = false -> P (rd buf (s + span P (drop s buf))) = false.
Proof. intros HP. rewrite <- rd_drop. by apply span_stop. Qed.

Lemma span_at_unique P buf s n :
  (forall i, (i < n)%nat -> P (rd buf (s + i)) = true) ->
  P (rd buf (s + n)) = false ->
  span P (drop s buf) = n.
Proof.
  intros Hlt Hn. apply span_unique.
  - intros i Hi. rewrite rd_drop. by apply Hlt.
  - by rewrite rd_drop.
Qed.

Lemma strlen_lt buf s i : (i < strlen buf s)%nat -> rd buf (s + i) <> NUL.
Proof.
  intros Hi. apply (span_at_lt _ buf s) in Hi.
  apply negb_true_iff in Hi. by apply is_nul_false.
Qed.

Lemma strlen_stop buf s : rd buf (s + strlen buf s) = NUL.
Proof.
  apply is_nul_true. apply negb_false_iff.
  apply (span_at_stop (fun c => negb (is_nul c))). done.
Qed.

Lemma strlen_unique buf s n :
  (forall i, (i < n)%nat -> rd buf (s + i) <> NUL) ->
  rd buf (s + n) = NUL ->
  strlen buf s = n.
Proof.
  intros Hlt Hn. apply span_at_unique.
  - intros i Hi. apply negb_true_iff. apply is_nul_false. by apply Hlt.
  - apply negb_false_iff. by apply is_nul_true.
Qed.

(** ** mos_trim *)

Lemma trim_back_le buf s q : (trim_back buf s q <= q)%nat.
Proof.
  induction q as [|q IH]; simpl; [lia|].
  destruct (_ && _); lia.
Qed.

Lemma trim_back_ge buf s q : (s <= q)%nat -> (s <= trim_back buf s q)%nat.
Proof.
  induction q as [|q IH]; simpl; intros Hq; [lia|].
  destruct (s <? S q)%nat eqn:E; simpl; [|lia].
  apply Nat.ltb_lt in E. destruct (isspace _); [|lia]. apply IH. lia.
Qed.

Lemma trim_back_nonspace buf s q :
  (s < trim_back buf s q)%nat -> isspace (rd buf (trim_back buf s q)) = false.
Proof.
  induction q as [|q IH]; simpl; [lia|].
  destruct (s <? S q)%nat eqn:E; simpl.
  - destruct (isspace (rd buf (S q))) eqn:Es; [apply IH|done].
  - apply Nat.ltb_ge in E. lia.
Qed.

Lemma trim_back_fix buf s p :
  ((s < p)%nat -> isspace (rd buf p) = false) -> trim_back buf s p = p.
Proof.
  intros Hp. destruct p as [|p]; simpl; [done|].
  destruct (s <? S p)%nat eqn:E; simpl; [|done].
  apply Nat.ltb_lt in E. by rewrite (Hp E).
Qed.

Lemma skip_not_nul c : (isspace c || is_star c)%bool = true -> c <> NUL.
Proof. intros Hc ->. vm_compute in Hc. done. Qed.

(** Trimming an already trimmed string changes neither the buffer nor the
    pointer. *)
Lemma mos_trim_again buf s :
  mos_trim (mos_trim buf s).1 (mos_trim buf s).2 = mos_trim buf s.
Proof.
  destruct s as [s|]; [|done]. unfold mos_trim at 2 3 4.
  destruct (is_nul (rd buf s)) eqn:Hs; simpl.
  { by rewrite Hs. }
  set (skip := fun c => (isspace c || is_star c)%bool).
  set (s' := (s + span skip (drop s buf))%nat).
  set (n := strlen buf s').
  set (p := trim_back buf s' (s' + n - 1)).
  assert (Hstop : skip (rd buf s') = false) by (by apply span_at_stop).
  destruct (decide (n = O)) as [Hn|Hn].
  - (* the scan ran to the terminator *)
    assert (Hnul : rd buf s' = NUL).
    { pose proof (strlen_stop buf s') as Hst. fold n in Hst.
      by rewrite Hn, Nat.add_0_r in Hst. }
    assert (Hs' : (s < s')%nat).
    { destruct (decide (s = s')) as [Heq|]; [|unfold s' in *; lia].
      apply is_nul_false in Hs. rewrite Heq in Hs. done. }
    assert (Hp : p = (s' - 1)%nat).
    { unfold p. rewrite Hn, Nat.add_0_r. apply trim_back_fix. lia. }
    rewrite Hp. replace (s' - 1 + 1)%nat with s' by lia.
    rewrite (wr_id _ _ Hnul). simpl.
    by rewrite (proj2 (is_nul_true _) Hnul).
  - assert (Hq : (s' <= s' + n - 1)%nat) by lia.
    assert (Hps : (s' <= p)%nat) by (by apply trim_back_ge).
    assert (Hpq : (p <= s' + n - 1)%nat) by apply trim_back_le.
    set (buf' := wr buf (p + 1) NUL).
    assert (Hsame : forall j, (j <= p)%nat -> rd buf' j = rd buf j).
    { intros j Hj. apply rd_wr_ne. lia. }
    assert (Hnn : rd buf s' <> NUL).
    { replace s' with (s' + 0)%nat by lia. apply strlen_lt. fold n. lia. }
    simpl. rewrite (Hsame s' Hps).
    rewrite (proj2 (is_nul_false _) Hnn).
    assert (Hskip : span skip (drop s' buf') = O).
    { apply span_at_unique; [lia|]. rewrite Nat.add_0_r. by rewrite Hsame. }
    fold skip. rewrite Hskip, Nat.add_0_r.
    assert (Hlen : strlen buf' s' = (p + 1 - s')%nat).
    { apply strlen_unique.
      - intros i Hi. rewrite Hsame by lia. apply strlen_lt. fold n. lia.
      - replace (s' + (p + 1 - s'))%nat with (p + 1)%nat by lia.
        apply rd_wr_nul. }
    rewrite Hlen. replace (s' + (p + 1 - s') - 1)%nat with p by lia.
    rewrite trim_back_fix.
    + f_equal. unfold buf', wr. apply list_insert_insert_eq.
    + intros Hlt. rewrite Hsame by lia. by apply trim_back_nonspace.
Qed.

(** ** Scans over a buffer given by its parts *)

Lemma span_app_all P (l1 l2 : list ascii) :
  Forall (fun c => P c = true) l1 ->
  span P (l1 ++ l2) = (length l1 + span P l2)%nat.
Proof.
  induction 1 as [|c l Hc _ IH]; simpl; [done|]. by rewrite Hc, IH.
Qed.

Lemma span_app_stop P (l1 l2 : list ascii) c :
  Forall (fun c => P c = true) l1 -> P c = false ->
  span P (l1 ++ c :: l2) = length l1.
Proof.
  intros Hl Hc. rewrite span_app_all by done. simpl. rewrite Hc. lia.
Qed.

Lemma rd_app_r (l1 l2 : list ascii) i :
  rd (l1 ++ l2) (length l1 + i) = rd l2 i.
Proof.
  unfold rd. rewrite lookup_app_r by lia. do 2 f_equal. lia.
Qed.

Lemma wr_app_r (l1 l2 : list ascii) i c :
  wr (l1 ++ l2) (length l1 + i) c = l1 ++ wr l2 i c.
Proof. unfold wr. apply insert_app_r. Qed.

Lemma drop_app_length' (l1 l2 : list ascii) : drop (length l1) (l1 ++ l2) = l2.
Proof. apply drop_app_length. Qed.

Lemma is_delim_not_tokch d c : is_delim d c = true -> is_tokch d c = false.
Proof. unfold is_delim, is_tokch. destruct (is_nul c), (in_set d c); done. Qed.

Lemma is_tokch_not_delim d c : is_tokch d c = true -> is_delim d c = false.
Proof. unfold is_delim, is_tokch. destruct (is_nul c), (in_set d c); done. Qed.

Lemma is_delim_not_nul d c : is_delim d c = true -> is_nul c = false.
Proof. unfold is_delim. destruct (is_nul c); done. Qed.

Lemma is_tokch_not_nul d c : is_tokch d c = true -> is_nul c = false.
Proof. unfold is_tokch. destruct (is_nul c); done. Qed.

(** The three outcomes of one tokenizer call on a buffer [pre ++ ds ++ ...]
    entered at the end of [pre], where [ds] are delimiters. *)
Lemma mos_strtok_r_token pre ds tk c rest d s1 save :
  match s1 with None => save | Some p => p end = length pre ->
  Forall (fun x => is_delim d x = true) ds ->
  tk <> [] ->
  Forall (fun x => is_tokch d x = true) tk ->
  is_delim d c = true ->
  mos_strtok_r (pre ++ ds ++ tk ++ c :: rest) s1 d save
  = (Some (length pre + length ds)%nat,
     pre ++ ds ++ tk ++ NUL :: rest,
     S (length pre + length ds + length tk)).
Proof.
  intros Hs Hds Hne Htk Hc. unfold mos_strtok_r. rewrite Hs.
  set (buf := pre ++ ds ++ tk ++ c :: rest).
  destruct tk as [|t tk]; [done|]. apply Forall_cons in Htk as [Ht Htk].
  assert (Hspn : strspn buf (length pre) d = length ds).
  { unfold strspn, buf. rewrite drop_app_length'. simpl.
    apply (span_app_stop (is_delim d)); [done|]. by apply is_tokch_not_delim. }
  assert (H0 : is_nul (rd buf (length pre)) = false).
  { replace (length pre) with (length pre + 0)%nat by lia.
    unfold buf. rewrite rd_app_r.
    destruct ds as [|x ds]; simpl.
    - by apply (is_tokch_not_nul d).
    - apply Forall_cons in Hds as [Hx _]. by apply (is_delim_not_nul d). }
  rewrite H0, Hspn.
  assert (Hbuf : buf = (pre ++ ds) ++ (t :: tk) ++ c :: rest).
  { unfold buf. rewrite <- !app_assoc. reflexivity. }
  assert (Hlen : length (pre ++ ds) = (length pre + length ds)%nat)
    by apply length_app.
  assert (H1 : is_nul (rd buf (length pre + length ds)) = false).
  { rewrite Hbuf, <- Hlen.
    replace (length (pre ++ ds)) with (length (pre ++ ds) + 0)%nat by lia.
    rewrite rd_app_r. simpl. by apply (is_tokch_not_nul d). }
  rewrite H1.
  assert (Hcspn : strcspn buf (length pre + length ds) d = length (t :: tk)).
  { unfold strcspn. rewrite Hbuf, <- Hlen, drop_app_length'.
    apply (span_app_stop (is_tokch d)); [by constructor|].
    by apply is_delim_not_tokch. }
  rewrite Hcspn.
  assert (Hbuf2 : buf = ((pre ++ ds) ++ t :: tk) ++ c :: rest).
  { rewrite Hbuf. rewrite <- !app_assoc. reflexivity. }
  assert (Hlen2 : length ((pre ++ ds) ++ t :: tk)
                  = (length pre + length ds + length (t :: tk))%nat).
  { by rewrite length_app, Hlen. }
  assert (H2 : is_nul (rd buf (length pre + length ds + length (t :: tk))) = false).
  { rewrite Hbuf2, <- Hlen2.
    replace (length ((pre ++ ds) ++ t :: tk))
      with (length ((pre ++ ds) ++ t :: tk) + 0)%nat by lia.
    rewrite rd_app_r. simpl. by apply (is_delim_not_nul d). }
  rewrite H2. f_equal. f_equal.
  rewrite Hbuf2, <- Hlen2.
  replace (length ((pre ++ ds) ++ t :: tk))
    with (length ((pre ++ ds) ++ t :: tk) + 0)%nat by lia.
  rewrite wr_app_r. simpl. by rewrite <- !app_assoc.
Qed.

Lemma mos_strtok_r_last pre ds tk rest d s1 save :
  match s1 with None => save | Some p => p end = length pre ->
  Forall (fun x => is_delim d x = true) ds ->
  tk <> [] ->
  Forall (fun x => is_tokch d x = true) tk ->
  mos_strtok_r (pre ++ ds ++ tk ++ NUL :: rest) s1 d save
  = (Some (length pre + length ds)%nat,
     pre ++ ds ++ tk ++ NUL :: rest,
     (length pre + length ds + length tk)%nat).
Proof.
  intros Hs Hds Hne Htk. unfold mos_strtok_r. rewrite Hs.
  set (buf := pre ++ ds ++ tk ++ NUL :: rest).
  destruct tk as [|t tk]; [done|]. apply Forall_cons in Htk as [Ht Htk].
  assert (Hspn : strspn buf (length pre) d = length ds).
  { unfold strspn, buf. rewrite drop_app_length'. simpl.
    apply (span_app_stop (is_delim d)); [done|]. by apply is_tokch_not_delim. }
  assert (H0 : is_nul (rd buf (length pre)) = false).
  { replace (length pre) with (length pre + 0)%nat by lia.
    unfold buf. rewrite rd_app_r.
    destruct ds as [|x ds]; simpl.
    - by apply (is_tokch_not_nul d).
    - apply Forall_cons in Hds as [Hx _]. by apply (is_delim_not_nul d). }
  rewrite H0, Hspn.
  assert (Hbuf : buf = (pre ++ ds) ++ (t :: tk) ++ NUL :: rest).
  { unfold buf. rewrite <- !app_assoc. reflexivity. }
  assert (Hlen : length (pre ++ ds) = (length pre + length ds)%nat)
    by apply length_app.
  assert (H1 : is_nul (rd buf (length pre + length ds)) = false).
  { rewrite Hbuf, <- Hlen.
    replace (length (pre ++ ds)) with (length (pre ++ ds) + 0)%nat by lia.
    rewrite rd_app_r. simpl. by apply (is_tokch_not_nul d). }
  rewrite H1.
  assert (Hcspn : strcspn buf (length pre + length ds) d = length (t :: tk)).
  { unfold strcspn. rewrite Hbuf, <- Hlen, drop_app_length'.
    apply (span_app_stop (is_tokch d)); [by constructor|]. done. }
  rewrite Hcspn.
  assert (Hbuf2 : buf = ((pre ++ ds) ++ t :: tk) ++ NUL :: rest).
  { rewrite Hbuf. rewrite <- !app_assoc. reflexivity. }
  assert (Hlen2 : length ((pre ++ ds) ++ t :: tk)
                  = (length pre + length ds + length (t :: tk))%nat).
  { by rewrite length_app, Hlen. }
  assert (H2 : is_nul (rd buf (length pre + length ds + length (t :: tk))) = true).
  { rewrite Hbuf2, <- Hlen2.
    replace (length ((pre ++ ds) ++ t :: tk))
      with (length ((pre ++ ds) ++ t :: tk) + 0)%nat by lia.
    rewrite rd_app_r. done. }
  by rewrite H2.
Qed.

Lemma mos_strtok_r_none pre ds rest d s1 save :
  match s1 with None => save | Some p => p end = length pre ->
  Forall (fun x => is_delim d x = true) ds ->
  mos_strtok_r (pre ++ ds ++ NUL :: rest) s1 d save
  = (None, pre ++ ds ++ NUL :: rest, (length pre + length ds)%nat).
Proof.
  intros Hs Hds. unfold mos_strtok_r. rewrite Hs.
  set (buf := pre ++ ds ++ NUL :: rest).
  destruct ds as [|x ds].
  - simpl in *. replace (length pre) with (length pre + 0)%nat at 1 by lia.
    unfold buf. rewrite rd_app_r. simpl. by rewrite Nat.add_0_r.
  - assert (H0 : is_nul (rd buf (length pre)) = false).
    { replace (length pre) with (length pre + 0)%nat by lia.
      unfold buf. rewrite rd_app_r. simpl.
      apply Forall_cons in Hds as [Hx _]. by apply (is_delim_not_nul d). }
    rewrite H0.
    assert (Hspn : strspn buf (length pre) d = length (x :: ds)).
    { unfold strspn, buf. rewrite drop_app_length'.
      apply (span_app_stop (is_delim d)); done. }
    rewrite Hspn.
    assert (H1 : is_nul (rd buf (length pre + length (x :: ds))) = true).
    { unfold buf. rewrite rd_app_r.
      replace (length (x :: ds)) with (length (x :: ds) + 0)%nat by lia.
      by rewrite rd_app_r. }
    by rewrite H1.
Qed.

Lemma cstr_at (pre tk rest : list ascii) :
  Forall (fun x => x <> NUL) tk ->
  cstr (pre ++ tk ++ NUL :: rest) (length pre) = tk.
Proof.
  intros Htk. unfold cstr, strlen. rewrite drop_app_length'.
  rewrite (span_app_stop _ tk rest NUL); [by rewrite take_app_length|..|done].
  eapply Forall_impl; [exact Htk|]. intros x Hx. simpl.
  apply negb_true_iff. by apply is_nul_false.
Qed.

Lemma tokch_not_nul d (tk : list ascii) :
  Forall (fun x => is_tokch d x = true) tk -> Forall (fun x => x <> NUL) tk.
Proof.
  intros Htk. eapply Forall_impl; [exact Htk|].
  intros x Hx. apply is_nul_false. by apply (is_tokch_not_nul d).
Qed.

(** ** C7: mos_trim *)

(** C7.  [mos_trim] is idempotent on every buffer and pointer, the null
    pointer and the empty string included: trimming the result again returns
    the same buffer and the same pointer.  Leading white space and asterisks
    are skipped, and an asterisk that ends the string is kept. *)
Theorem mos_trim_idempotent :
  (forall buf s,
      mos_trim (mos_trim buf s).1 (mos_trim buf s).2 = mos_trim buf s)
  /\ (forall lead c mid rest,
        Forall (fun x => (isspace x || is_star x)%bool = true) lead ->
        (isspace c || is_star c)%bool = false ->
        c <> NUL ->
        Forall (fun x => x <> NUL) mid ->
        let buf := lead ++ c :: mid ++ "*"%char :: NUL :: rest in
        mos_trim buf (Some O) = (buf, Some (length lead))
        /\ cstr buf (length lead) = c :: mid ++ ["*"%char]).
Proof.
  split; [apply mos_trim_again|].
  intros lead c mid rest Hlead Hc Hcn Hmid buf.
  set (core := c :: mid ++ ["*"%char]).
  assert (Hbuf : buf = lead ++ core ++ NUL :: rest).
  { unfold buf, core. simpl. by rewrite <- app_assoc. }
  assert (Hcore : Forall (fun x => x <> NUL) core).
  { unfold core. constructor; [done|]. apply Forall_app. split; [done|].
    by repeat constructor. }
  split; [|rewrite Hbuf; by apply cstr_at].
  unfold mos_trim.
  assert (H0 : is_nul (rd buf O) = false).
  { apply is_nul_false. unfold buf. destruct lead as [|x lead]; simpl; [done|].
    apply Forall_cons in Hlead as [Hx _]. by apply skip_not_nul. }
  rewrite H0. rewrite drop_0.
  assert (Hskip : span (fun c => (isspace c || is_star c)%bool) buf = length lead).
  { unfold buf. by apply span_app_stop. }
  rewrite Hskip. simpl (0 + _)%nat.
  assert (Hlen : strlen buf (length lead) = length core).
  { unfold strlen. rewrite Hbuf, drop_app_length'.
    apply span_app_stop; [|done].
    eapply Forall_impl; [exact Hcore|]. intros x Hx. simpl.
    apply negb_true_iff. by apply is_nul_false. }
  rewrite Hlen.
  set (A := lead ++ c :: mid).
  assert (HA : buf = A ++ "*"%char :: NUL :: rest).
  { unfold buf, A. by rewrite <- app_assoc. }
  assert (HlenA : (length lead + length core - 1)%nat = length A).
  { unfold A, core. rewrite length_app. simpl. rewrite length_app. simpl. lia. }
  rewrite HlenA.
  assert (Hstar : rd buf (length A) = "*"%char).
  { rewrite HA. replace (length A) with (length A + 0)%nat by lia.
    by rewrite rd_app_r. }
  rewrite trim_back_fix by (intros _; by rewrite Hstar).
  rewrite wr_id; [done|].
  rewrite HA. by rewrite rd_app_r.
Qed.

Lemma mos_trim_idempotent_witness :
  mos_trim (lit "  * dir a*" ++ [NUL]) (Some O)
  = (lit "  * dir a*" ++ [NUL], Some 4%nat)
  /\ cstr (lit "  * dir a*" ++ [NUL]) 4 = lit "dir a*".
Proof.
  apply (proj2 mos_trim_idempotent (lit "  * ") "d"%char (lit "ir a") []).
  - by repeat constructor.
  - reflexivity.
  - discriminate.
  - by repeat constructor.
Defined.

(** ** C8: mos_strtok_r *)

(** C8.  Tokenizing ["  a  b "] with the delimiter [" "] yields the token
    ["a"], then ["b"], then no token.  In general a call skips the leading
    delimiters; when a delimiter follows the token it is overwritten by the
    terminator and the cursor is left just past it; when the string ends with
    the token the cursor is left on the terminator; when only delimiters
    remain there is no token. *)
Theorem mos_strtok_r_tokens :
  (let b0 := cline "  a  b " in
   let b1 := lit "  a" ++ NUL :: lit " b " ++ [NUL] in
   let b2 := lit "  a" ++ NUL :: lit " b" ++ [NUL; NUL] in
   mos_strtok_r b0 (Some O) (lit " ") O = (Some 2%nat, b1, 4%nat)
   /\ cstr b1 2 = lit "a"
   /\ mos_strtok_r b1 None (lit " ") 4 = (Some 5%nat, b2, 7%nat)
   /\ cstr b2 5 = lit "b"
   /\ mos_strtok_r b2 None (lit " ") 7 = (None, b2, 7%nat))
  /\ (forall pre ds tk c rest d s1 save,
        match s1 with None => save | Some p => p end = length pre ->
        Forall (fun x => is_delim d x = true) ds ->
        tk <> [] ->
        Forall (fun x => is_tokch d x = true) tk ->
        is_delim d c = true ->
        let buf' := pre ++ ds ++ tk ++ NUL :: rest in
        mos_strtok_r (pre ++ ds ++ tk ++ c :: rest) s1 d save
        = (Some (length pre + length ds)%nat, buf',
           S (length pre + length ds + length tk))
        /\ cstr buf' (length pre + length ds) = tk)
  /\ (forall pre ds tk rest d s1 save,
        match s1 with None => save | Some p => p end = length pre ->
        Forall (fun x => is_delim d x = true) ds ->
        tk <> [] ->
        Forall (fun x => is_tokch d x = true) tk ->
        let buf := pre ++ ds ++ tk ++ NUL :: rest in
        mos_strtok_r buf s1 d save
        = (Some (length pre + length ds)%nat, buf,
           (length pre + length ds + length tk)%nat)
        /\ cstr buf (length pre + length ds) = tk)
  /\ (forall pre ds rest d s1 save,
        match s1 with None => save | Some p => p end = length pre ->
        Forall (fun x => is_delim d x = true) ds ->
        let buf := pre ++ ds ++ NUL :: rest in
        mos_strtok_r buf s1 d save = (None, buf, (length pre + length ds)%nat)).
Proof.
  assert (Hcstr : forall pre ds tk rest d,
             Forall (fun x => is_tokch d x = true) tk ->
             cstr (pre ++ ds ++ tk ++ NUL :: rest) (length pre + length ds) = tk).
  { intros pre ds tk rest d Htk. rewrite app_assoc, <- length_app.
    apply cstr_at. by apply (tokch_not_nul d). }
  split; [|split; [|split]].
  - vm_compute. repeat split; reflexivity.
  - intros pre ds tk c rest d s1 save Hs Hds Hne Htk Hc buf'. split.
    + by apply mos_strtok_r_token.
    + by apply (Hcstr pre ds tk rest d).
  - intros pre ds tk rest d s1 save Hs Hds Hne Htk buf. split.
    + by apply mos_strtok_r_last.
    + by apply (Hcstr pre ds tk rest d).
  - intros pre ds rest d s1 save Hs Hds buf. by apply mos_strtok_r_none.
Qed.

Lemma mos_strtok_r_tokens_witness :
  mos_strtok_r (lit "load  &40000 x" ++ [NUL]) None (lit " ") 4
  = (Some 6%nat, lit "load  &40000" ++ NUL :: lit "x" ++ [NUL], 13%nat)
  /\ cstr (lit "load  &40000" ++ NUL :: lit "x" ++ [NUL]) 6 = lit "&40000".
Proof.
  apply (proj1 (proj2 mos_strtok_r_tokens)
           (lit "load") (lit "  ") (lit "&40000") " "%char (lit "x" ++ [NUL])
           (lit " ") None 4%nat).
  - reflexivity.
  - by repeat constructor.
  - discriminate.
  - by repeat constructor.
  - reflexivity.
Defined.

(** ** C5: failing parses and the shared cursor *)

Lemma strspn_0_iff buf s d :
  rd buf (s + strspn buf s d) = NUL -> (strspn buf s d = O <-> rd buf s = NUL).
Proof.
  intros Hend. split.
  - intros H0. by rewrite H0, Nat.add_0_r in Hend.
  - intros Hs. apply span_at_unique; [lia|].
    rewrite Nat.add_0_r, Hs. done.
Qed.

(** No token: the buffer is untouched and the cursor is left on the
    terminator that follows the leading delimiters. *)
Lemma mos_strtok_none st ptr d st' :
  mos_strtok st ptr d = (None, st') ->
  line st' = line st
  /\ mos_strtok_ptr st' = (tok_start st ptr + strspn (line st) (tok_start st ptr) d)%nat
  /\ rd (line st) (mos_strtok_ptr st') = NUL.
Proof.
  unfold mos_strtok, mos_strtok_r. fold (tok_start st ptr).
  set (s := tok_start st ptr). set (buf := line st).
  destruct (is_nul (rd buf s)) eqn:H0.
  - intros [= <-]. simpl. apply is_nul_true in H0.
    assert (Hz : strspn buf s d = O).
    { apply span_at_unique; [lia|]. by rewrite Nat.add_0_r, H0. }
    rewrite Hz, Nat.add_0_r. by repeat split.
  - destruct (is_nul (rd buf (s + strspn buf s d))) eqn:H1.
    + intros [= <-]. simpl. apply is_nul_true in H1. by repeat split.
    + destruct (is_nul (rd buf (s + strspn buf s d + _))); intros [=].
Qed.

(** A token: it starts after the leading delimiters and the cursor is left
    beyond its first character. *)
Lemma mos_strtok_some st ptr d t st' :
  mos_strtok st ptr d = (Some t, st') ->
  t = (tok_start st ptr + strspn (line st) (tok_start st ptr) d)%nat
  /\ (t < mos_strtok_ptr st')%nat.
Proof.
  unfold mos_strtok, mos_strtok_r. fold (tok_start st ptr).
  set (s := tok_start st ptr). set (buf := line st).
  destruct (is_nul (rd buf s)) eqn:H0; [intros [=]|].
  set (t0 := (s + strspn buf s d)%nat).
  destruct (is_nul (rd buf t0)) eqn:H1; [intros [=]|].
  assert (Hpos : (0 < strcspn buf t0 d)%nat).
  { destruct (strcspn buf t0 d) eqn:E; [|lia]. exfalso.
    assert (Hd : is_delim d (rd buf t0) = false).
    { unfold t0. apply (span_at_stop (is_delim d)). done. }
    assert (Ht : is_tokch d (rd buf t0) = false).
    { pose proof (span_at_stop (is_tokch d) buf t0 eq_refl) as Hst.
      fold (strcspn buf t0 d) in Hst. by rewrite E, Nat.add_0_r in Hst. }
    unfold is_delim, is_tokch in *. rewrite H1 in *. simpl in *.
    destruct (in_set d (rd buf t0)); done. }
  destruct (is_nul (rd buf (t0 + strcspn buf t0 d)));
    intros [= <- <-]; simpl; split; (done || lia).
Qed.

(** After [mos_trim], a line that is not blank starts with its first token:
    the tokenizer call of [mos_exec] cannot return NULL. *)
Lemma mos_exec_token_some buf0 s buf p save :
  mos_trim buf0 (Some s) = (buf, Some p) ->
  is_nul (rd buf p) = false ->
  exists buf2 e, mos_strtok_r buf (Some p) (lit " ") save = (Some p, buf2, e).
Proof.
  unfold mos_trim. destruct (is_nul (rd buf0 s)) eqn:Hs.
  { intros [= <- <-] Hp. congruence. }
  set (skip := fun c => (isspace c || is_star c)%bool).
  set (p0 := (s + span skip (drop s buf0))%nat).
  set (q := trim_back buf0 p0 (p0 + strlen buf0 p0 - 1)).
  intros [= <- <-] Hp.
  assert (Hq : (q + 1)%nat <> p0).
  { intros Heq. rewrite Heq in Hp. rewrite rd_wr_nul in Hp. done. }
  rewrite rd_wr_ne in Hp by done.
  assert (Hstop : skip (rd buf0 p0) = false) by (by apply span_at_stop).
  assert (Hd : is_delim (lit " ") (rd (wr buf0 (q + 1) NUL) p0) = false).
  { rewrite rd_wr_ne by done. unfold is_delim, in_set. simpl.
    destruct (Ascii.eqb_spec (rd buf0 p0) " "%char) as [Heq|_].
    - rewrite Heq in Hstop. done.
    - by rewrite andb_false_r. }
  assert (Hz : strspn (wr buf0 (q + 1) NUL) p0 (lit " ") = O).
  { apply span_at_unique; [lia|]. by rewrite Nat.add_0_r. }
  unfold mos_strtok_r. rewrite rd_wr_ne by done. rewrite Hp, Hz, Nat.add_0_r.
  rewrite rd_wr_ne by done. rewrite Hp.
  destruct (is_nul (rd _ (p0 + _))); eauto.
Qed.

(** C5 (amended).  When [mos_parseString] or [mos_parseNumber] fails it
    returns 0 and does not write [*p_Value].  The shared cursor is still the
    tokenizer's: on missing input the buffer is untouched and the cursor
    stands on the terminator after the leading spaces, so it is unchanged
    exactly when the scan started on the terminator; a number refused for a
    trailing character has had its token consumed, the cursor standing
    beyond the start of that token. *)
Theorem parse_failure_cursor :
  (forall st ptr pv r pv' st',
      mos_parseString st ptr pv = (r, pv', st') ->
      r = 0 ->
      let s := tok_start st ptr in
      pv' = pv
      /\ line st' = line st
      /\ mos_strtok_ptr st' = (s + strspn (line st) s (lit " "))%nat
      /\ rd (line st) (mos_strtok_ptr st') = NUL
      /\ (mos_strtok_ptr st' = s <-> rd (line st) s = NUL))
  /\ (forall st ptr pv r pv' st',
        mos_parseNumber st ptr pv = (r, pv', st') ->
        r = 0 ->
        let s := tok_start st ptr in
        pv' = pv
        /\ ((line st' = line st
             /\ mos_strtok_ptr st' = (s + strspn (line st) s (lit " "))%nat
             /\ rd (line st) (mos_strtok_ptr st') = NUL
             /\ (mos_strtok_ptr st' = s <-> rd (line st) s = NUL))
            \/ ((s + strspn (line st) s (lit " ") < mos_strtok_ptr st')%nat
                /\ st' = (mos_strtok st ptr (lit " ")).2))).
Proof.
  assert (Hnone : forall st ptr st',
             mos_strtok st ptr (lit " ") = (None, st') ->
             let s := tok_start st ptr in
             line st' = line st
             /\ mos_strtok_ptr st' = (s + strspn (line st) s (lit " "))%nat
             /\ rd (line st) (mos_strtok_ptr st') = NUL
             /\ (mos_strtok_ptr st' = s <-> rd (line st) s = NUL)).
  { intros st ptr st' Htok s.
    destruct (mos_strtok_none _ _ _ _ Htok) as (Hl & Hc & Hr).
    fold s in Hc. repeat split; try done.
    - intros Heq. rewrite Hc in Hr, Heq.
      apply strspn_0_iff in Hr. apply Hr. lia.
    - intros Hs. rewrite Hc. rewrite Hc in Hr.
      apply strspn_0_iff in Hr. apply Hr in Hs. lia. }
  split.
  - intros st ptr pv r pv' st' Hp Hr s. unfold mos_parseString in Hp.
    destruct (mos_strtok st ptr (lit " ")) as [[t|] st1] eqn:Htok.
    + injection Hp as <- _ _. done.
    + injection Hp as _ <- <-. split; [done|]. by apply Hnone.
  - intros st ptr pv r pv' st' Hp Hr s. unfold mos_parseNumber in Hp.
    destruct (mos_strtok st ptr (lit " ")) as [[t|] st1] eqn:Htok.
    + destruct (Ascii.eqb (rd (line st1) t) "&"%char);
        destruct (strtol _ _ _) as [v e];
        destruct (negb (is_nul (rd (line st1) e)));
        injection Hp as <- <- <-; try done;
        (split; [done|]); right;
        destruct (mos_strtok_some _ _ _ _ _ Htok) as [-> Hlt]; done.
    + injection Hp as _ <- <-. split; [done|]. left. by apply Hnone.
Qed.

Lemma parse_failure_cursor_witness :
  None = (None : option nat)
  /\ line (TokState (cline "dir   ") 6) = cline "dir   "
  /\ mos_strtok_ptr (TokState (cline "dir   ") 6)
     = (3 + strspn (cline "dir   ") 3 (lit " "))%nat
  /\ rd (cline "dir   ") (mos_strtok_ptr (TokState (cline "dir   ") 6)) = NUL
  /\ (mos_strtok_ptr (TokState (cline "dir   ") 6) = 3%nat
      <-> rd (cline "dir   ") 3 = NUL).
Proof.
  apply (proj1 parse_failure_cursor (TokState (cline "dir   ") 3) None None
           0 None (TokState (cline "dir   ") 6)).
  - reflexivity.
  - reflexivity.
Defined.

(** C5, as stated, fails: a number with a trailing character is refused
    after its token has been cut out of the line and the cursor moved past
    it, and a string parse that finds only spaces leaves the cursor at the
    end of them. *)
Lemma parse_failure_moves_cursor :
  (mos_parseNumber (TokState (cline "12x 5") 0) None 7).1.1 = 0
  /\ mos_strtok_ptr (mos_parseNumber (TokState (cline "12x 5") 0) None 7).2 = 4%nat
  /\ mos_strtok_ptr (TokState (cline "12x 5") 0) = 0%nat
  /\ (mos_parseString (TokState (cline "dir   ") 3) None None).1.1 = 0
  /\ mos_strtok_ptr (mos_parseString (TokState (cline "dir   ") 3) None None).2 = 6%nat.
Proof. vm_compute. repeat split; reflexivity. Qed.

(** ** The shell: dispatch, load and file handles *)

Section ShellProps.
Context `{Matcher} `{Defines} `{FatFs} `{!Machine}.

Lemma has_signature_true (r : Z -> Z) ptr :
  has_signature r ptr ->
  ((r (ptr + 0x40) =? 77) && (r (ptr + 0x41) =? 79) && (r (ptr + 0x42) =? 83))%bool = true.
Proof. intros (-> & -> & ->). reflexivity. Qed.

Lemma has_signature_false (r : Z -> Z) ptr :
  ~ has_signature r ptr ->
  ((r (ptr + 0x40) =? 77) && (r (ptr + 0x41) =? 79) && (r (ptr + 0x42) =? 83))%bool = false.
Proof.
  intros Hn. apply not_true_is_false. intros Ht. apply Hn.
  apply andb_prop in Ht as [Ht H3]. apply andb_prop in Ht as [H1' H2'].
  unfold has_signature. lia.
Qed.

(** C4.  Running an image: without the signature the result is
    [MOS_INVALID_EXECUTABLE] and nothing is called; with it, mode byte 0
    enters through [exec16], mode byte 1 through [exec24], each with the
    address and the cursor, and any other mode byte is
    [MOS_INVALID_EXECUTABLE]. *)
Theorem mos_runBin_dispatch (w : world) (addr : Z) :
  (~ has_signature (ram w) addr ->
   mos_runBin addr w = (MOS_INVALID_EXECUTABLE, w, []))
  /\ (has_signature (ram w) addr -> ram w (addr + 0x44) = 0 ->
      mos_runBin addr w
      = ((exec16 addr (mos_strtok_ptr (tok w)) w).1,
         (exec16 addr (mos_strtok_ptr (tok w)) w).2,
         [EvExec16 addr (mos_strtok_ptr (tok w))]))
  /\ (has_signature (ram w) addr -> ram w (addr + 0x44) = 1 ->
      mos_runBin addr w
      = ((exec24 addr (mos_strtok_ptr (tok w)) w).1,
         (exec24 addr (mos_strtok_ptr (tok w)) w).2,
         [EvExec24 addr (mos_strtok_ptr (tok w))]))
  /\ (has_signature (ram w) addr ->
      ram w (addr + 0x44) <> 0 -> ram w (addr + 0x44) <> 1 ->
      mos_runBin addr w = (MOS_INVALID_EXECUTABLE, w, [])).
Proof.
  unfold mos_runBin, bind, get_world, mos_execMode, do_exec16, do_exec24, ret.
  repeat split.
  - intros Hn. by rewrite (has_signature_false _ _ Hn).
  - intros Hs Hm. rewrite (has_signature_true _ _ Hs), Hm. simpl.
    by destruct (exec16 _ _ _).
  - intros Hs Hm. rewrite (has_signature_true _ _ Hs), Hm. simpl.
    by destruct (exec24 _ _ _).
  - intros Hs H0' H1'. rewrite (has_signature_true _ _ Hs).
    destruct (Z.eqb_spec (ram w (addr + 0x44)) 0) as [|_]; [done|].
    destruct (Z.eqb_spec (ram w (addr + 0x44)) 1) as [|_]; [done|]. done.
Qed.

(** C9.  A line whose trimmed form is empty, starts with [#], or starts with
    [|] and a space is a successful no-op: the result is [FR_OK], only the
    trim has touched the line, and nothing is dispatched, searched or
    loaded (the trace is empty). *)
Theorem mos_exec_blank_or_comment (w : world) (buffer : nat) (in_mos : bool) :
  forall buf p,
    mos_trim (line (tok w)) (Some buffer) = (buf, Some p) ->
    rd buf p = NUL \/ rd buf p = "#"%char
    \/ (rd buf p = "|"%char /\ rd buf (S p) = " "%char) ->
    mos_exec (Some buffer) in_mos w
    = (FR_OK, set_tok w (TokState buf (mos_strtok_ptr (tok w))), []).
Proof.
  intros buf p Htrim Hline.
  unfold mos_exec, bind, do_trim, get_world, ret. rewrite Htrim. simpl.
  assert (Hb : blank_or_comment buf p = true).
  { unfold blank_or_comment.
    destruct Hline as [-> | [-> | [-> ->]]]; reflexivity. }
  by rewrite Hb.
Qed.

(** C10.  A handle that is 0, above [MOS_maxOpenFiles], or whose slot is not
    in use: [mos_GETFIL] returns 0, [mos_FREAD] and [mos_FWRITE] return 0
    and [mos_FLSEEK] returns [FR_INVALID_OBJECT], each without a FatFS call
    and with memory, slots and volume as they were. *)
Theorem invalid_handle (w : world) (fh : Z) :
  fh = 0 \/ fh > MOS_maxOpenFiles
  \/ free (mosFileObjects w (Z.to_nat (fh - 1))) = 0 ->
  mos_GETFIL w fh = 0
  /\ (forall buffer btr, mos_FREAD fh buffer btr w = (0, w, []))
  /\ (forall buffer btw, mos_FWRITE fh buffer btw w = (0, w, []))
  /\ (forall offset, mos_FLSEEK fh offset w = (FR_INVALID_OBJECT, w, [])).
Proof.
  intros Hfh.
  assert (Hget : mos_GETFIL w fh = 0).
  { unfold mos_GETFIL.
    destruct Hfh as [-> | [Hgt | Hfree]].
    - reflexivity.
    - replace (fh <=? MOS_maxOpenFiles) with false by (symmetry; lia).
      by rewrite andb_false_r.
    - rewrite Hfree. simpl. by destruct (_ && _)%bool. }
  split; [done|].
  unfold mos_FREAD, mos_FWRITE, mos_FLSEEK, bind, get_world, ret.
  rewrite Hget. simpl. done.
Qed.

(** ** C2: the overlap guard of mos_LOAD *)

(** C2 (amended).  When the file opens, the target address is not above the
    last address of external RAM, and address plus the number of bytes to
    load (the request capped by the file size, or the file size for a
    request of 0), a sum that fits 24 bits, is above the system address,
    [mos_LOAD] returns [MOS_OVERLAPPING_SYSTEM]: the only FatFS calls are the
    open and the close, there is no read, and memory is unchanged.  When the
    open fails its result is returned, again without a read. *)
Theorem mos_LOAD_overlap_guard (w : world) (filename : list ascii)
    (address size : Z) :
  forall fr fil fs,
    f_open (fatfs w) filename FA_READ = (fr, fil, fs) ->
    let len := load_size (f_size fil) size in
    let closed := set_fatfs w (f_close fs fil).2 in
    (fr = FR_OK ->
     0 <= address + len < 2 ^ 24 ->
     address <= MOS_externLastRAMaddress ->
     address + len > MOS_systemAddress ->
     mos_LOAD filename address size w
     = (MOS_OVERLAPPING_SYSTEM, closed, [EvOpen filename FA_READ; EvClose])
     /\ ram closed = ram w)
    /\ (fr <> FR_OK ->
        mos_LOAD filename address size w
        = (fr, closed, [EvOpen filename FA_READ; EvClose])
        /\ ram closed = ram w).
Proof.
  intros fr fil fs Hopen len closed.
  unfold mos_LOAD, bind, do_f_open, do_f_close, ret. rewrite Hopen. simpl.
  split.
  - intros -> Hfit Hext Hsys. simpl. fold len.
    assert (Hu : u24 (address + len) = address + len).
    { unfold u24. by apply Z.mod_small. }
    rewrite Hu.
    replace (address <=? MOS_externLastRAMaddress) with true by (symmetry; lia).
    replace (address + len >? MOS_systemAddress) with true by (symmetry; lia).
    simpl. unfold closed. by destruct (f_close fs fil).
  - intros Hfr. destruct (Z.eqb_spec fr FR_OK) as [|_]; [done|].
    simpl. unfold closed. by destruct (f_close fs fil).
Qed.

(** ** The search for an external program *)

(** What [mos_exec] does with a line whose first token matches no command:
    the [func] field is read through the null descriptor pointer, then the
    name is refused if too long, else searched for. *)
Lemma mos_exec_unmatched (w : world) (buffer : nat) (in_mos : bool)
    buf p t buf2 save :
  mos_trim (line (tok w)) (Some buffer) = (buf, Some p) ->
  blank_or_comment buf p = false ->
  mos_strtok_r buf (Some p) (lit " ") (mos_strtok_ptr (tok w))
  = (Some t, buf2, save) ->
  mos_getCommand (cstr buf2 t) = None ->
  mos_exec (Some buffer) in_mos w
  = (let w2 := set_tok w (TokState buf2 save) in
     if (246 <? length (cstr buf2 t))%nat
     then (MOS_INVALID_COMMAND, w2, [EvDescFunc None])
     else
       let '(r, w', ev) :=
         search_candidates (candidates (cstr buf2 t) in_mos) 0 w2 in
       (r, w', EvDescFunc None :: ev)).
Proof.
  intros Htrim Hblank Htok Hcmd.
  unfold mos_exec, bind, do_trim, get_world, do_strtok_r, do_desc_func, ret.
  rewrite Htrim. cbn [tok set_tok line mos_strtok_ptr].
  rewrite Hblank. cbn [tok set_tok line mos_strtok_ptr].
  rewrite Htok. cbn [tok set_tok line mos_strtok_ptr].
  rewrite Hcmd.
  set (w2 := World (TokState buf2 save) (ram w) (mosFileObjects w) (fatfs w)).
  set (name := cstr buf2 t).
  assert (Hw2 : set_tok (set_tok w (TokState buf (mos_strtok_ptr (tok w))))
                  (TokState buf2 save) = w2) by reflexivity.
  assert (Hw2' : set_tok w (TokState buf2 save) = w2) by reflexivity.
  rewrite Hw2'. cbv zeta.
  destruct null_func;
    (destruct (246 <? length name)%nat; [reflexivity|]);
    unfold candidates, search_candidates, bind, ret;
    fold (set_tok (set_tok w (TokState buf (mos_strtok_ptr (tok w))))
            (TokState buf2 save)); rewrite Hw2;
    (destruct (mos_LOAD (lit "/mos/" ++ name ++ lit ".bin")
                 MOS_starLoadAddress 0 w2) as [[fr1 w3] e1];
     destruct (fr1 =? FR_OK);
     [by destruct (mos_runBin MOS_starLoadAddress w3) as [[? ?] ?]|];
     destruct (fr1 =? MOS_OVERLAPPING_SYSTEM); [by rewrite app_nil_r|];
     destruct in_mos; [|by rewrite app_nil_r];
     destruct (mos_LOAD (name ++ lit ".bin") MOS_defaultLoadAddress 0 w3)
       as [[fr2 w4] e2];
     destruct (fr2 =? FR_OK);
     [by destruct (mos_runBin MOS_defaultLoadAddress w4) as [[? ?] ?]|];
     destruct (fr2 =? MOS_OVERLAPPING_SYSTEM); [by rewrite app_nil_r|];
     destruct (mos_LOAD (lit "/bin/" ++ name ++ lit ".bin")
                 MOS_defaultLoadAddress 0 w4) as [[fr3 w5] e3];
     destruct (fr3 =? FR_OK);
     [by destruct (mos_runBin MOS_defaultLoadAddress w5) as [[? ?] ?]|];
     destruct (fr3 =? MOS_OVERLAPPING_SYSTEM); by rewrite ?app_nil_r).
Qed.

Lemma mos_LOAD_no_call filename address size (w : world) :
  Forall (fun e => is_call e = false) (mos_LOAD filename address size w).2.
Proof.
  unfold mos_LOAD, bind, do_f_open, do_f_read, do_f_close, ret.
  destruct (f_open _ _ _) as [[fr fil] fs]. simpl.
  destruct (fr =? FR_OK); simpl.
  - destruct (_ && _)%bool; simpl.
    + destruct (f_close _ _). simpl. by repeat constructor.
    + destruct (f_read _ _ _) as [[[fr' data] fil'] fs']. simpl.
      destruct (f_close _ _). simpl. by repeat constructor.
  - destruct (f_close _ _). simpl. by repeat constructor.
Qed.

Lemma mos_runBin_no_call addr (w : world) :
  Forall (fun e => is_call e = false) (mos_runBin addr w).2.
Proof.
  unfold mos_runBin, bind, get_world, do_exec16, do_exec24, ret.
  destruct (_ =? 0); simpl.
  - destruct (exec16 _ _ _). simpl. by repeat constructor.
  - destruct (_ =? 1); simpl.
    + destruct (exec24 _ _ _). simpl. by repeat constructor.
    + constructor.
Qed.

Lemma search_candidates_no_call cands fr (w : world) :
  Forall (fun e => is_call e = false) (search_candidates cands fr w).2.
Proof.
  revert fr w. induction cands as [|[path addr] cands IH]; intros fr w; simpl.
  - constructor.
  - unfold bind.
    pose proof (mos_LOAD_no_call path addr 0 w) as Hl.
    destruct (mos_LOAD path addr 0 w) as [[fr1 w1] e1]. simpl in Hl.
    destruct (fr1 =? FR_OK).
    + pose proof (mos_runBin_no_call addr w1) as Hr.
      destruct (mos_runBin addr w1) as [[r w2] e2]. simpl in *.
      by apply Forall_app.
    + destruct (fr1 =? MOS_OVERLAPPING_SYSTEM).
      * simpl. by rewrite app_nil_r.
      * specialize (IH fr1 w1).
        destruct (search_candidates cands fr1 w1) as [[r w2] e2]. simpl in *.
        by apply Forall_app.
Qed.

(** C1.  On a line whose first token matches no command the shell calls no
    handler and goes on to the length check and the search, but not before
    it has read the [func] field through the null descriptor pointer: the
    trace starts with that read. *)
Theorem mos_exec_null_descriptor_read (w : world) (buffer : nat) (in_mos : bool)
    buf p t buf2 save :
  mos_trim (line (tok w)) (Some buffer) = (buf, Some p) ->
  blank_or_comment buf p = false ->
  mos_strtok_r buf (Some p) (lit " ") (mos_strtok_ptr (tok w))
  = (Some t, buf2, save) ->
  mos_getCommand (cstr buf2 t) = None ->
  exists ev,
    (mos_exec (Some buffer) in_mos w).2 = EvDescFunc None :: ev
    /\ Forall (fun e => is_call e = false) ev
    /\ ((length (cstr buf2 t) <= 246)%nat ->
        ev = (search_candidates (candidates (cstr buf2 t) in_mos) 0
                (set_tok w (TokState buf2 save))).2).
Proof.
  intros Htrim Hblank Htok Hcmd.
  rewrite (mos_exec_unmatched w buffer in_mos buf p t buf2 save) by done.
  cbv zeta.
  destruct (246 <? length (cstr buf2 t))%nat eqn:Hlen.
  - exists []. simpl. split; [done|]. split; [constructor|].
    apply Nat.ltb_lt in Hlen. lia.
  - pose proof (search_candidates_no_call (candidates (cstr buf2 t) in_mos) 0
                  (set_tok w (TokState buf2 save))) as Hno.
    destruct (search_candidates _ _ _) as [[r w'] ev]. simpl in *.
    by exists ev.
Qed.

(** C3 (amended).  For a name that is no built-in command and within the
    length bound, [mos_exec] is the search over the candidates /mos/NAME.bin
    and then, when [in_mos], NAME.bin and /bin/NAME.bin, in that order: a
    load that succeeds is run and ends the search, an overlap is returned and
    ends the search, and every other failed load goes on to the next
    candidate; after the last candidate a not-found failure gives
    [MOS_INVALID_COMMAND] and any other failure is returned. *)
Theorem mos_exec_search (w : world) (buffer : nat) (in_mos : bool)
    buf p t buf2 save :
  mos_trim (line (tok w)) (Some buffer) = (buf, Some p) ->
  blank_or_comment buf p = false ->
  mos_strtok_r buf (Some p) (lit " ") (mos_strtok_ptr (tok w))
  = (Some t, buf2, save) ->
  mos_getCommand (cstr buf2 t) = None ->
  (length (cstr buf2 t) <= 246)%nat ->
  mos_exec (Some buffer) in_mos w
  = (let '(r, w', ev) :=
       search_candidates (candidates (cstr buf2 t) in_mos) 0
         (set_tok w (TokState buf2 save)) in
     (r, w', EvDescFunc None :: ev)).
Proof.
  intros Htrim Hblank Htok Hcmd Hlen.
  rewrite (mos_exec_unmatched w buffer in_mos buf p t buf2 save) by done.
  cbv zeta.
  replace (246 <? length (cstr buf2 t))%nat with false; [done|].
  symmetry. apply Nat.ltb_ge. lia.
Qed.

End ShellProps.

(** ** The shell on the concrete machine *)

Section ShellExamples.
#[local] Existing Instance spec_matcher.
#[local] Existing Instance agon_defines.
#[local] Existing Instance toy_fatfs.
#[local] Existing Instance toy_machine.

Lemma mos_runBin_dispatch_witness :
  mos_runBin 0x040000 (loaded_world 1)
  = ((exec24 0x040000 (mos_strtok_ptr (tok (loaded_world 1))) (loaded_world 1)).1,
     (exec24 0x040000 (mos_strtok_ptr (tok (loaded_world 1))) (loaded_world 1)).2,
     [EvExec24 0x040000 (mos_strtok_ptr (tok (loaded_world 1)))]).
Proof.
  apply (proj1 (proj2 (proj2 (mos_runBin_dispatch (loaded_world 1) 0x040000)))).
  - repeat split; reflexivity.
  - reflexivity.
Defined.

Lemma mos_exec_blank_or_comment_witness :
  mos_exec (Some O) true (toy_world (cline "  | note ") [])
  = (FR_OK,
     set_tok (toy_world (cline "  | note ") [])
       (TokState (lit "  | note" ++ [NUL; NUL]) O),
     []).
Proof.
  apply (mos_exec_blank_or_comment (toy_world (cline "  | note ") []) O true
           (lit "  | note" ++ [NUL; NUL]) 2).
  - reflexivity.
  - right. right. split; reflexivity.
Defined.

Lemma invalid_handle_witness :
  mos_GETFIL (toy_world [] []) 3 = 0
  /\ (forall buffer btr,
        mos_FREAD 3 buffer btr (toy_world [] []) = (0, toy_world [] [], []))
  /\ (forall buffer btw,
        mos_FWRITE 3 buffer btw (toy_world [] []) = (0, toy_world [] [], []))
  /\ (forall offset,
        mos_FLSEEK 3 offset (toy_world [] [])
        = (FR_INVALID_OBJECT, toy_world [] [], [])).
Proof.
  apply (invalid_handle (toy_world [] []) 3).
  right. right. reflexivity.
Defined.

Lemma mos_LOAD_overlap_guard_witness :
  mos_LOAD (lit "big.bin") 0x0BBFF0 0 (toy_world [] big_volume)
  = (MOS_OVERLAPPING_SYSTEM,
     set_fatfs (toy_world [] big_volume)
       (f_close big_volume (repeat 0 32)).2,
     [EvOpen (lit "big.bin") FA_READ; EvClose])
  /\ ram (set_fatfs (toy_world [] big_volume)
            (f_close big_volume (repeat 0 32)).2)
     = ram (toy_world [] big_volume).
Proof.
  apply (proj1 (mos_LOAD_overlap_guard (toy_world [] big_volume)
                  (lit "big.bin") 0x0BBFF0 0
                  FR_OK (repeat 0 32) big_volume eq_refl)).
  - reflexivity.
  - vm_compute. split; [discriminate|reflexivity].
  - vm_compute. discriminate.
  - reflexivity.
Defined.

(** The 24-bit sum of the guard wraps: a file of 0xFC0000 bytes loaded at
    0x040000 ends at 0x1000000, which reads as 0, and the read goes ahead. *)
Lemma mos_LOAD_sum_wraps :
  0x040000 + load_size 0xFC0000 0 > @MOS_systemAddress agon_defines
  /\ (@mos_LOAD agon_defines huge_fatfs (lit "huge.bin") 0x040000 0 huge_world).1.1
     = FR_OK
  /\ (@mos_LOAD agon_defines huge_fatfs (lit "huge.bin") 0x040000 0 huge_world).2
     = [EvOpen (lit "huge.bin") FA_READ; EvRead 0x040000 0xFC0000; EvClose].
Proof. vm_compute. repeat split; reflexivity. Qed.

(** C2, as stated, fails: a request for 0x10000 bytes at 0x0B0000 lies in
    external RAM and reaches beyond the system address, but the file is not
    there and the result is the open's [FR_NO_FILE]. *)
Lemma mos_LOAD_missing_file :
  0x0B0000 <= MOS_externLastRAMaddress
  /\ 0x0B0000 + 0x10000 > MOS_systemAddress
  /\ (mos_LOAD (lit "prog.bin") 0x0B0000 0x10000 (toy_world [] [])).1.1
     = FR_NO_FILE
  /\ FR_NO_FILE <> MOS_OVERLAPPING_SYSTEM.
Proof. vm_compute. repeat split; discriminate. Qed.

Lemma mos_exec_null_descriptor_read_witness :
  exists ev,
    (mos_exec (Some O) true (toy_world (cline "foo bar") [])).2
    = EvDescFunc None :: ev
    /\ Forall (fun e => is_call e = false) ev
    /\ ((length (cstr (lit "foo" ++ NUL :: lit "bar" ++ [NUL]) 0) <= 246)%nat ->
        ev = (search_candidates
                (candidates (cstr (lit "foo" ++ NUL :: lit "bar" ++ [NUL]) 0) true)
                0
                (set_tok (toy_world (cline "foo bar") [])
                   (TokState (lit "foo" ++ NUL :: lit "bar" ++ [NUL]) 4))).2).
Proof.
  apply (mos_exec_null_descriptor_read (toy_world (cline "foo bar") []) O true
           (cline "foo bar") O O (lit "foo" ++ NUL :: lit "bar" ++ [NUL]) 4);
    reflexivity.
Defined.

Lemma mos_exec_search_witness :
  mos_exec (Some O) true (toy_world (cline "foo") disk_error_volume)
  = (let '(r, w', ev) :=
       search_candidates (candidates (cstr (cline "foo") 0) true) 0
         (set_tok (toy_world (cline "foo") disk_error_volume)
            (TokState (cline "foo") 3)) in
     (r, w', EvDescFunc None :: ev)).
Proof.
  apply (mos_exec_search (toy_world (cline "foo") disk_error_volume) O true
           (cline "foo") O O (cline "foo") 3).
  - reflexivity.
  - reflexivity.
  - reflexivity.
  - reflexivity.
  - vm_compute. lia.
Defined.

(** C3, as stated, fails: run from the shell, the load of /mos/foo.bin is
    refused with a disk error, and the search still goes on to foo.bin, which
    it loads and enters. *)
Lemma search_goes_on_after_disk_error :
  (mos_LOAD (lit "/mos/foo.bin") MOS_starLoadAddress 0
     (toy_world (cline "foo") disk_error_volume)).1.1 = FR_DISK_ERR
  /\ (mos_exec (Some O) true (toy_world (cline "foo") disk_error_volume)).1.1
     = 124
  /\ (mos_exec (Some O) true (toy_world (cline "foo") disk_error_volume)).2
     = [ EvDescFunc None;
         EvOpen (lit "/mos/foo.bin") FA_READ; EvClose;
         EvOpen (lit "foo.bin") FA_READ; EvRead 0x040000 77; EvClose;
         EvExec24 0x040000 3 ].
Proof. vm_compute. repeat split; reflexivity. Qed.

End ShellExamples.

(** ** C6: UNSET on the variable list *)

Section SysVarProps.
Context `{Matcher}.

Lemma lseg_app c p l1 l2 q :
  lseg c p (l1 ++ l2) q <-> exists m, lseg c p l1 m /\ lseg c m l2 q.
Proof.
  revert p. induction l1 as [|a l1 IH]; intros p; simpl.
  - split.
    + intros Hl. by exists p.
    + by intros (m & -> & Hl).
  - split.
    + intros (-> & n & Hn & Hl). apply IH in Hl as (m & H1 & H2).
      exists m. split; [|done]. split; [done|]. by exists n.
    + intros (m & (-> & n & Hn & H1) & H2). split; [done|].
      exists n. split; [done|]. apply IH. by exists m.
Qed.

Lemma lseg_frame c c' p l q :
  (forall a, a ∈ l -> c' !! a = c !! a) -> lseg c p l q -> lseg c' p l q.
Proof.
  revert p. induction l as [|a l IH]; intros p Hsame; simpl; [done|].
  intros (-> & n & Hn & Hl). split; [done|]. exists n. split.
  - rewrite Hsame; [done|]. by left.
  - apply IH; [|done]. intros b Hb. apply Hsame. by right.
Qed.

Lemma lseg_dom c p l q a : lseg c p l q -> a ∈ l -> is_Some (c !! a).
Proof.
  revert p. induction l as [|b l IH]; intros p Hl Ha.
  - by apply elem_of_nil in Ha.
  - destruct Hl as (-> & n & Hn & Hl).
    apply elem_of_cons in Ha as [->|Ha]; [by exists n|]. by eapply IH.
Qed.

Lemma lseg_length c p l q :
  lseg c p l q -> NoDup l -> (length l <= size c)%nat.
Proof.
  intros Hl Hnd.
  rewrite <- (size_list_to_set (C := gset Z) l Hnd), <- size_dom.
  apply subseteq_size. intros a Ha. apply elem_of_list_to_set in Ha.
  apply elem_of_dom. by eapply lseg_dom.
Qed.

Lemma split_first_match (f : Z -> bool) (l : list Z) :
  Forall (fun b => f b = false) l
  \/ exists r1 a r2,
       l = r1 ++ a :: r2 /\ Forall (fun b => f b = false) r1 /\ f a = true.
Proof.
  induction l as [|x l IH]; [by left|].
  destruct (f x) eqn:Hx.
  - right. exists [], x, l. by repeat split.
  - destruct IH as [Hall | (r1 & a & r2 & -> & Hr1 & Ha)].
    + left. by constructor.
    + right. exists (x :: r1), a, r2. repeat split; [|done]. by constructor.
Qed.

Lemma locate_from_found c pattern r1 a r2 q :
  forall p pred fuel,
    lseg c p (r1 ++ a :: r2) q ->
    Forall (fun b => var_matches pattern c b = false) r1 ->
    var_matches pattern c a = true ->
    (length r1 < fuel)%nat ->
    locate_from fuel c pattern p pred = (0, Some a).
Proof.
  induction r1 as [|b r1 IH]; intros p pred fuel Hl Hr1 Ha Hfuel.
  - destruct Hl as (-> & n & Hn & _). destruct fuel as [|fuel]; [simpl in *; lia|].
    simpl. rewrite Hn. unfold var_matches in Ha. rewrite Hn in Ha.
    by rewrite Ha.
  - destruct Hl as (-> & n & Hn & Hl). apply Forall_cons in Hr1 as [Hb Hr1].
    destruct fuel as [|fuel]; [simpl in *; lia|].
    simpl. rewrite Hn. unfold var_matches in Hb. rewrite Hn in Hb.
    rewrite Hb. apply IH; try done. simpl in Hfuel. lia.
Qed.

Lemma locate_from_none c pattern r :
  forall p pred fuel,
    lseg c p r None ->
    Forall (fun b => var_matches pattern c b = false) r ->
    (locate_from fuel c pattern p pred).1 = -1.
Proof.
  induction r as [|b r IH]; intros p pred fuel Hl Hr;
    (destruct fuel as [|fuel]; [done|]).
  - simpl in Hl. subst p. done.
  - destruct Hl as (-> & n & Hn & Hl). apply Forall_cons in Hr as [Hb Hr].
    simpl. rewrite Hn. unfold var_matches in Hb. rewrite Hn in Hb.
    rewrite Hb. by apply IH.
Qed.

Lemma find_parent_spec c a b pre :
  forall p fuel,
    lseg c p (pre ++ [b]) (Some a) ->
    a ∉ pre ++ [b] ->
    (length pre < fuel)%nat ->
    find_parent fuel c p a = Some b.
Proof.
  induction pre as [|x pre IH]; intros p fuel Hl Hnot Hfuel;
    (destruct fuel as [|fuel]; [simpl in *; lia|]).
  - destruct Hl as (-> & n & Hn & Hq). simpl in Hq.
    simpl. rewrite Hn. by rewrite decide_True.
  - destruct Hl as (-> & n & Hn & Hl). simpl. rewrite Hn.
    assert (Hne : next n <> Some a).
    { intros Heq. rewrite Heq in Hl.
      destruct (pre ++ [b]) as [|y tl] eqn:E.
      - by destruct pre.
      - destruct Hl as ([= <-] & _). apply Hnot. simpl. rewrite E.
        right. by left. }
    rewrite decide_False by done.
    apply IH; [done| |simpl in Hfuel; lia].
    intros Hin. apply Hnot. by right.
Qed.

(** Removing the entry [a] of the list [l1 ++ a :: l2]: the list becomes
    [l1 ++ l2], [a] is no entry any more and its node is released, and no
    other entry changes its label, type or value. *)
Lemma removeSystemVariable_spec sv l1 a l2 n :
  lseg (cells sv) (mosSystemVariables sv) (l1 ++ a :: l2) None ->
  NoDup (l1 ++ a :: l2) ->
  cells sv !! a = Some n ->
  let sv' := removeSystemVariable sv a in
  lseg (cells sv') (mosSystemVariables sv') (l1 ++ l2) None
  /\ cells sv' !! a = None
  /\ (forall b, b <> a -> strip <$> cells sv' !! b = strip <$> cells sv !! b)
  /\ a ∈ released sv'.
Proof.
  intros Hl Hnd Hn sv'.
  pose proof (lseg_length _ _ _ _ Hl Hnd) as Hlen.
  apply lseg_app in Hl as (m & Hl1 & Hl2).
  destruct Hl2 as (-> & n' & Hn' & Hl2).
  assert (n' = n) as -> by congruence.
  apply NoDup_app in Hnd as (Hnd1 & Hdisj & Hnd2).
  apply NoDup_cons in Hnd2 as [Ha2 Hnd2].
  assert (Ha1 : a ∉ l1).
  { intros Hin. apply (Hdisj a Hin). by left. }
  unfold sv', removeSystemVariable. rewrite Hn.
  destruct l1 as [|x l1' _] using rev_ind.
  - simpl in Hl1. rewrite Hl1. rewrite decide_True by done. simpl.
    split; [|split; [|split]].
    + eapply lseg_frame; [|exact Hl2]. intros b Hb.
      apply lookup_delete_ne. by intros ->.
    + apply lookup_delete_eq.
    + intros b Hb. by rewrite lookup_delete_ne.
    + set_solver.
  - assert (Hhead : mosSystemVariables sv <> Some a).
    { intros Heq. rewrite Heq in Hl1.
      destruct (l1' ++ [x]) as [|y tl] eqn:E.
      - by destruct l1'.
      - destruct Hl1 as ([= <-] & _). apply Ha1. by left. }
    rewrite decide_False by done.
    rewrite (find_parent_spec (cells sv) a x l1'); [|done|done|].
    2:{ rewrite !length_app in Hlen. simpl in Hlen. lia. }
    simpl.
    apply lseg_app in Hl1 as (mx & Hpre & Hx).
    destruct Hx as (-> & nx & Hnx & Hq). simpl in Hq.
    assert (Hx1 : x ∉ l1').
    { apply NoDup_app in Hnd1 as (_ & Hd & _). intros Hin.
      apply (Hd x Hin). by left. }
    assert (Hxa : x <> a).
    { intros ->. apply Ha1. apply elem_of_app. right. by left. }
    assert (Hx2 : x ∉ l2).
    { intros Hin. apply (Hdisj x).
      - apply elem_of_app. right. by left.
      - by right. }
    split; [|split; [|split]].
    + apply lseg_app. exists (next n). split.
      * apply lseg_app. exists (Some x). split.
        -- eapply lseg_frame; [|exact Hpre]. intros b Hb.
           rewrite lookup_delete_ne.
           ++ apply lookup_alter_ne. by intros ->.
           ++ intros ->. apply Ha1. apply elem_of_app. by left.
        -- simpl. split; [done|]. exists (set_next (next n) nx).
           split; [|done].
           rewrite lookup_delete_ne by done.
           by rewrite lookup_alter_eq, Hnx.
      * eapply lseg_frame; [|exact Hl2]. intros b Hb.
        rewrite lookup_delete_ne by (by intros ->).
        apply lookup_alter_ne. by intros ->.
    + apply lookup_delete_eq.
    + intros b Hb. rewrite lookup_delete_ne by done.
      destruct (decide (x = b)) as [<-|Hne].
      * rewrite lookup_alter_eq, Hnx. done.
      * by rewrite lookup_alter_ne.
    + set_solver.
Qed.

(** A list cut at its first element of one kind, in two ways. *)
Lemma split_same (q1 r1 : list Z) c a q2 r2 :
  q1 ++ c :: q2 = r1 ++ a :: r2 -> c ∉ r1 -> a ∉ q1 ->
  q1 = r1 /\ c = a /\ q2 = r2.
Proof.
  revert r1. induction q1 as [|y q1 IH]; intros [|x r1] Heq Hc Ha;
    simpl in Heq; injection Heq as Hhd Htl.
  - by subst.
  - subst. exfalso. apply Hc. by left.
  - subst. exfalso. apply Ha. by left.
  - subst. destruct (IH r1 Htl) as (-> & -> & ->).
    + intros Hin. apply Hc. by right.
    + intros Hin. apply Ha. by right.
    + done.
Qed.

Lemma split_after (q1 r1 : list Z) c a q2 r2 :
  q1 ++ c :: q2 = r1 ++ a :: r2 -> a ∉ q1 -> a <> c ->
  exists r1', r1 = q1 ++ c :: r1' /\ q2 = r1' ++ a :: r2.
Proof.
  revert r1. induction q1 as [|y q1 IH]; intros [|x r1] Heq Ha Hac;
    simpl in Heq; injection Heq as Hhd Htl.
  - by subst.
  - subst. by exists r1.
  - subst. exfalso. apply Ha. by left.
  - subst. destruct (IH r1 Htl) as (r1' & -> & ->); [|done|].
    + intros Hin. apply Ha. by right.
    + by exists r1'.
Qed.

Lemma getSystemVariable_resume sv pattern var :
  (forall v, var = Some v -> is_Some (cells sv !! v)) ->
  getSystemVariable sv pattern var
  = Located
      (locate_from (S (size (cells sv))) (cells sv) pattern (resume sv var) var).1
      (locate_from (S (size (cells sv))) (cells sv) pattern (resume sv var) var).2.
Proof.
  intros Hlive.
  assert (Hpair : forall x : Z * option Z,
             (let '(r, v) := x in Located r v) = Located x.1 x.2).
  { by intros [r v]. }
  unfold getSystemVariable, resume. destruct var as [v|].
  - destruct (Hlive v eq_refl) as [n Hn]. rewrite Hn. apply Hpair.
  - apply Hpair.
Qed.

(** The loop of [mos_cmdUNSET], entered with the cursor [var] behind the
    entries [kept] and in front of the entries [rest].  When every entry of
    [rest] is to stay, the loop removes nothing and returns.  Otherwise it
    removes the first entry [a] of [rest] that is not to stay, and the search
    that follows is handed [a]. *)
Lemma unset_loop_run token :
  forall m rest kept sv var fuel,
    (length rest <= m)%nat ->
    (forall v, var = Some v -> is_Some (cells sv !! v)) ->
    lseg (cells sv) (mosSystemVariables sv) kept (resume sv var) ->
    lseg (cells sv) (resume sv var) rest None ->
    NoDup (kept ++ rest) ->
    (length rest < fuel)%nat ->
    exists sr v,
      getSystemVariable sv token var = Located sr v
      /\ (Forall (fun b => unset_keeps token (cells sv) b = true) rest ->
          unset_loop fuel sv token sr v = Returns sv)
      /\ (forall r1 a r2,
            rest = r1 ++ a :: r2 ->
            Forall (fun b => unset_keeps token (cells sv) b = true) r1 ->
            unset_keeps token (cells sv) a = false ->
            unset_loop fuel sv token sr v
            = ReadsDestroyed a (removeSystemVariable sv a)).
Proof.
  induction m as [|m IH];
    intros rest kept sv var fuel Hm Hlive Hkept Hrest Hnd Hfuel.
  { destruct rest; [|simpl in Hm; lia]. simpl in Hrest.
    rewrite getSystemVariable_resume by done. rewrite Hrest. simpl.
    exists (-1), var. split; [reflexivity|]. split.
    - intros _. by destruct fuel.
    - intros r1 a r2 Heq. by destruct r1. }
  assert (Hall : lseg (cells sv) (mosSystemVariables sv) (kept ++ rest) None).
  { apply lseg_app. by exists (resume sv var). }
  pose proof (lseg_length _ _ _ _ Hall Hnd) as Hsize.
  rewrite getSystemVariable_resume by done.
  destruct (split_first_match (var_matches token (cells sv)) rest)
    as [Hno | (q1 & c & q2 & -> & Hq1 & Hc)].
  - (* nothing left to match *)
    pose proof (locate_from_none (cells sv) token rest (resume sv var) var
                  (S (size (cells sv))) Hrest Hno) as Hres.
    destruct (locate_from _ _ _ _ _) as [sr v]. simpl in Hres. subst sr.
    exists (-1), v. split; [done|]. split.
    + intros _. by destruct fuel.
    + intros r1 a r2 -> _ Ha. exfalso.
      rewrite Forall_forall in Hno.
      assert (Hm' : var_matches token (cells sv) a = false).
      { apply Hno. apply elem_of_app. right. by left. }
      unfold unset_keeps in Ha. rewrite Hm' in Ha.
      by rewrite orb_true_r in Ha.
  - (* the first match is [c] *)
    rewrite (locate_from_found (cells sv) token q1 c q2 None
               (resume sv var) var (S (size (cells sv))) Hrest Hq1 Hc).
    2:{ rewrite !length_app in Hsize. simpl in Hsize. lia. }
    exists 0, (Some c). split; [done|].
    apply lseg_app in Hrest as (mc & Hseg1 & Hseg2).
    destruct Hseg2 as (-> & n & Hn & Hseg2).
    rewrite length_app in Hm, Hfuel. simpl in Hm, Hfuel.
    destruct fuel as [|fuel]; [lia|].
    assert (Hq1k : forall b, b ∈ q1 -> var_matches token (cells sv) b = false).
    { by apply Forall_forall. }
    cbn [unset_loop Z.eqb]. rewrite Hn.
    destruct (decide (type n = MOS_VAR_CODE)) as [Hcode | Hcode].
    + (* an entry of kind Code stays, the scan goes on behind it *)
      assert (Hkc : unset_keeps token (cells sv) c = true).
      { unfold unset_keeps, var_is_code. rewrite Hn.
        by rewrite bool_decide_eq_true_2. }
      destruct (IH q2 (kept ++ q1 ++ [c]) sv (Some c) fuel)
        as (sr' & v' & Hget & Hret & Hbad).
      * lia.
      * intros v [= <-]. by exists n.
      * simpl. rewrite Hn. simpl. apply lseg_app. exists (resume sv var).
        split; [done|]. apply lseg_app. exists (Some c). split; [done|].
        simpl. split; [done|]. by exists n.
      * simpl. rewrite Hn. done.
      * rewrite <- !app_assoc. done.
      * lia.
      * rewrite Hget. split.
        -- intros Hk. apply Hret. apply Forall_app in Hk as [_ Hk].
           by apply Forall_cons in Hk as [_ Hk].
        -- intros r1 a r2 Heq Hr1 Ha.
           assert (Hma : var_matches token (cells sv) a = true).
           { unfold unset_keeps in Ha. apply orb_false_iff in Ha as [_ Ha].
             by apply negb_false_iff. }
           destruct (split_after q1 r1 c a q2 r2 Heq) as (r1' & -> & ->).
           { intros Hin. rewrite (Hq1k a Hin) in Hma. done. }
           { intros ->. congruence. }
           apply (Hbad r1' a r2); [done| |done].
           apply Forall_app in Hr1 as [_ Hr1].
           by apply Forall_cons in Hr1 as [_ Hr1].
    + (* any other kind is removed, and the search is handed the entry *)
      assert (Hkc : unset_keeps token (cells sv) c = false).
      { unfold unset_keeps, var_is_code. rewrite Hn, Hc.
        by rewrite bool_decide_eq_false_2. }
      split.
      * intros Hk. exfalso. rewrite Forall_forall in Hk.
        assert (Hk' : unset_keeps token (cells sv) c = true).
        { apply Hk. apply elem_of_app. right. by left. }
        congruence.
      * intros r1 a r2 Heq Hr1 Ha.
        assert (Hma : var_matches token (cells sv) a = true).
        { unfold unset_keeps in Ha. apply orb_false_iff in Ha as [_ Ha].
          by apply negb_false_iff. }
        destruct (split_same q1 r1 c a q2 r2 Heq) as (<- & <- & <-).
        { intros Hin. rewrite Forall_forall in Hr1.
          specialize (Hr1 c Hin). congruence. }
        { intros Hin. rewrite (Hq1k a Hin) in Hma. done. }
        assert (Hall' : lseg (cells sv) (mosSystemVariables sv)
                          ((kept ++ q1) ++ c :: q2) None).
        { by rewrite <- app_assoc. }
        assert (Hnd' : NoDup ((kept ++ q1) ++ c :: q2)).
        { by rewrite <- app_assoc. }
        destruct (removeSystemVariable_spec sv (kept ++ q1) c q2 n Hall' Hnd' Hn)
          as (_ & Hgone & _).
        unfold getSystemVariable. by rewrite Hgone.
Qed.

(** C6.  UNSET of a name or pattern on a well-formed variable list.  As long
    as nothing is to be removed (every match is of kind Code) the command
    returns [FR_OK] and the store is as it was.  Otherwise it removes the
    first matching entry that is not of kind Code, and the search it makes
    next is handed the pointer to that destroyed entry: what happens to the
    matching entries behind it is not defined.  At that point every entry of
    kind Code is still in the list and no other entry has changed. *)
Theorem mos_cmdUNSET_reads_destroyed_entry (fuel ptr : nat) st sv l t st1 :
  is_list sv l ->
  mos_parseString st None None = (1, Some t, st1) ->
  (length l < fuel)%nat ->
  let token := cstr (line st1) t in
  (Forall (fun b => unset_keeps token (cells sv) b = true) l ->
   mos_cmdUNSET fuel ptr st sv = Returns (FR_OK, st1, sv))
  /\ (forall r1 a r2,
        l = r1 ++ a :: r2 ->
        Forall (fun b => unset_keeps token (cells sv) b = true) r1 ->
        unset_keeps token (cells sv) a = false ->
        let sv' := removeSystemVariable sv a in
        mos_cmdUNSET fuel ptr st sv = ReadsDestroyed a sv'
        /\ is_list sv' (r1 ++ r2)
        /\ cells sv' !! a = None
        /\ a ∈ released sv'
        /\ (forall b, b ∈ l -> var_is_code (cells sv) b = true -> b ∈ r1 ++ r2)
        /\ (forall b, b <> a ->
                      strip <$> cells sv' !! b = strip <$> cells sv !! b)).
Proof.
  intros [Hl Hnd] Hparse Hfuel token.
  destruct (unset_loop_run token (length l) l [] sv None fuel)
    as (sr & v & Hget & Hret & Hbad); try done.
  unfold mos_cmdUNSET. rewrite Hparse. cbv beta iota zeta.
  change (1 =? 0) with false. cbv iota. fold token. rewrite Hget.
  split.
  - intros Hk. by rewrite (Hret Hk).
  - intros r1 a r2 Heq Hr1 Ha.
    rewrite (Hbad r1 a r2 Heq Hr1 Ha). split; [done|].
    subst l.
    assert (Hn : exists n, cells sv !! a = Some n).
    { apply (lseg_dom _ _ _ _ a Hl). apply elem_of_app. right. by left. }
    destruct Hn as [n Hn].
    destruct (removeSystemVariable_spec sv r1 a r2 n Hl Hnd Hn)
      as (Hl' & Hgone & Hstrip & Hrel).
    split.
    { split; [done|]. apply NoDup_app in Hnd as (Hn1 & Hd & Hn2).
      apply NoDup_cons in Hn2 as [_ Hn2].
      apply NoDup_app. repeat split; try done.
      intros b Hb1 Hb2. apply (Hd b Hb1). by right. }
    do 2 (split; [done|]). split; [|done].
    intros b Hb Hcode. apply elem_of_app in Hb as [Hb|Hb].
    + apply elem_of_app. by left.
    + apply elem_of_cons in Hb as [->|Hb].
      * unfold unset_keeps in Ha. rewrite Hcode in Ha. done.
      * apply elem_of_app. by right.
Qed.

End SysVarProps.

Section SysVarExamples.
#[local] Existing Instance spec_matcher.

Lemma mos_cmdUNSET_reads_destroyed_entry_witness :
  mos_cmdUNSET 4 6 (TokState ex_unset_line 6) ex_vars
  = ReadsDestroyed 100 (removeSystemVariable ex_vars 100)
  /\ is_list (removeSystemVariable ex_vars 100) ([] ++ [300; 200])
  /\ cells (removeSystemVariable ex_vars 100) !! 100 = None
  /\ 100 ∈ released (removeSystemVariable ex_vars 100)
  /\ (forall b, b ∈ [100; 300; 200] ->
        var_is_code (cells ex_vars) b = true -> b ∈ [] ++ [300; 200])
  /\ (forall b, b <> 100 ->
        strip <$> cells (removeSystemVariable ex_vars 100) !! b
        = strip <$> cells ex_vars !! b).
Proof.
  apply (proj2 (mos_cmdUNSET_reads_destroyed_entry 4 6 (TokState ex_unset_line 6)
                  ex_vars [100; 300; 200] 6 (TokState ex_unset_line 7)
                  ltac:(split;
                          [simpl; split; [reflexivity|]; eexists;
                           split; [reflexivity|]; simpl; split; [reflexivity|];
                           eexists; split; [reflexivity|]; simpl;
                           split; [reflexivity|]; eexists; split; reflexivity
                          |apply (bool_decide_unpack (NoDup [100; 300; 200]));
                           vm_compute; exact I])
                  eq_refl ltac:(simpl; lia))
           [] 100 [300; 200]).
  - reflexivity.
  - constructor.
  - reflexivity.
Defined.

(** [unset *] on [ex_vars]: Alpha is removed and the next search is handed
    its pointer, with Beta, which matches as well, still first in the list. *)
Example unset_star_ex_vars :
  (fun r => match r with
            | ReadsDestroyed v sv =>
                Some (v, mosSystemVariables sv, released sv,
                      var_matches (lit "*") (cells sv) 300,
                      var_is_code (cells sv) 300)
            | _ => None
            end) (mos_cmdUNSET 4 6 (TokState ex_unset_line 6) ex_vars)
  = Some (100, Some 300, {[100]} ∪ {[500]}, true, false).
Proof. vm_compute. reflexivity. Qed.

End SysVarExamples.

(** * Further properties of mos.c *)

(** ** The tokenizer on any buffer *)

Lemma span_Forall P (l : list ascii) :
  Forall (fun c => P c = true) (take (span P l) l).
Proof.
  induction l as [|c l IH]; simpl; [constructor|].
  destruct (P c) eqn:E; simpl; [by constructor|constructor].
Qed.

Lemma take_drop_wr_end (buf : list ascii) t n c :
  take n (drop t (wr buf (t + n) c)) = take n (drop t buf).
Proof.
  unfold wr. rewrite drop_insert_ge by lia. apply take_insert_ge. lia.
Qed.

Lemma cstr_cut buf t n :
  (forall i, (i < n)%nat -> rd buf (t + i) <> NUL) ->
  cstr (wr buf (t + n) NUL) t = take n (drop t buf).
Proof.
  intros Hn. unfold cstr.
  assert (Hlen : strlen (wr buf (t + n) NUL) t = n).
  { apply strlen_unique.
    - intros i Hi. rewrite rd_wr_ne by lia. by apply Hn.
    - apply rd_wr_nul. }
  rewrite Hlen. apply take_drop_wr_end.
Qed.

Lemma strcspn_not_nul buf t d i :
  (i < strcspn buf t d)%nat -> rd buf (t + i) <> NUL.
Proof.
  intros Hi. apply (span_at_lt (is_tokch d)) in Hi.
  apply is_nul_false. by apply (is_tokch_not_nul d).
Qed.

(** X1.  Whenever [mos_strtok_r] returns a token, it starts at or after the
    place the scan started, it is not empty, it holds no delimiter, and it is
    the piece of the old buffer up to the first delimiter; the buffer keeps
    its length, and everything from the new cursor on is as it was, so the
    rest of the line goes on unsplit. *)
Theorem mos_strtok_r_token_sound buf s1 d save t buf' c :
  mos_strtok_r buf s1 d save = (Some t, buf', c) ->
  let s := match s1 with None => save | Some p => p end in
  (s <= t)%nat
  /\ cstr buf' t <> []
  /\ Forall (fun x => is_tokch d x = true) (cstr buf' t)
  /\ cstr buf' t = take (strcspn buf t d) (drop t buf)
  /\ (t + length (cstr buf' t) <= c <= S (t + length (cstr buf' t)))%nat
  /\ drop c buf' = drop c buf
  /\ length buf' = length buf.
Proof.
  intros Hr s. revert Hr. unfold mos_strtok_r. fold s.
  destruct (is_nul (rd buf s)) eqn:H0; [done|].
  set (t0 := (s + strspn buf s d)%nat).
  destruct (is_nul (rd buf t0)) eqn:H1; [done|].
  set (n := strcspn buf t0 d).
  assert (Hpos : (0 < n)%nat).
  { destruct n eqn:E; [|lia]. exfalso.
    assert (Hd : is_delim d (rd buf t0) = false).
    { unfold t0. apply (span_at_stop (is_delim d)). done. }
    assert (Ht : is_tokch d (rd buf t0) = false).
    { pose proof (span_at_stop (is_tokch d) buf t0 eq_refl) as Hst.
      fold (strcspn buf t0 d) in Hst. fold n in Hst.
      by rewrite E, Nat.add_0_r in Hst. }
    unfold is_delim, is_tokch in *. rewrite H1 in *. simpl in *.
    destruct (in_set d (rd buf t0)); done. }
  assert (Htok : Forall (fun x => is_tokch d x = true) (take n (drop t0 buf))).
  { apply span_Forall. }
  assert (Hlenbuf : (t0 + n <= length buf)%nat).
  { destruct (decide (t0 + n <= length buf)%nat) as [|Hgt]; [done|].
    exfalso. apply (strcspn_not_nul buf t0 d (n - 1)); [fold n; lia|].
    unfold rd. rewrite lookup_ge_None_2; [done|]. lia. }
  assert (Hlen : length (take n (drop t0 buf)) = n).
  { rewrite length_take, length_drop. lia. }
  assert (Hne : take n (drop t0 buf) <> []).
  { intros Heq. rewrite Heq in Hlen. simpl in Hlen. lia. }
  destruct (is_nul (rd buf (t0 + n))) eqn:H2; intros [= <- <- <-].
  - assert (Hc : cstr buf t0 = take n (drop t0 buf)).
    { unfold cstr. f_equal. apply strlen_unique.
      - intros i Hi. by apply (strcspn_not_nul buf t0 d).
      - by apply is_nul_true. }
    rewrite Hc, Hlen. repeat split; try done; unfold t0; lia.
  - assert (Hc : cstr (wr buf (t0 + n) NUL) t0 = take n (drop t0 buf)).
    { apply cstr_cut. intros i Hi. by apply (strcspn_not_nul buf t0 d). }
    rewrite Hc, Hlen. repeat split; try done; try (unfold t0; lia).
    + unfold wr. apply drop_insert_lt. lia.
    + unfold wr. apply length_insert.
Qed.

Lemma mos_strtok_r_token_sound_witness :
  (4 <= 6)%nat
  /\ cstr (lit "load  &40000" ++ NUL :: lit "x" ++ [NUL]) 6 <> []
  /\ Forall (fun x => is_tokch (lit " ") x = true)
       (cstr (lit "load  &40000" ++ NUL :: lit "x" ++ [NUL]) 6)
  /\ cstr (lit "load  &40000" ++ NUL :: lit "x" ++ [NUL]) 6
     = take (strcspn (cline "load  &40000 x") 6 (lit " "))
         (drop 6 (cline "load  &40000 x"))
  /\ (6 + length (cstr (lit "load  &40000" ++ NUL :: lit "x" ++ [NUL]) 6) <= 13
      <= S (6 + length (cstr (lit "load  &40000" ++ NUL :: lit "x" ++ [NUL]) 6)))%nat
  /\ drop 13 (lit "load  &40000" ++ NUL :: lit "x" ++ [NUL])
     = drop 13 (cline "load  &40000 x")
  /\ length (lit "load  &40000" ++ NUL :: lit "x" ++ [NUL])
     = length (cline "load  &40000 x").
Proof.
  apply (mos_strtok_r_token_sound (cline "load  &40000 x") None (lit " ") 4 6
           (lit "load  &40000" ++ NUL :: lit "x" ++ [NUL]) 13).
  reflexivity.
Defined.

(** ** mos_trim on any buffer *)

Lemma span_le P (l : list ascii) : (span P l <= length l)%nat.
Proof.
  induction l as [|c l IH]; simpl; [lia|]. destruct (P c); simpl; lia.
Qed.

Lemma length_cstr buf p : length (cstr buf p) = strlen buf p.
Proof.
  unfold cstr. rewrite length_take. unfold strlen.
  pose proof (span_le (fun c => negb (is_nul c)) (drop p buf)). lia.
Qed.

Lemma lookup_cstr buf p i x :
  cstr buf p !! i = Some x -> (i < strlen buf p)%nat /\ rd buf (p + i) = x.
Proof.
  unfold cstr. intros Hl. apply lookup_take_Some in Hl as [Hl Hi].
  split; [done|]. unfold rd. rewrite lookup_drop in Hl. by rewrite Hl.
Qed.

Lemma trim_back_spaces buf s q i :
  (trim_back buf s q < i <= q)%nat -> isspace (rd buf i) = true.
Proof.
  induction q as [|q IH]; simpl; [lia|].
  destruct (s <? S q)%nat eqn:E; simpl; [|lia].
  destruct (isspace (rd buf (S q))) eqn:Es; [|lia].
  intros Hi. destruct (decide (i = S q)) as [->|Hne]; [done|].
  apply IH. lia.
Qed.

Lemma Forall_take_drop (P : ascii -> Prop) buf s n :
  (forall i, (i < n)%nat -> P (rd buf (s + i))) ->
  Forall P (take n (drop s buf)).
Proof.
  intros HP. apply Forall_lookup. intros i x Hl.
  apply lookup_take_Some in Hl as [Hl Hi]. rewrite lookup_drop in Hl.
  specialize (HP i Hi). unfold rd in HP. by rewrite Hl in HP.
Qed.

(** X2.  What [mos_trim] returns for a non-null pointer: the old string is a
    run of white space and asterisks, then the new string, then a run of
    white space; the new string starts with neither and does not end in
    white space; the pointer has moved over the leading run and the buffer
    has kept its length. *)
Theorem mos_trim_spec buf s buf' p :
  mos_trim buf (Some s) = (buf', Some p) ->
  exists lead trail,
    cstr buf s = lead ++ cstr buf' p ++ trail
    /\ p = (s + length lead)%nat
    /\ Forall (fun x => (isspace x || is_star x)%bool = true) lead
    /\ Forall (fun x => isspace x = true) trail
    /\ (isspace (rd buf' p) || is_star (rd buf' p))%bool = false
    /\ (forall x, last (cstr buf' p) = Some x -> isspace x = false)
    /\ length buf' = length buf.
Proof.
  unfold mos_trim. destruct (is_nul (rd buf s)) eqn:Hs.
  { intros [= <- <-]. apply is_nul_true in Hs. exists [], [].
    assert (Hc : cstr buf s = []).
    { apply length_zero_iff_nil. rewrite length_cstr.
      apply strlen_unique; [lia|]. by rewrite Nat.add_0_r. }
    rewrite Hc, Hs. simpl. repeat split; try done; lia. }
  set (skip := fun c => (isspace c || is_star c)%bool).
  set (k := span skip (drop s buf)).
  set (s' := (s + k)%nat).
  set (n := strlen buf s').
  set (q := trim_back buf s' (s' + n - 1)).
  intros [= <- <-].
  assert (Hstop : skip (rd buf s') = false) by (by apply span_at_stop).
  assert (Hlead : Forall (fun x => skip x = true) (take k (drop s buf)))
    by apply span_Forall.
  assert (Hklen : length (take k (drop s buf)) = k).
  { rewrite length_take. pose proof (span_le skip (drop s buf)) as Hle.
    fold k in Hle. lia. }
  assert (Hall : strlen buf s = (k + n)%nat).
  { apply strlen_unique.
    - intros i Hi. destruct (decide (i < k)%nat) as [Hlt|Hge].
      + apply skip_not_nul. by apply (span_at_lt skip buf s).
      + replace (s + i)%nat with (s' + (i - k))%nat by (unfold s'; lia).
        apply strlen_lt. fold n. lia.
    - replace (s + (k + n))%nat with (s' + n)%nat by (unfold s'; lia).
      apply strlen_stop. }
  assert (Hsplit : cstr buf s = take k (drop s buf) ++ take n (drop s' buf)).
  { unfold cstr. rewrite Hall, <- take_take_drop, drop_drop. done. }
  exists (take k (drop s buf)).
  destruct (decide (n = O)) as [Hn|Hn].
  - assert (Hnul : rd buf s' = NUL).
    { pose proof (strlen_stop buf s') as Hst. fold n in Hst.
      by rewrite Hn, Nat.add_0_r in Hst. }
    assert (Hs' : (s < s')%nat).
    { destruct (decide (s = s')) as [Heq|]; [|unfold s' in *; lia].
      apply is_nul_false in Hs. rewrite Heq in Hs. done. }
    assert (Hq : q = (s' - 1)%nat).
    { unfold q. rewrite Hn, Nat.add_0_r. apply trim_back_fix. lia. }
    rewrite Hq. replace (s' - 1 + 1)%nat with s' by lia.
    rewrite (wr_id _ _ Hnul).
    assert (Hc : cstr buf s' = []).
    { apply length_zero_iff_nil. rewrite length_cstr. by fold n. }
    exists []. rewrite Hc, Hsplit, Hn, take_0, Hklen. simpl.
    repeat split; try done.
  - assert (Hqs : (s' <= q)%nat) by (apply trim_back_ge; lia).
    assert (Hqe : (q <= s' + n - 1)%nat) by apply trim_back_le.
    set (m := (q + 1 - s')%nat).
    replace (q + 1)%nat with (s' + m)%nat by (unfold m; lia).
    assert (Hc : cstr (wr buf (s' + m) NUL) s' = take m (drop s' buf)).
    { apply cstr_cut. intros i Hi. apply strlen_lt. fold n. unfold m in Hi. lia. }
    exists (take (n - m) (drop (s' + m) buf)).
    rewrite Hc, Hklen.
    assert (Hfirst : rd (wr buf (s' + m) NUL) s' = rd buf s').
    { apply rd_wr_ne. unfold m. lia. }
    rewrite Hfirst.
    repeat split; try done.
    + rewrite Hsplit. f_equal.
      replace n with (m + (n - m))%nat at 1 by (unfold m; lia).
      by rewrite <- take_take_drop, drop_drop.
    + apply Forall_take_drop. intros i Hi.
      apply (trim_back_spaces buf s' (s' + n - 1)). fold q. unfold m in *. lia.
    + intros x Hlast. rewrite last_lookup in Hlast.
      assert (Hlm : length (take m (drop s' buf)) = m).
      { rewrite <- Hc, length_cstr. apply strlen_unique.
        - intros i Hi. rewrite rd_wr_ne by lia. apply strlen_lt. fold n.
          unfold m in Hi. lia.
        - apply rd_wr_nul. }
      rewrite Hlm in Hlast. apply lookup_take_Some in Hlast as [Hl _].
      rewrite lookup_drop in Hl.
      replace (s' + Nat.pred m)%nat with q in Hl by (unfold m; lia).
      assert (Hx : rd buf q = x) by (unfold rd; by rewrite Hl).
      rewrite <- Hx. destruct (decide (s' < q)%nat) as [Hlt|Hge].
      * by apply trim_back_nonspace.
      * assert (q = s') as -> by lia. unfold skip in Hstop.
        by apply orb_false_elim in Hstop as [? _].
    + unfold wr. apply length_insert.
Qed.

Lemma mos_trim_spec_witness :
  exists lead trail,
    cstr (cline " *dir a  ") 0 = lead ++ cstr (lit " *dir a" ++ [NUL; " "%char; NUL]) 2 ++ trail
    /\ 2%nat = (0 + length lead)%nat
    /\ Forall (fun x => (isspace x || is_star x)%bool = true) lead
    /\ Forall (fun x => isspace x = true) trail
    /\ (isspace (rd (lit " *dir a" ++ [NUL; " "%char; NUL]) 2)
        || is_star (rd (lit " *dir a" ++ [NUL; " "%char; NUL]) 2))%bool = false
    /\ (forall x, last (cstr (lit " *dir a" ++ [NUL; " "%char; NUL]) 2) = Some x ->
                  isspace x = false)
    /\ length (lit " *dir a" ++ [NUL; " "%char; NUL]) = length (cline " *dir a  ").
Proof.
  apply (mos_trim_spec (cline " *dir a  ") 0
           (lit " *dir a" ++ [NUL; " "%char; NUL]) 2).
  reflexivity.
Defined.

(** ** Tokens of one line do not disturb each other *)

Lemma take_drop_wr_ge (buf : list ascii) t n e c :
  (t + n <= e)%nat -> take n (drop t (wr buf e c)) = take n (drop t buf).
Proof.
  intros He. unfold wr. rewrite drop_insert_ge by lia. apply take_insert_ge. lia.
Qed.

(** A terminator stored behind the end of a string leaves the string alone. *)
Lemma cstr_wr_after buf t e :
  (t + strlen buf t < e)%nat -> cstr (wr buf e NUL) t = cstr buf t.
Proof.
  intros He. unfold cstr.
  assert (Hlen : strlen (wr buf e NUL) t = strlen buf t).
  { apply strlen_unique.
    - intros i Hi. rewrite rd_wr_ne by lia. by apply strlen_lt.
    - rewrite rd_wr_ne by lia. apply strlen_stop. }
  rewrite Hlen. apply take_drop_wr_ge. lia.
Qed.

(** After a call that returned the token [t], the string at [t] ends before
    the cursor, or on it when the token ran up to the end of the line. *)
Lemma mos_strtok_r_cursor buf s1 d save t buf1 c1 :
  mos_strtok_r buf s1 d save = (Some t, buf1, c1) ->
  (c1 = S (t + strlen buf1 t)
   \/ (c1 = t + strlen buf1 t /\ rd buf1 c1 = NUL))%nat.
Proof.
  unfold mos_strtok_r.
  set (s := match s1 with None => save | Some p => p end).
  destruct (is_nul (rd buf s)); [done|].
  set (t0 := (s + strspn buf s d)%nat).
  destruct (is_nul (rd buf t0)); [done|].
  set (n := strcspn buf t0 d).
  destruct (is_nul (rd buf (t0 + n))) eqn:H2; intros [= <- <- <-].
  - apply is_nul_true in H2.
    assert (Hlen : strlen buf t0 = n).
    { apply strlen_unique; [|done].
      intros i Hi. by apply (strcspn_not_nul buf t0 d). }
    right. by rewrite Hlen.
  - assert (Hlen : strlen (wr buf (t0 + n) NUL) t0 = n).
    { apply strlen_unique.
      - intros i Hi. rewrite rd_wr_ne by lia.
        by apply (strcspn_not_nul buf t0 d).
      - apply rd_wr_nul. }
    left. by rewrite Hlen.
Qed.

(** The next call of the tokenizer leaves the string of the last token as
    it is. *)
Lemma mos_strtok_r_next buf1 t c1 d2 t2 buf2 c2 :
  (c1 = S (t + strlen buf1 t)
   \/ (c1 = t + strlen buf1 t /\ rd buf1 c1 = NUL))%nat ->
  mos_strtok_r buf1 None d2 c1 = (t2, buf2, c2) ->
  cstr buf2 t = cstr buf1 t
  /\ (c1 <= c2)%nat
  /\ forall u, t2 = Some u -> (t + strlen buf1 t < u)%nat.
Proof.
  intros Hc1. unfold mos_strtok_r.
  destruct (is_nul (rd buf1 c1)) eqn:H0.
  { intros [= <- <- <-]. by repeat split. }
  destruct Hc1 as [Hc1|[_ Hnul]];
    [|apply is_nul_false in H0; by rewrite Hnul in H0].
  set (t0 := (c1 + strspn buf1 c1 d2)%nat).
  destruct (is_nul (rd buf1 t0)).
  { intros [= <- <- <-]. repeat split; [unfold t0; lia|done]. }
  set (n := strcspn buf1 t0 d2).
  destruct (is_nul (rd buf1 (t0 + n))); intros [= <- <- <-].
  - repeat split; [unfold t0; lia|]. intros u [= <-]. unfold t0. lia.
  - split; [apply cstr_wr_after; unfold t0; lia|].
    split; [unfold t0; lia|]. intros u [= <-]. unfold t0. lia.
Qed.

(** X13.  A token stays intact while the line is tokenized further: after
    [mos_strtok_r] has returned a token, the next call on the same line
    leaves the string of that token unchanged, does not move the cursor
    back, and returns, if anything, a token that starts behind the
    terminator of the first. *)
Theorem mos_strtok_r_keeps_token buf s1 d save t buf1 c1 d2 t2 buf2 c2 :
  mos_strtok_r buf s1 d save = (Some t, buf1, c1) ->
  mos_strtok_r buf1 None d2 c1 = (t2, buf2, c2) ->
  cstr buf2 t = cstr buf1 t
  /\ (c1 <= c2)%nat
  /\ forall u, t2 = Some u -> (t + length (cstr buf1 t) < u)%nat.
Proof.
  intros H1 H2. rewrite length_cstr.
  apply (mos_strtok_r_next buf1 t c1 d2 t2 buf2 c2); [|done].
  by apply (mos_strtok_r_cursor buf s1 d save).
Qed.

Lemma mos_strtok_r_keeps_token_witness :
  cstr (lit "foo.bin" ++ NUL :: lit " &40000" ++ NUL :: lit "x" ++ [NUL]) 0
  = cstr (lit "foo.bin" ++ NUL :: lit " &40000 x" ++ [NUL]) 0
  /\ (8 <= 16)%nat
  /\ forall u, Some 9%nat = Some u ->
       (0 + length (cstr (lit "foo.bin" ++ NUL :: lit " &40000 x" ++ [NUL]) 0)
        < u)%nat.
Proof.
  apply (mos_strtok_r_keeps_token (cline "foo.bin  &40000 x") None (lit " ") O
           O (lit "foo.bin" ++ NUL :: lit " &40000 x" ++ [NUL]) 8 (lit " "));
    reflexivity.
Defined.

(** ** mos_parseNumber on well-formed numbers *)

Lemma is_digit_char base c :
  is_digit base c = true ->
  base <= 16 ->
  isspace c = false /\ is_nul c = false
  /\ Ascii.eqb c "-"%char = false /\ Ascii.eqb c "+"%char = false
  /\ Ascii.eqb c "&"%char = false /\ Ascii.eqb c " "%char = false
  /\ Ascii.eqb c "x"%char = false /\ Ascii.eqb c "X"%char = false.
Proof.
  intros Hd Hb. unfold is_digit in Hd.
  destruct (digit_val c) as [d|] eqn:Hv; [|discriminate].
  apply Z.ltb_lt in Hd.
  destruct c as [[] [] [] [] [] [] [] []]; vm_compute in Hv;
    try discriminate; injection Hv as <-;
    try (repeat split; reflexivity); lia.
Qed.

Lemma is_digit_tokch base c :
  is_digit base c = true -> base <= 16 -> is_tokch (lit " ") c = true.
Proof.
  intros Hd Hb. destruct (is_digit_char base c Hd Hb) as (_ & Hn & _ & _ & _ & Hs & _).
  unfold is_tokch, in_set. simpl. by rewrite Hn, Hs.
Qed.

Lemma rd_after_token (A tk rest : list ascii) :
  rd (A ++ tk ++ NUL :: rest) (length A + length tk) = NUL.
Proof.
  rewrite app_assoc, <- length_app.
  replace (length (A ++ tk)) with (length (A ++ tk) + 0)%nat by lia.
  by rewrite rd_app_r.
Qed.

(** [strtol] on a run of digits that ends the string. *)
Lemma strtol_digits (A ds rest : list ascii) base :
  base = 10 \/ base = 16 ->
  ds <> [] ->
  Forall (fun c => is_digit base c = true) ds ->
  strtol (A ++ ds ++ NUL :: rest) (length A) base
  = (Z.max LONG_MIN (Z.min LONG_MAX (digits_value base ds)),
     (length A + length ds)%nat).
Proof.
  intros Hbase Hne Hds. destruct ds as [|d1 ds]; [done|].
  apply Forall_cons in Hds as [Hd1 Hds'].
  assert (Hb : base <= 16) by lia.
  destruct (is_digit_char base d1 Hd1 Hb)
    as (Hsp & Hnul & Hminus & Hplus & _ & _ & _ & _).
  unfold strtol. set (buf := A ++ (d1 :: ds) ++ NUL :: rest).
  assert (Hdrop : drop (length A) buf = (d1 :: ds) ++ NUL :: rest).
  { unfold buf. apply drop_app_length. }
  assert (Hsp0 : span isspace (drop (length A) buf) = 0%nat).
  { rewrite Hdrop. simpl. by rewrite Hsp. }
  rewrite Hsp0, Nat.add_0_r.
  assert (Hrd0 : rd buf (length A) = d1).
  { replace (length A) with (length A + 0)%nat by lia. unfold buf.
    by rewrite rd_app_r. }
  rewrite Hrd0, Hminus, Hplus. simpl orb. cbv iota.
  assert (H0x : ((base =? 16) && Ascii.eqb d1 "0"%char
                 && (Ascii.eqb (rd buf (S (length A))) "x"%char
                     || Ascii.eqb (rd buf (S (length A))) "X"%char)
                 && is_digit base (rd buf (S (S (length A)))))%bool = false).
  { assert (Hx : (Ascii.eqb (rd buf (S (length A))) "x"%char
                  || Ascii.eqb (rd buf (S (length A))) "X"%char)%bool = false).
    { replace (S (length A)) with (length A + 1)%nat by lia. unfold buf.
      rewrite rd_app_r. destruct ds as [|d2 ds]; [reflexivity|].
      apply Forall_cons in Hds' as [Hd2 _].
      destruct (is_digit_char base d2 Hd2 Hb) as (_ & _ & _ & _ & _ & _ & Hx1 & Hx2).
      unfold rd. simpl. by rewrite Hx1, Hx2. }
    rewrite Hx. by rewrite andb_false_r. }
  rewrite ?Hrd0, H0x. rewrite Hdrop.
  assert (Hspan : span (is_digit base) ((d1 :: ds) ++ NUL :: rest) = length (d1 :: ds)).
  { apply span_app_stop; [by constructor|]. reflexivity. }
  rewrite Hspan. simpl length. cbv iota.
  rewrite (take_app_length' (d1 :: ds)) by done.
  reflexivity.
Qed.

(** X3.  A decimal number, or [&] and a hexadecimal one, that is the next
    token of the line (after any spaces, and followed by a space or the end
    of the line) is parsed whole: [mos_parseNumber] returns 1, the value is
    the number, saturated to a [long] and cut to 24 bits, and the cursor is
    left behind the token. *)
Theorem mos_parseNumber_value pre sp ds e rest pv :
  Forall (fun x => x = " "%char) sp ->
  ds <> [] ->
  e = NUL \/ e = " "%char ->
  let after tk :=
    TokState (pre ++ sp ++ tk ++ NUL :: rest)
      (length pre + length sp + length tk + (if is_nul e then 0 else 1))%nat in
  (Forall (fun c => is_digit 10 c = true) ds ->
   mos_parseNumber (TokState (pre ++ sp ++ ds ++ e :: rest) (length pre)) None pv
   = (1, u24 (Z.max LONG_MIN (Z.min LONG_MAX (digits_value 10 ds))), after ds))
  /\ (Forall (fun c => is_digit 16 c = true) ds ->
      mos_parseNumber
        (TokState (pre ++ sp ++ ("&"%char :: ds) ++ e :: rest) (length pre)) None pv
      = (1, u24 (Z.max LONG_MIN (Z.min LONG_MAX (digits_value 16 ds))),
         after ("&"%char :: ds))).
Proof.
  intros Hsp Hne He after.
  assert (Hdel : Forall (fun x => is_delim (lit " ") x = true) sp).
  { eapply Forall_impl; [exact Hsp|]. by intros x ->. }
  assert (Htok : forall tk,
             tk <> [] ->
             Forall (fun x => is_tokch (lit " ") x = true) tk ->
             mos_strtok (TokState (pre ++ sp ++ tk ++ e :: rest) (length pre))
               None (lit " ")
             = (Some (length pre + length sp)%nat, after tk)).
  { intros tk Htk Hch. unfold mos_strtok, after. simpl line. simpl mos_strtok_ptr.
    destruct He as [-> | ->].
    - rewrite (mos_strtok_r_last pre sp tk rest (lit " ") None (length pre));
        try done. simpl. by rewrite Nat.add_0_r.
    - rewrite (mos_strtok_r_token pre sp tk " "%char rest (lit " ") None (length pre));
        try done. simpl. do 2 f_equal. lia. }
  split.
  - intros Hds. unfold mos_parseNumber.
    rewrite (Htok ds Hne).
    2:{ eapply Forall_impl; [exact Hds|]. intros c Hc. simpl.
        apply (is_digit_tokch 10); [done|lia]. }
    unfold after. simpl line.
    destruct ds as [|d1 ds']; [done|].
    pose proof Hds as Hds2. apply Forall_cons in Hds2 as [Hd1 _].
    destruct (is_digit_char 10 d1 Hd1 ltac:(lia)) as (_ & _ & _ & _ & Hamp & _).
    assert (Hrd : rd (pre ++ sp ++ (d1 :: ds') ++ NUL :: rest)
                    (length pre + length sp) = d1).
    { rewrite app_assoc, <- length_app.
      replace (length (pre ++ sp)) with (length (pre ++ sp) + 0)%nat by lia.
      by rewrite rd_app_r. }
    rewrite Hrd, Hamp.
    rewrite (app_assoc pre sp), <- (length_app pre sp).
    rewrite (strtol_digits (pre ++ sp) (d1 :: ds') rest 10); [|by left|done|done].
    rewrite rd_after_token. reflexivity.
  - intros Hds. unfold mos_parseNumber.
    rewrite (Htok ("&"%char :: ds)); [|done|].
    2:{ constructor; [reflexivity|].
        eapply Forall_impl; [exact Hds|]. intros c Hc. simpl.
        apply (is_digit_tokch 16); [done|lia]. }
    unfold after. cbn [line].
    assert (Hrd : rd (pre ++ sp ++ ("&"%char :: ds) ++ NUL :: rest)
                    (length pre + length sp) = "&"%char).
    { rewrite app_assoc, <- length_app.
      replace (length (pre ++ sp)) with (length (pre ++ sp) + 0)%nat by lia.
      by rewrite rd_app_r. }
    rewrite Hrd. simpl Ascii.eqb. cbv iota.
    assert (Hbuf : pre ++ sp ++ ("&"%char :: ds) ++ NUL :: rest
                   = ((pre ++ sp) ++ ["&"%char]) ++ ds ++ NUL :: rest).
    { rewrite <- !app_assoc. reflexivity. }
    assert (Hlen : S (length pre + length sp) = length ((pre ++ sp) ++ ["&"%char])).
    { rewrite !length_app. simpl. lia. }
    rewrite Hbuf, Hlen.
    rewrite (strtol_digits ((pre ++ sp) ++ ["&"%char]) ds rest 16);
      [|by right|done|done].
    rewrite rd_after_token. simpl. do 2 f_equal.
Qed.

Lemma mos_parseNumber_value_witness :
  mos_parseNumber (TokState (lit "load" ++ lit "  " ++ (lit "&40000") ++ " "%char :: lit "x" ++ [NUL]) 4)
    None 7
  = (1, u24 (Z.max LONG_MIN (Z.min LONG_MAX (digits_value 16 (lit "40000")))),
     TokState (lit "load" ++ lit "  " ++ (lit "&40000") ++ NUL :: lit "x" ++ [NUL])
       (length (lit "load") + length (lit "  ") + length (lit "&40000")
        + (if is_nul " "%char then 0 else 1))%nat).
Proof.
  apply (proj2 (mos_parseNumber_value (lit "load") (lit "  ") (lit "40000")
                  " "%char (lit "x" ++ [NUL]) 7
                  ltac:(by repeat constructor) ltac:(discriminate)
                  ltac:(by right))).
  by repeat constructor.
Defined.

(** ** The shell: built-in commands, path lengths, OSCLI *)

Section ShellMoreProps.
Context `{Matcher} `{Defines} `{FatFs} `{!Machine}.

(** [mos_exec], with the search written as [search_candidates]. *)
Lemma mos_exec_unfold (buffer : option nat) (in_mos : bool) (w : world) :
  mos_exec buffer in_mos w
  = (let '(b, p) := mos_trim (line (tok w)) buffer in
     let w1 := set_tok w (TokState b (mos_strtok_ptr (tok w))) in
     match p with
     | None => (0, w1, [])
     | Some p =>
         if blank_or_comment b p then (FR_OK, w1, [])
         else
           let '(t, b2, save) :=
             mos_strtok_r b (Some p) (lit " ") (mos_strtok_ptr (tok w)) in
           let w2 := set_tok w (TokState b2 save) in
           let name := match t with Some t => cstr b2 t | None => [] end in
           let cmd := mos_getCommand name in
           let fn := match cmd with
                     | Some i => mosCommands !! i ≫= func
                     | None => null_func
                     end in
           match cmd, fn with
           | Some _, Some f =>
               ((call f save w2).1, (call f save w2).2,
                [EvDescFunc cmd; EvCall f save])
           | _, _ =>
               if (246 <? length name)%nat
               then (MOS_INVALID_COMMAND, w2, [EvDescFunc cmd])
               else
                 let '(r, w', ev) :=
                   search_candidates (candidates name in_mos) 0 w2 in
                 (r, w', EvDescFunc cmd :: ev)
           end
     end).
Proof.
  unfold mos_exec, bind, do_trim, get_world, do_strtok_r, do_desc_func, ret.
  destruct (mos_trim (line (tok w)) buffer) as [b [p|]]; [|reflexivity].
  cbn [tok set_tok line mos_strtok_ptr].
  destruct (blank_or_comment b p); [reflexivity|].
  cbn [tok set_tok line mos_strtok_ptr].
  destruct (mos_strtok_r b (Some p) (lit " ") (mos_strtok_ptr (tok w)))
    as [[t b2] save].
  cbn [tok set_tok line mos_strtok_ptr].
  set (w2 := World (TokState b2 save) (ram w) (mosFileObjects w) (fatfs w)).
  set (name := match t with Some t => cstr b2 t | None => [] end).
  assert (Hw2 : set_tok (set_tok w (TokState b (mos_strtok_ptr (tok w))))
                  (TokState b2 save) = w2) by reflexivity.
  assert (Hw2' : set_tok w (TokState b2 save) = w2) by reflexivity.
  rewrite Hw2, Hw2'. cbv zeta.
  destruct (mos_getCommand name) as [i|];
    [destruct (mosCommands !! i ≫= func) as [f|]|destruct null_func as [f|]].
  { unfold do_call. by destruct (call f save w2) as [r w']. }
  all: (destruct (246 <? length name)%nat; [reflexivity|]);
    unfold candidates, search_candidates, bind, ret;
    (destruct (mos_LOAD (lit "/mos/" ++ name ++ lit ".bin")
                 MOS_starLoadAddress 0 w2) as [[fr1 w3] e1];
     destruct (fr1 =? FR_OK);
     [by destruct (mos_runBin MOS_starLoadAddress w3) as [[? ?] ?]|];
     destruct (fr1 =? MOS_OVERLAPPING_SYSTEM); [by rewrite app_nil_r|];
     destruct in_mos; [|by rewrite app_nil_r];
     destruct (mos_LOAD (name ++ lit ".bin") MOS_defaultLoadAddress 0 w3)
       as [[fr2 w4] e2];
     destruct (fr2 =? FR_OK);
     [by destruct (mos_runBin MOS_defaultLoadAddress w4) as [[? ?] ?]|];
     destruct (fr2 =? MOS_OVERLAPPING_SYSTEM); [by rewrite app_nil_r|];
     destruct (mos_LOAD (lit "/bin/" ++ name ++ lit ".bin")
                 MOS_defaultLoadAddress 0 w4) as [[fr3 w5] e3];
     destruct (fr3 =? FR_OK);
     [by destruct (mos_runBin MOS_defaultLoadAddress w5) as [[? ?] ?]|];
     destruct (fr3 =? MOS_OVERLAPPING_SYSTEM); by rewrite ?app_nil_r).
Qed.

(** *** mos_getCommand *)

Lemma getCommand_from_Some ptr tbl i j :
  getCommand_from ptr tbl i = Some j ->
  exists k cmd,
    j = (i + k)%nat /\ tbl !! k = Some cmd
    /\ pmatch ptr (name cmd) MATCH_COMMANDS = 0
    /\ forall k' cmd', (k' < k)%nat -> tbl !! k' = Some cmd' ->
                       pmatch ptr (name cmd') MATCH_COMMANDS <> 0.
Proof.
  revert i. induction tbl as [|c tbl IH]; intros i; simpl; [done|].
  destruct (Z.eqb_spec (pmatch ptr (name c) MATCH_COMMANDS) 0) as [Hm|Hm].
  - intros [= <-]. exists O, c. repeat split; [lia|done|]. intros; lia.
  - intros Hj. destruct (IH _ Hj) as (k & cmd & -> & Hk & Hmk & Hlt).
    exists (S k), cmd. repeat split; [lia|done|done|].
    intros [|k'] cmd' Hk' Hl; simpl in Hl.
    + by injection Hl as <-.
    + apply (Hlt k'); [lia|done].
Qed.

Lemma getCommand_from_None ptr tbl i :
  getCommand_from ptr tbl i = None ->
  Forall (fun cmd => pmatch ptr (name cmd) MATCH_COMMANDS <> 0) tbl.
Proof.
  revert i. induction tbl as [|c tbl IH]; intros i; simpl; [by constructor|].
  destruct (Z.eqb_spec (pmatch ptr (name c) MATCH_COMMANDS) 0) as [Hm|Hm];
    [done|].
  intros Hn. constructor; [done|]. by apply (IH (S i)).
Qed.

(** X4.  [mos_getCommand] returns the first descriptor of the table, in table
    order, whose name matches the token, and NULL exactly when no name of the
    table matches it. *)
Theorem mos_getCommand_first_match (ptr : list ascii) :
  (forall i, mos_getCommand ptr = Some i <->
     exists cmd,
       mosCommands !! i = Some cmd
       /\ pmatch ptr (name cmd) MATCH_COMMANDS = 0
       /\ forall j cmd', (j < i)%nat -> mosCommands !! j = Some cmd' ->
                         pmatch ptr (name cmd') MATCH_COMMANDS <> 0)
  /\ (mos_getCommand ptr = None <->
      Forall (fun cmd => pmatch ptr (name cmd) MATCH_COMMANDS <> 0) mosCommands).
Proof.
  unfold mos_getCommand. split.
  - intros i. split.
    + intros Hi. destruct (getCommand_from_Some _ _ _ _ Hi)
        as (k & cmd & -> & Hk & Hm & Hlt).
      exists cmd. by repeat split.
    + intros (cmd & Hi & Hm & Hlt).
      destruct (getCommand_from ptr mosCommands 0) as [j|] eqn:Hj.
      * destruct (getCommand_from_Some _ _ _ _ Hj)
          as (k & cmd2 & -> & Hk & Hm2 & Hlt2). simpl.
        destruct (Nat.lt_trichotomy k i) as [Hlt'|[->|Hgt]]; [|done|].
        -- by destruct (Hlt k cmd2 Hlt' Hk).
        -- by destruct (Hlt2 i cmd Hgt Hi).
      * apply getCommand_from_None in Hj.
        rewrite Forall_lookup in Hj. by destruct (Hj i cmd Hi).
  - split; [apply getCommand_from_None|].
    intros Hall.
    destruct (getCommand_from ptr mosCommands 0) as [j|] eqn:Hj; [|done].
    destruct (getCommand_from_Some _ _ _ _ Hj) as (k & cmd & _ & Hk & Hm & _).
    rewrite Forall_lookup in Hall. by destruct (Hall k cmd Hk).
Qed.

(** Every descriptor of the table carries a handler. *)
Lemma mosCommands_func i cmd :
  mosCommands !! i = Some cmd -> exists f, func cmd = Some f.
Proof.
  assert (Hall : Forall (fun c => exists f, func c = Some f) mosCommands).
  { unfold mosCommands, mk_cmd. repeat constructor; simpl; eauto. }
  rewrite Forall_lookup in Hall. apply Hall.
Qed.

(** *** A line that names a built-in command *)

(** X5.  When the first token of the line matches a command of the table,
    [mos_exec] reads the [func] field of the first matching descriptor and
    calls that handler with the tokenizer cursor as its argument, on a state
    that differs from the one [mos_exec] was entered with in the tokenizer
    only; the result and the final state of [mos_exec] are those of the
    handler.  Every descriptor of the table has a handler.  What the handler
    does in turn is not described. *)
Theorem mos_exec_builtin (w : world) (buffer : nat) (in_mos : bool)
    buf p t buf2 save i :
  mos_trim (line (tok w)) (Some buffer) = (buf, Some p) ->
  blank_or_comment buf p = false ->
  mos_strtok_r buf (Some p) (lit " ") (mos_strtok_ptr (tok w))
  = (Some t, buf2, save) ->
  mos_getCommand (cstr buf2 t) = Some i ->
  exists cmd f,
    mosCommands !! i = Some cmd /\ func cmd = Some f
    /\ pmatch (cstr buf2 t) (name cmd) MATCH_COMMANDS = 0
    /\ (forall j cmd', (j < i)%nat -> mosCommands !! j = Some cmd' ->
                       pmatch (cstr buf2 t) (name cmd') MATCH_COMMANDS <> 0)
    /\ (mos_exec (Some buffer) in_mos w).1
       = call f save (set_tok w (TokState buf2 save))
    /\ [EvDescFunc (Some i); EvCall f save]
       `prefix_of` (mos_exec (Some buffer) in_mos w).2.
Proof.
  intros Htrim Hblank Htok Hcmd.
  destruct (getCommand_from_Some _ _ _ _ Hcmd)
    as (k & cmd & Hik & Hk & Hm & Hfirst).
  simpl in Hik. subst k.
  destruct (mosCommands_func i cmd Hk) as [f Hf].
  exists cmd, f. do 4 (split; [done|]).
  rewrite mos_exec_unfold, Htrim. cbv zeta. rewrite Hblank, Htok, Hcmd.
  rewrite Hk. simpl. rewrite Hf. simpl. split.
  - by destruct (call f save _).
  - done.
Qed.

(** *** The paths mos_exec opens *)

Lemma open_paths_app (e1 e2 : list event) :
  open_paths (e1 ++ e2) = open_paths e1 ++ open_paths e2.
Proof. apply omap_app. Qed.

Lemma mos_LOAD_open_paths filename address size (w : world) :
  open_paths (mos_LOAD filename address size w).2 = [filename].
Proof.
  unfold mos_LOAD, bind, do_f_open, do_f_read, do_f_close, ret.
  destruct (f_open _ _ _) as [[fr fil] fs]. simpl.
  destruct (fr =? FR_OK); simpl.
  - destruct (_ && _)%bool; simpl.
    + by destruct (f_close _ _).
    + destruct (f_read _ _ _) as [[[fr' data] fil'] fs']. simpl.
      by destruct (f_close _ _).
  - by destruct (f_close _ _).
Qed.

Lemma mos_runBin_open_paths addr (w : world) :
  open_paths (mos_runBin addr w).2 = [].
Proof.
  unfold mos_runBin, bind, get_world, do_exec16, do_exec24, ret.
  destruct (_ =? 0); simpl.
  - by destruct (exec16 _ _ _).
  - destruct (_ =? 1); simpl; [|done]. by destruct (exec24 _ _ _).
Qed.

(** The search opens the candidates in their order, each at most once, and
    stops at some point of the list. *)
Lemma search_candidates_open_paths cands fr (w : world) :
  open_paths (search_candidates cands fr w).2 `prefix_of` map fst cands.
Proof.
  revert fr w. induction cands as [|[path addr] cands IH]; intros fr w; simpl.
  - done.
  - unfold bind.
    pose proof (mos_LOAD_open_paths path addr 0 w) as Hl.
    destruct (mos_LOAD path addr 0 w) as [[fr1 w1] e1]. simpl in Hl.
    destruct (fr1 =? FR_OK).
    + pose proof (mos_runBin_open_paths addr w1) as Hr.
      destruct (mos_runBin addr w1) as [[r w2] e2]. simpl in *.
      rewrite open_paths_app, Hl, Hr. simpl.
      apply prefix_cons, prefix_nil.
    + destruct (fr1 =? MOS_OVERLAPPING_SYSTEM).
      * simpl. rewrite open_paths_app, Hl. simpl.
        apply prefix_cons, prefix_nil.
      * specialize (IH fr1 w1).
        destruct (search_candidates cands fr1 w1) as [[r w2] e2]. simpl in *.
        rewrite open_paths_app, Hl. simpl. by apply prefix_cons.
Qed.

(** The paths [mos_exec] opens are candidates for one name of at most 246
    characters, tried in order. *)
Lemma mos_exec_open_paths (buffer : option nat) (in_mos : bool) (w : world) :
  exists name,
    (length name <= 246)%nat
    /\ open_paths (mos_exec buffer in_mos w).2
       `prefix_of` map fst (candidates name in_mos).
Proof.
  rewrite mos_exec_unfold.
  destruct (mos_trim (line (tok w)) buffer) as [b [p|]]; cbv zeta;
    [|exists []; split; [simpl; lia|apply prefix_nil]].
  destruct (blank_or_comment b p);
    [exists []; split; [simpl; lia|apply prefix_nil]|].
  destruct (mos_strtok_r b (Some p) (lit " ") (mos_strtok_ptr (tok w)))
    as [[t b2] save].
  set (w2 := set_tok w (TokState b2 save)).
  set (name := match t with Some t => cstr b2 t | None => [] end).
  assert (Htail :
    forall c,
    exists name0,
      (length name0 <= 246)%nat
      /\ open_paths
           (if (246 <? length name)%nat
            then (MOS_INVALID_COMMAND, w2, [EvDescFunc c])
            else let '(r, w', ev) :=
                   search_candidates (candidates name in_mos) 0 w2 in
                 (r, w', EvDescFunc c :: ev)).2
         `prefix_of` map fst (candidates name0 in_mos)).
  { intros c. destruct (246 <? length name)%nat eqn:Hlen.
    - exists []. split; [simpl; lia|apply prefix_nil].
    - exists name. apply Nat.ltb_ge in Hlen. split; [done|].
      pose proof (search_candidates_open_paths (candidates name in_mos) 0 w2)
        as Hp.
      by destruct (search_candidates _ _ _) as [[r w'] ev]. }
  destruct (mos_getCommand name) as [i|];
    [destruct (mosCommands !! i ≫= func) as [f|]|destruct null_func as [f|]];
    try apply Htail.
  exists []. split; [simpl; lia|apply prefix_nil].
Qed.

(** X6.  Whatever the line, every path [mos_exec] hands to [f_open] has at
    most 255 characters: with its terminator it fits the 256-byte [path]
    buffer it is built in. *)
Theorem mos_exec_path_fits (buffer : option nat) (in_mos : bool) (w : world) :
  Forall (fun path => (length path <= 255)%nat)
    (open_paths (mos_exec buffer in_mos w).2).
Proof.
  destruct (mos_exec_open_paths buffer in_mos w) as (name & Hlen & Hpre).
  destruct Hpre as [rest Hrest].
  assert (Hall : Forall (fun path => (length path <= 255)%nat)
                   (map fst (candidates name in_mos))).
  { unfold candidates. destruct in_mos; simpl;
      repeat (constructor; [simpl; rewrite ?length_app; simpl; lia|]);
      constructor. }
  rewrite Hrest in Hall. by apply Forall_app in Hall as [Hall _].
Qed.

(** X7.  [mos_OSCLI] on a line whose first token is no command of the
    table: no handler is called, and the only file opened is /mos/NAME.bin,
    NAME being that token; NAME.bin of the current directory and
    /bin/NAME.bin are not tried.  For a token of more than 246 characters no
    file is opened and the result is [MOS_INVALID_COMMAND].  The result is
    that of [mos_exec] with [in_mos] false, as a 24-bit value. *)
Theorem mos_OSCLI_moslets_only (w : world) (cmd : nat) buf p t buf2 save :
  mos_trim (line (tok w)) (Some cmd) = (buf, Some p) ->
  blank_or_comment buf p = false ->
  mos_strtok_r buf (Some p) (lit " ") (mos_strtok_ptr (tok w))
  = (Some t, buf2, save) ->
  mos_getCommand (cstr buf2 t) = None ->
  let name := cstr buf2 t in
  let r := mos_OSCLI cmd w in
  Forall (fun e => is_call e = false) r.2
  /\ ((length name <= 246)%nat ->
      open_paths r.2 = [lit "/mos/" ++ name ++ lit ".bin"])
  /\ ((246 < length name)%nat ->
      open_paths r.2 = [] /\ r.1.1 = MOS_INVALID_COMMAND)
  /\ r.1.1 = u24 (mos_exec (Some cmd) false w).1.1
  /\ r.1.2 = (mos_exec (Some cmd) false w).1.2
  /\ 0 <= r.1.1 < 2 ^ 24.
Proof.
  intros Htrim Hblank Htok Hcmd name r.
  assert (Heq : r = (u24 (mos_exec (Some cmd) false w).1.1,
                     (mos_exec (Some cmd) false w).1.2,
                     (mos_exec (Some cmd) false w).2)).
  { unfold r, mos_OSCLI, bind, ret.
    destruct (mos_exec (Some cmd) false w) as [[fr w'] ev]. simpl.
    by rewrite app_nil_r. }
  rewrite Heq. cbn [fst snd].
  rewrite (mos_exec_unmatched w cmd false buf p t buf2 save) by done.
  cbv zeta. fold name.
  set (w2 := set_tok w (TokState buf2 save)).
  assert (Hu : 0 <= u24 MOS_INVALID_COMMAND < 2 ^ 24
               /\ u24 MOS_INVALID_COMMAND = MOS_INVALID_COMMAND).
  { vm_compute. by repeat split. }
  destruct (246 <? length name)%nat eqn:Hlen.
  - apply Nat.ltb_lt in Hlen. cbn [fst snd].
    split; [by repeat constructor|]. split; [lia|].
    split; [by intros _|]. do 2 (split; [done|]).
    unfold u24. apply Z.mod_pos_bound. lia.
  - apply Nat.ltb_ge in Hlen.
    pose proof (search_candidates_no_call (candidates name false) 0 w2) as Hno.
    assert (Hopen : open_paths (search_candidates (candidates name false) 0 w2).2
                    = [lit "/mos/" ++ name ++ lit ".bin"]).
    { unfold candidates, search_candidates, bind, ret.
      pose proof (mos_LOAD_open_paths (lit "/mos/" ++ name ++ lit ".bin")
                    MOS_starLoadAddress 0 w2) as Hl.
      destruct (mos_LOAD _ _ _ _) as [[fr1 w3] e1]. simpl in Hl.
      destruct (fr1 =? FR_OK).
      - pose proof (mos_runBin_open_paths MOS_starLoadAddress w3) as Hr.
        destruct (mos_runBin _ _) as [[fr2 w4] e2]. simpl in *.
        by rewrite open_paths_app, Hl, Hr.
      - destruct (fr1 =? MOS_OVERLAPPING_SYSTEM); simpl;
          by rewrite open_paths_app, Hl. }
    destruct (search_candidates (candidates name false) 0 w2) as [[fr w'] ev].
    cbn [fst snd] in *.
    split; [by constructor|]. split; [by intros _|].
    split; [lia|]. do 2 (split; [done|]).
    unfold u24. apply Z.mod_pos_bound. lia.
Qed.

(** *** What mos_LOAD writes *)

Lemma write_bytes_outside (r : Z -> Z) address data a :
  write_bytes r address data a <> r a ->
  address <= a < address + Z.of_nat (length data).
Proof.
  unfold write_bytes.
  destruct (Z.leb_spec address a); destruct (Z.ltb_spec a (address + Z.of_nat (length data)));
    simpl; intros Hne; try done; lia.
Qed.

(** X8.  [mos_LOAD] leaves the tokenizer and the file slots alone, and the
    only bytes of memory it can change are those from [address] up to, not
    including, [address] plus the number of bytes it set out to read.  So for
    a target within external RAM and a sum that fits 24 bits, no byte at or
    above the system address changes. *)
Theorem mos_LOAD_frame (w : world) (filename : list ascii) (address size : Z) :
  let r := mos_LOAD filename address size w in
  let len := load_size (f_size (f_open (fatfs w) filename FA_READ).1.2) size in
  tok r.1.2 = tok w
  /\ mosFileObjects r.1.2 = mosFileObjects w
  /\ (forall a, ram r.1.2 a <> ram w a -> address <= a < address + len)
  /\ (address <= MOS_externLastRAMaddress ->
      0 <= address + len < 2 ^ 24 ->
      forall a, MOS_systemAddress <= a -> ram r.1.2 a = ram w a).
Proof.
  intros r len.
  assert (Hcases :
    tok r.1.2 = tok w /\ mosFileObjects r.1.2 = mosFileObjects w
    /\ forall a, ram r.1.2 a <> ram w a ->
         ((address <=? MOS_externLastRAMaddress)
          && (u24 (address + len) >? MOS_systemAddress))%bool = false
         /\ address <= a < address + len).
  { unfold r, len, mos_LOAD, bind, do_f_open, do_f_read, do_f_close, ret.
    destruct (f_open _ _ _) as [[fr fil] fs]. simpl.
    destruct (fr =? FR_OK); simpl.
    - destruct (_ && _)%bool eqn:Hg; simpl.
      + destruct (f_close _ _). simpl. by repeat split.
      + destruct (f_read _ _ _) as [[[fr' data] fil'] fs']. simpl.
        destruct (f_close _ _). simpl. do 2 (split; [done|]).
        intros a Hne. apply write_bytes_outside in Hne.
        rewrite length_take in Hne. split; [done|lia].
    - destruct (f_close _ _). simpl. by repeat split. }
  destruct Hcases as (Htok & Hslots & Hram).
  repeat split; try done.
  - by apply Hram.
  - by apply Hram.
  - intros Hext Hfit a Ha.
    destruct (Z.eq_dec (ram r.1.2 a) (ram w a)) as [|Hne]; [done|].
    destruct (Hram a Hne) as [Hg Hin].
    assert (Hu : u24 (address + len) = address + len).
    { unfold u24. by apply Z.mod_small. }
    rewrite Hu in Hg. apply andb_false_iff in Hg. lia.
Qed.

(** *** File handles *)

Lemma set_slot_same (w : world) i fo : mosFileObjects (set_slot w i fo) i = fo.
Proof. simpl. by rewrite decide_True. Qed.

Lemma set_slot_other (w : world) i j fo :
  j <> i -> mosFileObjects (set_slot w i fo) j = mosFileObjects w j.
Proof. intros Hne. simpl. by rewrite decide_False. Qed.

(** The loop of [mos_FOPEN] over any list of slots. *)
Lemma FOPEN_from_spec filename mode slots (w : world) :
  let r := FOPEN_from filename mode slots w in
  (r.1.1 = 0
   \/ exists i, i ∈ slots /\ r.1.1 = Z.of_nat i + 1
        /\ free (mosFileObjects w i) = 0
        /\ free (mosFileObjects r.1.2 i) = 1)
  /\ (forall j, free (mosFileObjects w j) <> 0 ->
                mosFileObjects r.1.2 j = mosFileObjects w j)
  /\ (forall j, r.1.1 <> Z.of_nat j + 1 ->
                free (mosFileObjects r.1.2 j) = free (mosFileObjects w j))
  /\ tok r.1.2 = tok w /\ ram r.1.2 = ram w
  /\ Forall (fun path => path = filename) (open_paths r.2).
Proof.
  revert w. induction slots as [|i slots IH]; intros w; simpl.
  - repeat split; auto.
  - unfold bind, get_world. simpl.
    destruct (Z.eqb_spec (free (mosFileObjects w i)) 0) as [Hfree|Hused].
    + unfold do_f_open, put_fileObject, set_free, ret.
      destruct (f_open (fatfs w) filename mode) as [[fr fil] fs]. simpl.
      set (w2 := set_slot (set_fatfs w fs) i
                   (MosFileObject (free (mosFileObjects w i)) fil)).
      destruct (fr =? FR_OK).
      * simpl.
        split.
        { right. exists i. split; [apply elem_of_cons; by left|].
          do 2 (split; [done|]). by rewrite !decide_True. }
        split.
        { intros j Hj. destruct (decide (j = i)) as [->|]; [done|].
          reflexivity. }
        split.
        { intros j Hj. destruct (decide (j = i)) as [->|]; [lia|].
          reflexivity. }
        repeat split. by repeat constructor.
      * specialize (IH w2).
        destruct (FOPEN_from filename mode slots w2) as [[h w3] ev].
        simpl. cbn [fst snd] in IH.
        destruct IH as (Hh & Hused & Hflag & Htok & Hram & Hpaths).
        assert (Hfree2 : forall j, free (mosFileObjects w2 j)
                                   = free (mosFileObjects w j)).
        { intros j. unfold w2. simpl. by destruct (decide (j = i)) as [->|]. }
        split.
        { destruct Hh as [->|(i' & Hin & -> & Hf0 & Hf1)]; [by left|].
          right. exists i'. rewrite Hfree2 in Hf0.
          split; [apply elem_of_cons; by right|done]. }
        split.
        { intros j Hj. rewrite Hused by (by rewrite Hfree2).
          unfold w2. simpl. destruct (decide (j = i)) as [->|]; [done|].
          reflexivity. }
        split.
        { intros j Hj. by rewrite Hflag, Hfree2. }
        repeat split; [done|done|]. by constructor.
    + specialize (IH w).
      destruct (FOPEN_from filename mode slots w) as [[h w3] ev]. simpl in *.
      destruct IH as (Hh & Hused' & Hflag & Htok & Hram & Hpaths).
      split.
      { destruct Hh as [->|(i' & Hin & -> & Hf0 & Hf1)]; [by left|].
        right. exists i'. split; [apply elem_of_cons; by right|done]. }
      by repeat split.
Qed.

Lemma FOPEN_from_all_in_use filename mode slots (w : world) :
  Forall (fun i => free (mosFileObjects w i) <> 0) slots ->
  FOPEN_from filename mode slots w = (0, w, []).
Proof.
  induction 1 as [|i slots Hi _ IH]; simpl; [done|].
  unfold bind, get_world. simpl.
  destruct (Z.eqb_spec (free (mosFileObjects w i)) 0) as [|_]; [done|].
  by rewrite IH.
Qed.

(** X9.  [mos_FOPEN] returns 0 or a handle between 1 and [MOS_maxOpenFiles]
    whose slot was free and is now in use, so that [mos_GETFIL] gives its
    file object.  A slot that was in use keeps its file object, the flag of
    every other slot is as it was, every [f_open] is for the given file name,
    and the tokenizer and memory are untouched.  With every slot in use the
    result is 0 without any FatFS call. *)
Theorem mos_FOPEN_spec (w : world) (filename : list ascii) (mode : Z) :
  let r := mos_FOPEN filename mode w in
  let h := r.1.1 in
  (h = 0
   \/ 1 <= h <= MOS_maxOpenFiles
      /\ free (mosFileObjects w (Z.to_nat (h - 1))) = 0
      /\ free (mosFileObjects r.1.2 (Z.to_nat (h - 1))) = 1
      /\ mos_GETFIL r.1.2 h = fileObject_addr (Z.to_nat (h - 1)))
  /\ (forall j, free (mosFileObjects w j) <> 0 ->
                mosFileObjects r.1.2 j = mosFileObjects w j)
  /\ (forall j, h <> Z.of_nat j + 1 ->
                free (mosFileObjects r.1.2 j) = free (mosFileObjects w j))
  /\ tok r.1.2 = tok w /\ ram r.1.2 = ram w
  /\ Forall (fun path => path = filename) (open_paths r.2)
  /\ ((forall i, (i < Z.to_nat MOS_maxOpenFiles)%nat ->
                 free (mosFileObjects w i) <> 0) ->
      r = (0, w, [])).
Proof.
  intros r h.
  pose proof (FOPEN_from_spec filename mode (seq 0 (Z.to_nat MOS_maxOpenFiles)) w)
    as Hspec.
  fold (mos_FOPEN filename mode) in Hspec. fold r in Hspec. fold h in Hspec.
  cbv zeta in Hspec.
  destruct Hspec as (Hh & Hused & Hflag & Htok & Hram & Hpaths).
  split.
  { destruct Hh as [?|(i & Hin & Hi & Hf0 & Hf1)]; [by left|]. right.
    apply elem_of_seq in Hin.
    assert (Hidx : Z.to_nat (h - 1) = i) by lia.
    rewrite Hidx. split; [lia|]. do 2 (split; [done|]).
    unfold mos_GETFIL.
    replace ((0 <? h) && (h <=? MOS_maxOpenFiles))%bool with true
      by (symmetry; apply andb_true_iff; lia).
    rewrite Hidx, Hf1. reflexivity. }
  do 5 (split; [done|]).
  intros Hall. apply FOPEN_from_all_in_use.
  apply Forall_forall. intros i Hi. apply elem_of_seq in Hi. apply Hall. lia.
Qed.

Lemma close_slot_spec i (w : world) :
  let r := close_slot i w in
  free (mosFileObjects r.1.2 i) <= 0
  /\ (forall j, j <> i -> mosFileObjects r.1.2 j = mosFileObjects w j)
  /\ (forall j, free (mosFileObjects r.1.2 j) = free (mosFileObjects w j)
                \/ (0 < free (mosFileObjects w j)
                    /\ free (mosFileObjects r.1.2 j) = 0))
  /\ tok r.1.2 = tok w /\ ram r.1.2 = ram w
  /\ r.2 = (if 0 <? free (mosFileObjects w i) then [EvClose] else []).
Proof.
  unfold close_slot, bind, get_world, do_f_close, set_free, ret. simpl.
  destruct (Z.ltb_spec 0 (free (mosFileObjects w i))) as [Hopen|Hfree].
  - destruct (f_close _ _) as [fr fs]. simpl. rewrite decide_True by done.
    simpl. split; [lia|]. split.
    { intros j Hj. by rewrite decide_False. }
    split; [|done].
    intros j. destruct (decide (j = i)) as [->|]; [by right|by left].
  - simpl. split; [lia|]. by repeat split; auto.
Qed.

Lemma close_slots_spec slots (w : world) :
  let r := close_slots slots w in
  (forall i, i ∈ slots -> free (mosFileObjects r.1.2 i) <= 0)
  /\ (forall j, j ∉ slots -> mosFileObjects r.1.2 j = mosFileObjects w j)
  /\ (forall j, free (mosFileObjects r.1.2 j) = free (mosFileObjects w j)
                \/ (0 < free (mosFileObjects w j)
                    /\ free (mosFileObjects r.1.2 j) = 0))
  /\ tok r.1.2 = tok w /\ ram r.1.2 = ram w.
Proof.
  revert w. induction slots as [|i slots IH]; intros w; simpl.
  - repeat split; auto. intros i Hi. set_solver.
  - unfold bind.
    pose proof (close_slot_spec i w) as Hc.
    destruct (close_slot i w) as [[[] w1] e1]. simpl in Hc.
    destruct Hc as (Hi & Hother & Hflag & Htok & Hram & _).
    specialize (IH w1).
    destruct (close_slots slots w1) as [[[] w2] e2]. simpl in *.
    destruct IH as (Hin & Hout & Hflag2 & Htok2 & Hram2).
    split.
    { intros j Hj. apply elem_of_cons in Hj as [->|Hj]; [|by apply Hin].
      destruct (Hflag2 i) as [Heq|[_ Heq]]; lia. }
    split.
    { intros j Hj. apply not_elem_of_cons in Hj as [Hne Hj].
      by rewrite Hout, Hother. }
    split.
    { intros j. destruct (Hflag j) as [Heq|[Hpos Heq]];
        destruct (Hflag2 j) as [Heq2|[Hpos2 Heq2]]; lia. }
    split; congruence.
Qed.

(** X10.  [mos_FCLOSE] returns its argument, leaves the tokenizer and
    memory alone and makes no handle valid that was not.  For a handle between 1 and [MOS_maxOpenFiles] it closes
    that slot if it is in use, with one [f_close], and touches no other slot;
    the handle is invalid afterwards.  For any other argument it closes
    every slot in use: afterwards no handle is valid. *)
Theorem mos_FCLOSE_spec (w : world) (fh : Z) :
  let r := mos_FCLOSE fh w in
  r.1.1 = fh /\ tok r.1.2 = tok w /\ ram r.1.2 = ram w
  /\ (forall h, mos_GETFIL r.1.2 h <> 0 -> mos_GETFIL w h <> 0)
  /\ (0 < fh <= MOS_maxOpenFiles ->
      mos_GETFIL r.1.2 fh = 0
      /\ (forall j, j <> Z.to_nat (fh - 1) ->
                    mosFileObjects r.1.2 j = mosFileObjects w j)
      /\ r.2 = (if 0 <? free (mosFileObjects w (Z.to_nat (fh - 1)))
                then [EvClose] else []))
  /\ (~ 0 < fh <= MOS_maxOpenFiles -> forall h, mos_GETFIL r.1.2 h = 0).
Proof.
  intros r.
  assert (Hget : forall (w' : world) h,
             (forall j, free (mosFileObjects w' j) = free (mosFileObjects w j)
                        \/ (0 < free (mosFileObjects w j)
                            /\ free (mosFileObjects w' j) = 0)) ->
             mos_GETFIL w' h <> 0 -> mos_GETFIL w h <> 0).
  { intros w' h Hflag. unfold mos_GETFIL.
    destruct (_ && _)%bool; [|done].
    destruct (Hflag (Z.to_nat (h - 1))) as [->|[Hpos ->]]; [done|].
    simpl. done. }
  assert (Hzero : forall (w' : world) h,
             free (mosFileObjects w' (Z.to_nat (h - 1))) <= 0 ->
             mos_GETFIL w' h = 0).
  { intros w' h Hle. unfold mos_GETFIL.
    destruct (_ && _)%bool; [|done].
    destruct (Z.ltb_spec 0 (free (mosFileObjects w' (Z.to_nat (h - 1)))));
      [lia|done]. }
  unfold r, mos_FCLOSE, bind, ret.
  destruct ((0 <? fh) && (fh <=? MOS_maxOpenFiles))%bool eqn:Hrange.
  - pose proof (close_slot_spec (Z.to_nat (fh - 1)) w) as Hc.
    destruct (close_slot (Z.to_nat (fh - 1)) w) as [[[] w1] e1]. simpl in *.
    destruct Hc as (Hi & Hother & Hflag & Htok & Hram & Hev).
    do 3 (split; [done|]).
    split; [intros h; by apply Hget|].
    split.
    + intros _. split; [by apply Hzero|]. split; [done|].
      by rewrite app_nil_r.
    + intros Hout. apply andb_true_iff in Hrange. lia.
  - pose proof (close_slots_spec (seq 0 (Z.to_nat MOS_maxOpenFiles)) w) as Hc.
    destruct (close_slots _ w) as [[[] w1] e1]. simpl in *.
    destruct Hc as (Hin & Hout & Hflag & Htok & Hram).
    do 3 (split; [done|]).
    split; [intros h; by apply Hget|].
    split.
    + intros Hr. apply andb_false_iff in Hrange. lia.
    + intros _ h. unfold mos_GETFIL.
      destruct ((0 <? h) && (h <=? MOS_maxOpenFiles))%bool eqn:Hh; [|done].
      apply andb_true_iff in Hh.
      assert (Hle : free (mosFileObjects w1 (Z.to_nat (h - 1))) <= 0).
      { apply Hin. apply elem_of_seq. lia. }
      destruct (Z.ltb_spec 0 (free (mosFileObjects w1 (Z.to_nat (h - 1)))));
        [lia|done].
Qed.

(** X11.  A handle that [mos_FOPEN] returned can be closed again: [mos_FCLOSE]
    on it makes exactly one [f_close], and afterwards every slot is free or in
    use as it was before the open. *)
Theorem mos_FOPEN_FCLOSE (w : world) (filename : list ascii) (mode : Z) :
  let r1 := mos_FOPEN filename mode w in
  r1.1.1 <> 0 ->
  let r2 := mos_FCLOSE r1.1.1 r1.1.2 in
  r2.2 = [EvClose]
  /\ forall j, free (mosFileObjects r2.1.2 j) = free (mosFileObjects w j).
Proof.
  intros r1 Hh r2.
  pose proof (FOPEN_from_spec filename mode (seq 0 (Z.to_nat MOS_maxOpenFiles)) w)
    as Hspec.
  fold (mos_FOPEN filename mode) in Hspec. fold r1 in Hspec.
  cbv zeta in Hspec.
  destruct Hspec as (Hcase & _ & Hflag & _).
  destruct Hcase as [?|(i & Hin & Hi & Hf0 & Hf1)]; [done|].
  apply elem_of_seq in Hin.
  assert (Hidx : Z.to_nat (r1.1.1 - 1) = i) by lia.
  unfold r2, mos_FCLOSE, bind, ret.
  replace ((0 <? r1.1.1) && (r1.1.1 <=? MOS_maxOpenFiles))%bool with true
    by (symmetry; apply andb_true_iff; lia).
  rewrite Hidx.
  pose proof (close_slot_spec i r1.1.2) as Hc.
  destruct (close_slot i r1.1.2) as [[[] w2] e2]. simpl in *.
  destruct Hc as (Hle & Hother & Hflag2 & _ & _ & Hev).
  rewrite Hf1 in Hev. simpl in Hev. subst e2. split; [done|].
  intros j. destruct (decide (j = i)) as [->|Hne].
  - destruct (Hflag2 i) as [Heq|[_ Heq]]; lia.
  - rewrite Hother by done. apply Hflag. lia.
Qed.

(** X12.  Reading, writing and seeking through a handle leave the tokenizer
    alone and change no slot from free to in use or back, and each makes at
    most one FatFS call.  [mos_FREAD] returns a count between 0 and the
    count asked for and changes memory only within the caller's buffer;
    [mos_FWRITE] and [mos_FLSEEK] change no memory at all. *)
Theorem file_io_frame (w : world) (fh : Z) :
  (forall buffer btr,
     let r := mos_FREAD fh buffer btr w in
     0 <= r.1.1 <= Z.max 0 btr
     /\ (forall a, ram r.1.2 a <> ram w a -> buffer <= a < buffer + btr)
     /\ tok r.1.2 = tok w
     /\ (forall j, free (mosFileObjects r.1.2 j) = free (mosFileObjects w j))
     /\ (length r.2 <= 1)%nat)
  /\ (forall buffer btw,
        let r := mos_FWRITE fh buffer btw w in
        ram r.1.2 = ram w /\ tok r.1.2 = tok w
        /\ (forall j, free (mosFileObjects r.1.2 j) = free (mosFileObjects w j))
        /\ (length r.2 <= 1)%nat)
  /\ (forall offset,
        let r := mos_FLSEEK fh offset w in
        ram r.1.2 = ram w /\ tok r.1.2 = tok w
        /\ (forall j, free (mosFileObjects r.1.2 j) = free (mosFileObjects w j))
        /\ (length r.2 <= 1)%nat).
Proof.
  assert (Hslot : forall (w0 : world) i fil j,
             free (mosFileObjects
                     (set_slot w0 i (MosFileObject (free (mosFileObjects w0 i)) fil)) j)
             = free (mosFileObjects w0 j)).
  { intros w0 i fil j. simpl. by destruct (decide (j = i)) as [->|]. }
  split; [|split].
  - intros buffer btr r. unfold r, mos_FREAD, bind, get_world, do_f_read,
      put_fileObject, ret.
    cbn [fst snd].
    destruct (0 <? mos_GETFIL w fh).
    + destruct (f_read _ _ _) as [[[fr data] fil] fs]. cbn [fst snd].
      set (n := length (take (Z.to_nat btr) data)).
      assert (Hn : 0 <= Z.of_nat n <= Z.max 0 btr).
      { unfold n. rewrite length_take. lia. }
      assert (Hram : forall a,
                 write_bytes (ram w) buffer (take (Z.to_nat btr) data) a <> ram w a ->
                 buffer <= a < buffer + btr).
      { intros a Hne. apply write_bytes_outside in Hne. fold n in Hne. lia. }
      destruct (fr =? FR_OK); cbn [fst snd];
        (split; [lia|]); (split; [exact Hram|]); (split; [done|]);
        (split; [intros j; etrans; [apply Hslot|reflexivity]|simpl; lia]).
    + cbn [fst snd]. split; [lia|]. by repeat split; simpl; try lia.
  - intros buffer btw r. unfold r, mos_FWRITE, bind, get_world, do_f_write,
      put_fileObject, ret.
    cbn [fst snd].
    destruct (0 <? mos_GETFIL w fh).
    + destruct (f_write _ _ _) as [[[fr bw] fil] fs]. cbn [fst snd].
      destruct (fr =? FR_OK); cbn [fst snd];
        (split; [done|]); (split; [done|]);
        (split; [intros j; etrans; [apply Hslot|reflexivity]|simpl; lia]).
    + cbn [fst snd]. by repeat split; simpl; try lia.
  - intros offset r. unfold r, mos_FLSEEK, bind, get_world, do_f_lseek,
      put_fileObject, ret.
    cbn [fst snd].
    destruct (0 <? mos_GETFIL w fh).
    + destruct (f_lseek _ _ _) as [[fr fil] fs]. cbn [fst snd].
      (split; [done|]); (split; [done|]);
        (split; [intros j; etrans; [apply Hslot|reflexivity]|simpl; lia]).
    + cbn [fst snd]. by repeat split; simpl; try lia.
Qed.

(** *** LOAD and SAVE: the handlers and their arguments *)

Lemma mos_parseNumber_state st ptr pv :
  (mos_parseNumber st ptr pv).2 = (mos_strtok st ptr (lit " ")).2.
Proof.
  unfold mos_parseNumber.
  destruct (mos_strtok st ptr (lit " ")) as [[p|] st1]; [|done].
  destruct (if Ascii.eqb (rd (line st1) p) "&"%char then _ else _) as [base q].
  destruct (strtol (line st1) q base) as [value e].
  by destruct (negb (is_nul (rd (line st1) e))).
Qed.

Lemma mos_strtok_keeps st s1 d t st1 d2 :
  mos_strtok st s1 d = (Some t, st1) ->
  cstr (line (mos_strtok st1 None d2).2) t = cstr (line st1) t.
Proof.
  unfold mos_strtok.
  destruct (mos_strtok_r (line st) s1 d (mos_strtok_ptr st))
    as [[t1 buf1] c1] eqn:E1.
  intros [= -> <-]. simpl.
  destruct (mos_strtok_r buf1 None d2 c1) as [[t2 buf2] c2] eqn:E2. simpl.
  apply (mos_strtok_r_next buf1 t c1 d2 t2 buf2 c2); [|done].
  by apply (mos_strtok_r_cursor (line st) s1 d (mos_strtok_ptr st)).
Qed.

(** X14.  [mos_cmdLOAD] without a file name on the rest of the line returns
    [FR_INVALID_PARAMETER] and makes no FatFS call.  With one, it is
    [mos_LOAD] of that name with size 0, at the address that follows it, or
    at [MOS_defaultLoadAddress] when no number follows or what follows is not
    a number; parsing the address leaves the file name as it was. *)
Theorem mos_cmdLOAD_spec (w : world) (ptr : nat) :
  let r1 := mos_parseString (tok w) None None in
  (r1.1.1 = 0 ->
   mos_cmdLOAD ptr w = (FR_INVALID_PARAMETER, set_tok w r1.2, []))
  /\ (forall f,
        r1.1.1 <> 0 -> r1.1.2 = Some f ->
        let r2 := mos_parseNumber r1.2 None 0 in
        let addr := if r2.1.1 =? 0 then MOS_defaultLoadAddress else r2.1.2 in
        cstr (line r2.2) f = cstr (line r1.2) f
        /\ mos_cmdLOAD ptr w
           = mos_LOAD (cstr (line r1.2) f) addr 0 (set_tok w r2.2)).
Proof.
  intros r1. unfold mos_cmdLOAD, bind, do_parseString, do_parseNumber, str_at, ret.
  fold r1.
  assert (Hr1 : (exists st1, r1 = (0, None, st1))
                \/ exists f st1, r1 = (1, Some f, st1)
                     /\ mos_strtok (tok w) None (lit " ") = (Some f, st1)).
  { unfold r1, mos_parseString.
    destruct (mos_strtok (tok w) None (lit " ")) as [[f|] st1]; eauto. }
  destruct Hr1 as [[st1 ->]|(f & st1 & -> & Hst1)]; simpl.
  - split; [done|]. intros f Hne. done.
  - split; [done|]. intros f' _ [= <-].
    assert (Hkeep : cstr (line (mos_parseNumber st1 None 0).2) f
                    = cstr (line st1) f).
    { rewrite mos_parseNumber_state.
      by apply (mos_strtok_keeps (tok w) None (lit " ")). }
    split; [done|].
    destruct (mos_parseNumber st1 None 0) as [[r v] st2]. simpl in *.
    rewrite Hkeep.
    by destruct (mos_LOAD _ _ _ _) as [[fr w'] ev].
Qed.

(** X15.  [mos_SAVE] opens the file with [FA_WRITE | FA_CREATE_NEW], makes
    one [f_write] of the given range when the open succeeded, and closes the
    file in either case; it changes no memory, no slot and no tokenizer
    state, and a failed open is its result.  [mos_cmdSAVE] calls it only when a file name and two
    numbers could be parsed; otherwise it returns [FR_INVALID_PARAMETER]
    without a FatFS call. *)
Theorem mos_cmdSAVE_spec (w : world) (ptr : nat) :
  (forall filename address size,
     let r := mos_SAVE filename address size w in
     let mode := Z.lor FA_WRITE FA_CREATE_NEW in
     ram r.1.2 = ram w /\ mosFileObjects r.1.2 = mosFileObjects w
     /\ tok r.1.2 = tok w
     /\ (r.2 = [EvOpen filename mode; EvWrite address size; EvClose]
         /\ (f_open (fatfs w) filename mode).1.1 = FR_OK
         \/ r.2 = [EvOpen filename mode; EvClose]
            /\ (f_open (fatfs w) filename mode).1.1 <> FR_OK
            /\ r.1.1 = (f_open (fatfs w) filename mode).1.1))
  /\ (let r := mos_cmdSAVE ptr w in
      ram r.1.2 = ram w /\ mosFileObjects r.1.2 = mosFileObjects w
      /\ (r.1.1 = FR_INVALID_PARAMETER /\ r.2 = []
          \/ exists f st1 a st2 sz st3,
               mos_parseString (tok w) None None = (1, Some f, st1)
               /\ mos_parseNumber st1 None 0 = (1, a, st2)
               /\ mos_parseNumber st2 None 0 = (1, sz, st3)
               /\ r = mos_SAVE (cstr (line st3) f) a sz (set_tok w st3))).
Proof.
  assert (Hsave : forall (w0 : world) filename address size,
     let r := mos_SAVE filename address size w0 in
     let mode := Z.lor FA_WRITE FA_CREATE_NEW in
     ram r.1.2 = ram w0 /\ mosFileObjects r.1.2 = mosFileObjects w0
     /\ tok r.1.2 = tok w0
     /\ (r.2 = [EvOpen filename mode; EvWrite address size; EvClose]
         /\ (f_open (fatfs w0) filename mode).1.1 = FR_OK
         \/ r.2 = [EvOpen filename mode; EvClose]
            /\ (f_open (fatfs w0) filename mode).1.1 <> FR_OK
            /\ r.1.1 = (f_open (fatfs w0) filename mode).1.1)).
  { intros w0 filename address size r mode.
    unfold r, mos_SAVE, bind, do_f_open, do_f_write, do_f_close, ret.
    fold mode.
    destruct (f_open (fatfs w0) filename mode) as [[fr fil] fs]. simpl.
    destruct (Z.eqb_spec fr FR_OK) as [->|Hne].
    - destruct (f_write _ _ _) as [[[fr' bw] fil'] fs']. simpl.
      destruct (f_close _ _) as [fr2 fs2]. simpl. repeat split. by left.
    - destruct (f_close _ _) as [fr2 fs2]. simpl. repeat split. by right. }
  split; [apply Hsave|].
  unfold mos_cmdSAVE, bind, do_parseString, do_parseNumber, str_at, ret.
  assert (Hr1 : (exists st1, mos_parseString (tok w) None None = (0, None, st1))
                \/ exists f st1, mos_parseString (tok w) None None
                                 = (1, Some f, st1)).
  { unfold mos_parseString.
    destruct (mos_strtok (tok w) None (lit " ")) as [[f|] st1]; eauto. }
  assert (Hpn : forall st, (exists v st', mos_parseNumber st None 0 = (0, v, st'))
                           \/ exists v st', mos_parseNumber st None 0 = (1, v, st')).
  { intros st. unfold mos_parseNumber.
    destruct (mos_strtok st None (lit " ")) as [[q|] st']; [|eauto].
    destruct (if Ascii.eqb (rd (line st') q) "&"%char then _ else _) as [base q'].
    destruct (strtol (line st') q' base) as [value e].
    destruct (negb (is_nul (rd (line st') e))); eauto. }
  destruct Hr1 as [[st1 ->]|(f & st1 & ->)]; simpl.
  { repeat split. by left. }
  destruct (Hpn st1) as [(a & st2 & ->)|(a & st2 & E2)]; simpl.
  { repeat split. by left. }
  rewrite E2. simpl.
  destruct (Hpn st2) as [(sz & st3 & ->)|(sz & st3 & E3)]; simpl.
  { repeat split. by left. }
  rewrite E3. simpl.
  change (set_tok (set_tok (set_tok w st1) st2) st3) with (set_tok w st3).
  pose proof (Hsave (set_tok w st3) (cstr (line st3) f) a sz) as Hs.
  cbv zeta in Hs.
  destruct (mos_SAVE (cstr (line st3) f) a sz (set_tok w st3))
    as [[fr w'] ev] eqn:Es.
  simpl in *. destruct Hs as (Hram & Hslots & _).
  do 2 (split; [done|]). right.
  by exists f, st1, a, st2, sz, st3.
Qed.

End ShellMoreProps.

(** *** On the concrete machine *)

Section ShellMoreExamples.
#[local] Existing Instance spec_matcher.
#[local] Existing Instance agon_defines.
#[local] Existing Instance toy_fatfs.
#[local] Existing Instance toy_machine.

Lemma mos_exec_builtin_witness :
  exists cmd f,
    mosCommands !! 2%nat = Some cmd /\ func cmd = Some f
    /\ pmatch (cstr (lit "  *cd" ++ NUL :: lit "/bin" ++ [NUL; NUL]) 3)
         (name cmd) MATCH_COMMANDS = 0
    /\ (forall j cmd', (j < 2)%nat -> mosCommands !! j = Some cmd' ->
           pmatch (cstr (lit "  *cd" ++ NUL :: lit "/bin" ++ [NUL; NUL]) 3)
             (name cmd') MATCH_COMMANDS <> 0)
    /\ (mos_exec (Some O) true (toy_world (cline "  *cd /bin ") [])).1
       = call f 6%nat
           (set_tok (toy_world (cline "  *cd /bin ") [])
              (TokState (lit "  *cd" ++ NUL :: lit "/bin" ++ [NUL; NUL]) 6))
    /\ [EvDescFunc (Some 2%nat); EvCall f 6]
       `prefix_of` (mos_exec (Some O) true (toy_world (cline "  *cd /bin ") [])).2.
Proof.
  apply (mos_exec_builtin (toy_world (cline "  *cd /bin ") []) O true
           (lit "  *cd /bin" ++ [NUL; NUL]) 3 3
           (lit "  *cd" ++ NUL :: lit "/bin" ++ [NUL; NUL]) 6 2);
    reflexivity.
Defined.

Lemma mos_OSCLI_moslets_only_witness :
  Forall (fun e => is_call e = false)
    (mos_OSCLI O (toy_world (cline "foo bar") disk_error_volume)).2
  /\ ((length (cstr (lit "foo" ++ NUL :: lit "bar" ++ [NUL]) 0) <= 246)%nat ->
      open_paths (mos_OSCLI O (toy_world (cline "foo bar") disk_error_volume)).2
      = [lit "/mos/" ++ cstr (lit "foo" ++ NUL :: lit "bar" ++ [NUL]) 0
         ++ lit ".bin"])
  /\ ((246 < length (cstr (lit "foo" ++ NUL :: lit "bar" ++ [NUL]) 0))%nat ->
      open_paths (mos_OSCLI O (toy_world (cline "foo bar") disk_error_volume)).2
      = []
      /\ (mos_OSCLI O (toy_world (cline "foo bar") disk_error_volume)).1.1
         = MOS_INVALID_COMMAND)
  /\ (mos_OSCLI O (toy_world (cline "foo bar") disk_error_volume)).1.1
     = u24 (mos_exec (Some O) false
              (toy_world (cline "foo bar") disk_error_volume)).1.1
  /\ (mos_OSCLI O (toy_world (cline "foo bar") disk_error_volume)).1.2
     = (mos_exec (Some O) false
          (toy_world (cline "foo bar") disk_error_volume)).1.2
  /\ 0 <= (mos_OSCLI O (toy_world (cline "foo bar") disk_error_volume)).1.1
     < 2 ^ 24.
Proof.
  apply (mos_OSCLI_moslets_only (toy_world (cline "foo bar") disk_error_volume)
           O (cline "foo bar") O O (lit "foo" ++ NUL :: lit "bar" ++ [NUL]) 4);
    reflexivity.
Defined.

Lemma mos_LOAD_frame_witness :
  ram (mos_LOAD (lit "foo.bin") 0x040000 0 (toy_world [] disk_error_volume)).1.2
    0x0BC000
  = ram (toy_world [] disk_error_volume) 0x0BC000.
Proof.
  apply (proj2 (proj2 (proj2
           (mos_LOAD_frame (toy_world [] disk_error_volume) (lit "foo.bin")
              0x040000 0)))).
  - vm_compute. discriminate.
  - vm_compute. split; [discriminate|reflexivity].
  - vm_compute. discriminate.
Defined.

Lemma mos_FOPEN_FCLOSE_witness :
  (mos_FCLOSE (mos_FOPEN (lit "big.bin") FA_READ (toy_world [] big_volume)).1.1
     (mos_FOPEN (lit "big.bin") FA_READ (toy_world [] big_volume)).1.2).2
  = [EvClose]
  /\ forall j,
       free (mosFileObjects
               (mos_FCLOSE
                  (mos_FOPEN (lit "big.bin") FA_READ (toy_world [] big_volume)).1.1
                  (mos_FOPEN (lit "big.bin") FA_READ (toy_world [] big_volume)).1.2).1.2
               j)
       = free (mosFileObjects (toy_world [] big_volume) j).
Proof.
  apply (mos_FOPEN_FCLOSE (toy_world [] big_volume) (lit "big.bin") FA_READ).
  vm_compute. discriminate.
Defined.

Lemma mos_cmdLOAD_spec_witness :
  cstr (line (mos_parseNumber
                (mos_parseString (tok (load_line_world disk_error_volume))
                   None None).2 None 0).2) 5
  = lit "foo.bin"
  /\ mos_cmdLOAD 5 (load_line_world disk_error_volume)
     = mos_LOAD (lit "foo.bin") 0x050000 0
         (set_tok (load_line_world disk_error_volume)
            (TokState (lit "load" ++ NUL :: lit "foo.bin" ++ NUL :: lit "&50000" ++ [NUL])
               19)).
Proof.
  apply (proj2 (mos_cmdLOAD_spec (load_line_world disk_error_volume) 5) 5%nat).
  - vm_compute. discriminate.
  - reflexivity.
Defined.

End ShellMoreExamples.

(** ** PRINTF and its escapes *)

Lemma code_range c : 0 <= code c < 256.
Proof.
  unfold code. pose proof (N_ascii_bounded c). lia.
Qed.

(** X16.  For every hexadecimal digit, [xdigit_to_int] is its value, the
    same that [strtol] gives it, and it lies between 0 and 15. *)
Theorem xdigit_to_int_value (c : ascii) :
  isxdigit c = true ->
  digit_val c = Some (xdigit_to_int c) /\ 0 <= xdigit_to_int c < 16.
Proof.
  intros Hx.
  destruct c as [[] [] [] [] [] [] [] []]; vm_compute in Hx; try discriminate;
    (split; [reflexivity|split; [discriminate|reflexivity]]).
Qed.

Lemma xdigit_to_int_value_witness :
  digit_val "c"%char = Some (xdigit_to_int "c"%char)
  /\ 0 <= xdigit_to_int "c"%char < 16.
Proof. apply xdigit_to_int_value. reflexivity. Defined.

Lemma xdigit_range c : isxdigit c = true -> 0 <= xdigit_to_int c < 16.
Proof.
  intros Hx.
  destruct c as [[] [] [] [] [] [] [] []]; vm_compute in Hx; try discriminate;
    (split; [discriminate|reflexivity]).
Qed.

Lemma printf_out_bounds n p :
  (length p <= n)%nat ->
  (length (printf_out p) <= length p)%nat
  /\ Forall (fun b => 0 <= b < 256) (printf_out p).
Proof.
  revert p. induction n as [|n IH]; intros p Hp.
  { destruct p; simpl in *; [split; [lia|constructor]|lia]. }
  destruct p as [|c p1]; [split; [simpl; lia|constructor]|].
  simpl in Hp. simpl printf_out.
  destruct (Ascii.eqb c "\"%char).
  - destruct p1 as [|e p2]; [split; [simpl; lia|constructor]|].
    simpl in Hp.
    destruct (IH p2 ltac:(lia)) as [L2 F2].
    do 5 (match goal with
          | |- context [if Ascii.eqb e ?x then _ else _] =>
              destruct (Ascii.eqb e x);
              [split; [simpl; lia|constructor; [lia|done]]|]
          end).
    destruct (Ascii.eqb e "x"%char); [|split; [simpl; lia|done]].
    destruct p2 as [|h1 p3]; [split; [simpl; lia|repeat constructor; lia]|].
    simpl in Hp.
    destruct (isxdigit h1) eqn:Hx1;
      [|split; [simpl in *; lia|constructor; [lia|done]]].
    pose proof (xdigit_range h1 Hx1) as R1.
    destruct p3 as [|h2 p4]; [split; [simpl; lia|repeat constructor; lia]|].
    simpl in Hp.
    destruct (isxdigit h2) eqn:Hx2.
    + pose proof (xdigit_range h2 Hx2) as R2.
      destruct (IH p4 ltac:(lia)) as [L4 F4].
      split; [simpl; lia|constructor; [lia|done]].
    + destruct (IH (h2 :: p4) ltac:(simpl; lia)) as [L3 F3].
      split; [simpl in *; lia|constructor; [lia|done]].
  - destruct (IH p1 ltac:(lia)) as [L1 F1].
    pose proof (code_range c).
    split; [simpl; lia|constructor; [lia|done]].
Qed.

Lemma printf_out_plain p rest :
  Forall (fun c => c <> "\"%char) p ->
  printf_out (p ++ rest) = map code p ++ printf_out rest.
Proof.
  induction 1 as [|c p1 Hc _ IH]; [done|]. simpl.
  destruct (Ascii.eqb_spec c "\"%char) as [|_]; [done|]. by rewrite IH.
Qed.

(** X17.  [mos_cmdPRINTF] returns 0 and prints at most as many bytes as its
    argument has characters, each of them a byte value; the part of the
    argument before its first backslash is printed as it is, so an argument
    without a backslash is printed whole. *)
Theorem mos_cmdPRINTF_output (buf : list ascii) (ptr : nat) :
  let r := mos_cmdPRINTF buf ptr in
  r.1 = 0
  /\ (length r.2 <= strlen buf ptr)%nat
  /\ Forall (fun b => 0 <= b < 256) r.2
  /\ (forall plain rest,
        cstr buf ptr = plain ++ rest ->
        Forall (fun c => c <> "\"%char) plain ->
        r.2 = map code plain ++ printf_out rest)
  /\ (Forall (fun c => c <> "\"%char) (cstr buf ptr) ->
      r.2 = map code (cstr buf ptr)).
Proof.
  intros r. unfold r, mos_cmdPRINTF. simpl.
  destruct (printf_out_bounds (length (cstr buf ptr)) (cstr buf ptr) ltac:(lia))
    as [L F].
  rewrite length_cstr in L.
  do 3 (split; [done|]). split.
  - intros plain rest -> Hplain. by apply printf_out_plain.
  - intros Hplain.
    pose proof (printf_out_plain (cstr buf ptr) [] Hplain) as Hp.
    by rewrite !app_nil_r in Hp.
Qed.

(** ** SHOW: escaped values *)

Lemma printEscapedString_app (a b : list ascii) :
  printEscapedString (a ++ b) = printEscapedString a ++ printEscapedString b.
Proof.
  induction a as [|c a IH]; simpl; [done|]. by rewrite IH, app_assoc.
Qed.

(** X18.  [printEscapedString] sends a character below 0x20, wherever it
    stands in the string, as a bar (124) followed by the character's code
    plus 0x40, and every other character as its own code, each between what
    it sends for the part before and for the part after.  So no byte below
    0x20 is ever sent, the output is as long as the string plus one byte for
    each control character in it, and a string without control characters is
    sent as it is. *)
Theorem printEscapedString_output (value : list ascii) :
  (forall pre c rest,
     value = pre ++ c :: rest -> code c < 0x20 ->
     printEscapedString value
     = printEscapedString pre ++ [124; code c + 0x40] ++ printEscapedString rest)
  /\ (forall pre c rest,
        value = pre ++ c :: rest -> 0x20 <= code c ->
        printEscapedString value
        = printEscapedString pre ++ [code c] ++ printEscapedString rest)
  /\ Forall (fun b => 0x20 <= b < 256) (printEscapedString value)
  /\ length (printEscapedString value)
     = (length value + length (filter (fun c => (code c < 0x20)%Z) value))%nat
  /\ (Forall (fun c => 0x20 <= code c) value ->
      printEscapedString value = map code value).
Proof.
  split; [|split].
  { intros pre c rest -> Hc. rewrite printEscapedString_app. simpl.
    by replace (code c <? 32) with true by (symmetry; lia). }
  { intros pre c rest -> Hc. rewrite printEscapedString_app. simpl.
    by replace (code c <? 32) with false by (symmetry; lia). }
  induction value as [|c value (IH1 & IH2 & IH3)]; simpl.
  { repeat split; constructor. }
  pose proof (code_range c) as Hc.
  rewrite filter_cons.
  destruct (Z.ltb_spec (code c) 0x20) as [Hlt|Hge].
  - rewrite decide_True by done. simpl. split; [|split].
    + change (code "|"%char) with 124.
      constructor; [lia|]. constructor; [lia|done].
    + rewrite IH2. lia.
    + intros Hall. apply Forall_cons in Hall as [Hc' _]. lia.
  - rewrite decide_False by lia. simpl. split; [|split].
    + constructor; [lia|done].
    + by rewrite IH2.
    + intros Hall. apply Forall_cons in Hall as [_ Hall]. by rewrite IH3.
Qed.

Lemma printEscapedString_output_witness :
  printEscapedString (lit "a" ++ "009"%char :: lit "b")
  = printEscapedString (lit "a") ++ [124; code "009"%char + 0x40]
    ++ printEscapedString (lit "b").
Proof.
  apply (proj1 (printEscapedString_output (lit "a" ++ "009"%char :: lit "b"))
           (lit "a") "009"%char (lit "b") eq_refl).
  vm_compute. reflexivity.
Defined.

(** ** The order of a directory listing *)

Lemma land_AM_DIR x : Z.land x AM_DIR = 0 \/ Z.land x AM_DIR = AM_DIR.
Proof.
  unfold AM_DIR. change 0x10 with (2 ^ 4).
  destruct (Z.testbit x 4) eqn:E; [right|left]; apply Z.bits_inj'; intros n Hn;
    rewrite Z.land_spec, ?Z.bits_0, Z.pow2_bits_eqb by lia;
    destruct (Z.eqb_spec 4 n) as [<-|]; rewrite ?E, ?andb_false_r; done.
Qed.

Lemma tolower_pos c : c <> NUL -> 0 < tolower c.
Proof.
  intros Hc. unfold tolower.
  assert (0 < code c).
  { unfold code. destruct (N.eq_dec (N_of_ascii c) 0%N) as [E|]; [|lia].
    exfalso. apply Hc. rewrite <- (ascii_N_embedding c), E. reflexivity. }
  destruct (_ && _)%bool; lia.
Qed.

Lemma strcasecmp_refl a : strcasecmp a a = 0.
Proof.
  induction a as [|x a IH]; simpl; [done|]. by rewrite Z.sub_diag.
Qed.

Lemma strcasecmp_antisym a b : strcasecmp b a = - strcasecmp a b.
Proof.
  revert b. induction a as [|x a IH]; intros [|y b]; simpl; try lia.
  destruct (Z.eqb_spec (tolower x - tolower y) 0);
    destruct (Z.eqb_spec (tolower y - tolower x) 0); try lia. apply IH.
Qed.

Lemma strcasecmp_trans a b c :
  Forall (fun x => x <> NUL) a ->
  Forall (fun x => x <> NUL) b ->
  Forall (fun x => x <> NUL) c ->
  strcasecmp a b <= 0 -> strcasecmp b c <= 0 -> strcasecmp a c <= 0.
Proof.
  intros Ha. revert b c. induction Ha as [|x a Hx Ha IH]; intros b c Hb Hc.
  - destruct b as [|y b], c as [|z c]; simpl; try lia.
    apply Forall_cons in Hc as [Hz _]. pose proof (tolower_pos z Hz). lia.
  - pose proof (tolower_pos x Hx) as Px.
    destruct b as [|y b]; [simpl; lia|].
    apply Forall_cons in Hb as [Hy Hb]. pose proof (tolower_pos y Hy) as Py.
    destruct c as [|z c]; [simpl; destruct (_ =? 0); lia|].
    apply Forall_cons in Hc as [Hz Hc]. simpl.
    destruct (Z.eqb_spec (tolower x - tolower y) 0);
      destruct (Z.eqb_spec (tolower y - tolower z) 0);
      destruct (Z.eqb_spec (tolower x - tolower z) 0); try lia.
    by apply IH.
Qed.

(** X19.  [cmp_filinfo] is an order fit for sorting entries whose names are
    C strings: an entry compares equal to itself, swapping the arguments
    negates the result, "not after" is transitive, and a directory comes
    before every entry that is not one, whatever the names. *)
Theorem cmp_filinfo_order (a b c : SmallFilInfo) :
  Forall (fun x => x <> NUL) (fname a) ->
  Forall (fun x => x <> NUL) (fname b) ->
  Forall (fun x => x <> NUL) (fname c) ->
  cmp_filinfo a a = 0
  /\ cmp_filinfo b a = - cmp_filinfo a b
  /\ (cmp_filinfo a b <= 0 -> cmp_filinfo b c <= 0 -> cmp_filinfo a c <= 0)
  /\ (Z.land (fattrib a) AM_DIR <> 0 -> Z.land (fattrib b) AM_DIR = 0 ->
      cmp_filinfo a b < 0).
Proof.
  intros Ha Hb Hc. unfold cmp_filinfo.
  destruct (land_AM_DIR (fattrib a)) as [Da|Da];
    destruct (land_AM_DIR (fattrib b)) as [Db|Db];
    destruct (land_AM_DIR (fattrib c)) as [Dc|Dc];
    rewrite Da, Db, Dc; simpl;
    pose proof (strcasecmp_refl (fname a));
    pose proof (strcasecmp_antisym (fname a) (fname b));
    pose proof (strcasecmp_trans (fname a) (fname b) (fname c) Ha Hb Hc);
    repeat split; try done; try lia.
Qed.

Lemma cmp_filinfo_order_witness :
  cmp_filinfo (MkSmallFilInfo 0 0 0 0x10 (lit "src"))
    (MkSmallFilInfo 0 0 0 0x10 (lit "src")) = 0
  /\ cmp_filinfo (MkSmallFilInfo 9 0 0 0x20 (lit "Autoexec.txt"))
       (MkSmallFilInfo 0 0 0 0x10 (lit "src"))
     = - cmp_filinfo (MkSmallFilInfo 0 0 0 0x10 (lit "src"))
          (MkSmallFilInfo 9 0 0 0x20 (lit "Autoexec.txt"))
  /\ (cmp_filinfo (MkSmallFilInfo 0 0 0 0x10 (lit "src"))
        (MkSmallFilInfo 9 0 0 0x20 (lit "Autoexec.txt")) <= 0 ->
      cmp_filinfo (MkSmallFilInfo 9 0 0 0x20 (lit "Autoexec.txt"))
        (MkSmallFilInfo 5 0 0 0x20 (lit "readme.md")) <= 0 ->
      cmp_filinfo (MkSmallFilInfo 0 0 0 0x10 (lit "src"))
        (MkSmallFilInfo 5 0 0 0x20 (lit "readme.md")) <= 0)
  /\ (Z.land (fattrib (MkSmallFilInfo 0 0 0 0x10 (lit "src"))) AM_DIR <> 0 ->
      Z.land (fattrib (MkSmallFilInfo 9 0 0 0x20 (lit "Autoexec.txt"))) AM_DIR = 0 ->
      cmp_filinfo (MkSmallFilInfo 0 0 0 0x10 (lit "src"))
        (MkSmallFilInfo 9 0 0 0x20 (lit "Autoexec.txt")) < 0).
Proof.
  apply (cmp_filinfo_order (MkSmallFilInfo 0 0 0 0x10 (lit "src"))
           (MkSmallFilInfo 9 0 0 0x20 (lit "Autoexec.txt"))
           (MkSmallFilInfo 5 0 0 0x20 (lit "readme.md")));
    simpl; repeat constructor; discriminate.
Defined.

(** ** Messages and the current directory, copied to a caller's buffer *)

Lemma length_strncpy_bytes src n : length (strncpy_bytes src n) = n.
Proof.
  unfold strncpy_bytes.
  rewrite length_app, length_take, repeat_length, length_map. lia.
Qed.

Lemma nth_strncpy_bytes src n i :
  (i < n)%nat -> nth i (strncpy_bytes src n) 0 = nth i (map code src) 0.
Proof.
  intros Hi. unfold strncpy_bytes.
  destruct (decide (i < length src)%nat) as [Hlt|Hge].
  - rewrite app_nth1 by (rewrite length_take, length_map; lia).
    rewrite !nth_lookup. by rewrite lookup_take_lt.
  - rewrite app_nth2 by (rewrite length_take, length_map; lia).
    rewrite (nth_overflow (map code src)) by (rewrite length_map; lia).
    apply nth_repeat.
Qed.

Lemma write_bytes_inside (r : Z -> Z) address data i :
  (i < length data)%nat ->
  write_bytes r address data (address + Z.of_nat i) = nth i data 0.
Proof.
  intros Hi. unfold write_bytes.
  replace ((address <=? address + Z.of_nat i)
           && (address + Z.of_nat i <? address + Z.of_nat (length data)))%bool
    with true by (symmetry; apply andb_true_iff; lia).
  f_equal. lia.
Qed.

Lemma write_bytes_frame (r : Z -> Z) address data a :
  ~ address <= a < address + Z.of_nat (length data) ->
  write_bytes r address data a = r a.
Proof.
  intros Ha. destruct (Z.eq_dec (write_bytes r address data a) (r a)) as [|Hne];
    [done|]. by apply write_bytes_outside in Hne.
Qed.

(** X20.  [readCWD] always returns [FR_OK] and sets the size to the length
    of the directory name plus one.  It writes only when the size passed in
    is at least that and the buffer is not NULL: then the buffer holds the
    name and its terminator, and no byte outside the first [size] bytes of
    the buffer changes. *)
Theorem readCWD_spec (cwd : list ascii) (r : Z -> Z) (buffer : option Z) (size : Z) :
  let res := readCWD cwd r buffer size in
  let len := Z.of_nat (length cwd) + 1 in
  res.1.1 = FR_OK /\ res.2 = len
  /\ (forall a, res.1.2 a <> r a ->
        exists b, buffer = Some b /\ len <= size /\ b <= a < b + len)
  /\ (forall b, buffer = Some b -> len <= size ->
        read_bytes res.1.2 b len = map code cwd ++ [0]).
Proof.
  intros res len. unfold res, readCWD. fold len. simpl.
  do 2 (split; [done|]).
  assert (Hlen : Z.to_nat len = S (length cwd)) by (unfold len; lia).
  split.
  - intros a Hne. destruct (Z.geb_spec size len) as [Hge|Hlt]; [|done].
    destruct buffer as [b|]; [|done]. exists b. do 2 (split; [done|]).
    apply write_bytes_outside in Hne. rewrite length_strncpy_bytes in Hne. lia.
  - intros b -> Hle. destruct (Z.geb_spec size len) as [_|Hlt]; [|lia].
    unfold read_bytes. rewrite Hlen.
    apply list_eq. intros i.
    rewrite list_lookup_fmap.
    destruct (decide (i < S (length cwd))%nat) as [Hi|Hi].
    + rewrite lookup_seq_lt by done. simpl.
      rewrite write_bytes_inside by (rewrite length_strncpy_bytes; lia).
      rewrite nth_strncpy_bytes by done.
      destruct (decide (i < length cwd)%nat) as [Hlt|Hge].
      * rewrite lookup_app_l by (rewrite length_map; lia).
        rewrite nth_lookup.
        destruct (map code cwd !! i) as [z|] eqn:E; [done|].
        apply lookup_ge_None in E. rewrite length_map in E. lia.
      * rewrite lookup_app_r by (rewrite length_map; lia).
        rewrite length_map. replace (i - length cwd)%nat with O by lia.
        rewrite nth_overflow by (rewrite length_map; lia). done.
    + rewrite lookup_seq_ge by lia. simpl. symmetry.
      apply lookup_ge_None. rewrite length_app, length_map. simpl. lia.
Qed.

(** X21.  For a code of the message table and a buffer size between 1 and
    2^24 - 1, [mos_GETERROR] stores exactly [size - 1] bytes at the address:
    the message, cut to that length or padded with zero bytes, and nothing
    else changes, so the last byte of the buffer is not written.  When the
    message is shorter than [size - 1] the buffer then holds the text that
    [mos_error] prints between its two line ends, with a terminator.  A
    code beyond the table has no message to copy. *)
Theorem mos_GETERROR_spec (errno address size : Z) (r : Z -> Z) :
  (0 <= errno < mos_errors_count ->
   1 <= size < 2 ^ 24 ->
   exists msg r',
     mos_errors !! Z.to_nat errno = Some msg
     /\ mos_GETERROR errno address size r = Some r'
     /\ (forall i, (Z.of_nat i < size - 1) ->
           r' (address + Z.of_nat i) = nth i (map code msg) 0)
     /\ (forall a, ~ address <= a < address + (size - 1) -> r' a = r a)
     /\ (Z.of_nat (length msg) < size - 1 ->
         read_bytes r' address (Z.of_nat (length msg) + 1) = map code msg ++ [0]
         /\ mos_error errno = [10; 13] ++ map code msg ++ [10; 13]))
  /\ (mos_errors_count <= errno -> mos_GETERROR errno address size r = None).
Proof.
  split.
  - intros Herr Hsize. unfold mos_errors_count in Herr.
    destruct (mos_errors !! Z.to_nat errno) as [msg|] eqn:Hmsg.
    2:{ apply lookup_ge_None in Hmsg. lia. }
    unfold mos_GETERROR. rewrite Hmsg.
    assert (Hn : Z.of_nat (Z.to_nat (u24 (size - 1))) = size - 1).
    { unfold u24. rewrite Z.mod_small by lia. lia. }
    set (n := Z.to_nat (u24 (size - 1))) in *.
    exists msg, (write_bytes r address (strncpy_bytes msg n)).
    do 2 (split; [done|]).
    assert (Hin : forall i, Z.of_nat i < size - 1 ->
              write_bytes r address (strncpy_bytes msg n) (address + Z.of_nat i)
              = nth i (map code msg) 0).
    { intros i Hi.
      rewrite write_bytes_inside by (rewrite length_strncpy_bytes; lia).
      apply nth_strncpy_bytes. lia. }
    split; [exact Hin|]. split.
    { intros a Ha. apply write_bytes_frame. rewrite length_strncpy_bytes. lia. }
    intros Hshort. split.
    + unfold read_bytes.
      replace (Z.to_nat (Z.of_nat (length msg) + 1)) with (S (length msg)) by lia.
      apply list_eq. intros i. rewrite list_lookup_fmap.
      destruct (decide (i < S (length msg))%nat) as [Hi|Hi].
      * rewrite lookup_seq_lt by done. simpl. rewrite Hin by lia.
        destruct (decide (i < length msg)%nat) as [Hlt|Hge].
        -- rewrite lookup_app_l by (rewrite length_map; lia).
           rewrite nth_lookup.
           destruct (map code msg !! i) as [z|] eqn:E; [done|].
           apply lookup_ge_None in E. rewrite length_map in E. lia.
        -- rewrite lookup_app_r by (rewrite length_map; lia).
           rewrite length_map. replace (i - length msg)%nat with O by lia.
           rewrite nth_overflow by (rewrite length_map; lia). done.
      * rewrite lookup_seq_ge by lia. simpl. symmetry.
        apply lookup_ge_None. rewrite length_app, length_map. simpl. lia.
    + unfold mos_error, mos_errors_count.
      replace ((0 <=? errno) && (errno <? Z.of_nat (length mos_errors)))%bool
        with true by (symmetry; apply andb_true_iff; lia).
      rewrite Hmsg. by rewrite !map_app.
  - intros Herr. unfold mos_GETERROR, mos_errors_count in *.
    rewrite lookup_ge_None_2; [done|]. lia.
Qed.

Lemma mos_GETERROR_spec_witness :
  exists msg r',
    mos_errors !! Z.to_nat 20 = Some msg
    /\ mos_GETERROR 20 0x50000 8 (fun _ => 255) = Some r'
    /\ (forall i, (Z.of_nat i < 8 - 1) ->
          r' (0x50000 + Z.of_nat i) = nth i (map code msg) 0)
    /\ (forall a, ~ 0x50000 <= a < 0x50000 + (8 - 1) -> r' a = 255)
    /\ (Z.of_nat (length msg) < 8 - 1 ->
        read_bytes r' 0x50000 (Z.of_nat (length msg) + 1) = map code msg ++ [0]
        /\ mos_error 20 = [10; 13] ++ map code msg ++ [10; 13]).
Proof.
  apply (proj1 (mos_GETERROR_spec 20 0x50000 8 (fun _ => 255))).
  - vm_compute. split; [discriminate|reflexivity].
  - lia.
Defined.

(** ** A whole line, from the buffer to the handler *)

Lemma trim_back_over buf s q k :
  (s <= q)%nat ->
  (forall i, (q < i <= q + k)%nat -> isspace (rd buf i) = true) ->
  trim_back buf s (q + k) = trim_back buf s q.
Proof.
  intros Hs. induction k as [|k IH]; intros Hsp; [by rewrite Nat.add_0_r|].
  replace (q + S k)%nat with (S (q + k)) by lia. simpl.
  rewrite Hsp by lia.
  replace (s <? S (q + k))%nat with true by (symmetry; apply Nat.ltb_lt; lia).
  simpl. apply IH. intros i Hi. apply Hsp. lia.
Qed.

(** [mos_trim] on a line given by its parts: blanks and asterisks, a text
    that starts and ends with other characters, blanks, the terminator. *)
Lemma mos_trim_layout lead c body z trail rest :
  Forall (fun x => (isspace x || is_star x)%bool = true) lead ->
  (isspace c || is_star c)%bool = false -> c <> NUL ->
  Forall (fun x => x <> NUL) body ->
  z <> NUL -> isspace z = false ->
  Forall (fun x => isspace x = true) trail ->
  mos_trim (lead ++ (c :: body ++ [z]) ++ trail ++ NUL :: rest) (Some O)
  = (lead ++ (c :: body ++ [z]) ++ NUL :: drop 1 (trail ++ NUL :: rest),
     Some (length lead)).
Proof.
  intros Hlead Hc Hcn Hbody Hzn Hz Htrail.
  set (full := c :: body ++ [z]).
  set (buf := lead ++ full ++ trail ++ NUL :: rest).
  assert (Hfull : Forall (fun x => x <> NUL) full).
  { unfold full. constructor; [done|]. apply Forall_app. split; [done|].
    by constructor. }
  assert (Htn : Forall (fun x => x <> NUL) trail).
  { eapply Forall_impl; [exact Htrail|]. intros x Hx ->. vm_compute in Hx. done. }
  unfold mos_trim.
  assert (Hfirst : is_nul (rd buf 0) = false).
  { apply is_nul_false. unfold buf. destruct lead as [|l0 lead']; simpl.
    - done.
    - apply Forall_cons in Hlead as [Hl0 _]. by apply skip_not_nul. }
  rewrite Hfirst. rewrite drop_0, Nat.add_0_l.
  assert (Hspan : span (fun c0 => (isspace c0 || is_star c0)%bool) buf
                  = length lead).
  { unfold buf, full. simpl. by apply span_app_stop. }
  rewrite Hspan.
  assert (Hlen : strlen buf (length lead) = (length full + length trail)%nat).
  { unfold strlen, buf. rewrite drop_app_length', app_assoc, <- length_app.
    apply span_app_stop; [|done].
    apply Forall_app. split.
    - eapply Forall_impl; [exact Hfull|]. intros x Hx. simpl.
      apply negb_true_iff. by apply is_nul_false.
    - eapply Forall_impl; [exact Htn|]. intros x Hx. simpl.
      apply negb_true_iff. by apply is_nul_false. }
  rewrite Hlen.
  set (q := (length lead + S (length body))%nat).
  assert (Hfl : length full = S (S (length body))).
  { unfold full. simpl. rewrite length_app. simpl. lia. }
  replace (length lead + (length full + length trail) - 1)%nat
    with (q + length trail)%nat by (unfold q; lia).
  assert (Hbuf1 : buf = (lead ++ c :: body) ++ z :: trail ++ NUL :: rest).
  { unfold buf, full. simpl. rewrite <- ?app_assoc. simpl.
    by rewrite <- ?app_assoc. }
  assert (Hq1 : length (lead ++ c :: body) = q).
  { rewrite length_app. simpl. unfold q. lia. }
  assert (Hbuf2 : buf = (lead ++ full) ++ trail ++ NUL :: rest).
  { unfold buf. by rewrite <- ?app_assoc. }
  assert (Hq2 : length (lead ++ full) = S q).
  { rewrite length_app, Hfl. unfold q. lia. }
  rewrite trim_back_over.
  2:{ unfold q. lia. }
  2:{ intros i Hi. replace i with (length (lead ++ full) + (i - S q))%nat by lia.
      rewrite Hbuf2, rd_app_r. unfold rd.
      destruct (trail !! (i - S q)%nat) as [x|] eqn:E.
      - rewrite lookup_app_l by (apply lookup_lt_Some in E; lia).
        rewrite E. simpl. rewrite Forall_lookup in Htrail. by apply (Htrail _ _ E).
      - apply lookup_ge_None in E. lia. }
  rewrite trim_back_fix.
  2:{ intros _. replace q with (length (lead ++ c :: body) + 0)%nat by lia.
      rewrite Hbuf1, rd_app_r. done. }
  f_equal.
  replace (q + 1)%nat with (length (lead ++ full) + 0)%nat by lia.
  rewrite Hbuf2, wr_app_r. rewrite <- app_assoc. do 2 f_equal.
  destruct trail; reflexivity.
Qed.

Section WholeLine.
Context `{Matcher} `{Defines} `{FatFs} `{!Machine}.

(** X22.  A line made of blanks and asterisks, a command name, one space,
    arguments, and trailing blanks, where the name is in the command table:
    [mos_exec] calls the handler of that command, once, with the cursor on
    the first character of the arguments, and the string at the cursor is
    the arguments without the trailing blanks of the line. *)
Theorem mos_exec_handler_args (w : world) (in_mos : bool)
    lead c nm args z trail rest i :
  line (tok w)
  = lead ++ (c :: nm) ++ " "%char :: (args ++ [z]) ++ trail ++ NUL :: rest ->
  Forall (fun x => (isspace x || is_star x)%bool = true) lead ->
  (isspace c || is_star c)%bool = false -> c <> "#"%char -> c <> "|"%char ->
  Forall (fun x => is_tokch (lit " ") x = true) (c :: nm) ->
  Forall (fun x => x <> NUL) args ->
  z <> NUL -> isspace z = false ->
  Forall (fun x => isspace x = true) trail ->
  mos_getCommand (c :: nm) = Some i ->
  let cursor := S (length lead + length (c :: nm)) in
  exists f w2,
    mosCommands !! i ≫= func = Some f
    /\ mos_exec (Some O) in_mos w
       = ((call f cursor w2).1, (call f cursor w2).2,
          [EvDescFunc (Some i); EvCall f cursor])
    /\ mos_strtok_ptr (tok w2) = cursor
    /\ cstr (line (tok w2)) cursor = args ++ [z]
    /\ ram w2 = ram w /\ fatfs w2 = fatfs w.
Proof.
  intros Hline Hlead Hskip Hhash Hbar Hnm Hargs Hzn Hz Htrail Hcmd cursor.
  pose proof Hnm as Hnm'. apply Forall_cons in Hnm' as [Hc Hnm'].
  assert (Hcn : c <> NUL).
  { apply is_nul_false. by apply (is_tokch_not_nul (lit " ")). }
  set (tail := drop 1 (trail ++ NUL :: rest)).
  set (buf1 := lead ++ (c :: nm) ++ " "%char :: (args ++ [z]) ++ NUL :: tail).
  assert (Htrim : mos_trim (line (tok w)) (Some O) = (buf1, Some (length lead))).
  { rewrite Hline.
    pose proof (mos_trim_layout lead c (nm ++ " "%char :: args) z trail rest
                  Hlead Hskip Hcn) as Ht.
    replace (lead ++ (c :: nm) ++ " "%char :: (args ++ [z]) ++ trail ++ NUL :: rest)
      with (lead ++ (c :: (nm ++ " "%char :: args) ++ [z]) ++ trail ++ NUL :: rest)
      by (simpl; rewrite <- ?app_assoc; reflexivity).
    rewrite Ht; try done.
    - unfold buf1, tail. f_equal. simpl. rewrite <- ?app_assoc. reflexivity.
    - apply Forall_app. split.
      + by apply (tokch_not_nul (lit " ")).
      + constructor; [discriminate|done]. }
  assert (Hblank : blank_or_comment buf1 (length lead) = false).
  { unfold blank_or_comment.
    replace (length lead) with (length lead + 0)%nat at 1 2 3 by lia.
    unfold buf1. rewrite rd_app_r. simpl.
    unfold rd. simpl.
    destruct (Ascii.eqb_spec c "#"%char) as [|_]; [done|].
    destruct (Ascii.eqb_spec c "|"%char) as [|_]; [done|].
    apply is_nul_false in Hcn. by rewrite Hcn. }
  set (buf2 := lead ++ (c :: nm) ++ NUL :: (args ++ [z]) ++ NUL :: tail).
  assert (Htok : mos_strtok_r buf1 (Some (length lead)) (lit " ")
                   (mos_strtok_ptr (tok w))
                 = (Some (length lead), buf2, cursor)).
  { pose proof (mos_strtok_r_token lead [] (c :: nm) " "%char
                  ((args ++ [z]) ++ NUL :: tail) (lit " ")
                  (Some (length lead)) (mos_strtok_ptr (tok w))
                  eq_refl ltac:(constructor) ltac:(discriminate) Hnm eq_refl)
      as Ht.
    simpl in Ht. unfold buf1, buf2, cursor. simpl.
    rewrite Ht. by rewrite !Nat.add_0_r. }
  assert (Hname : cstr buf2 (length lead) = c :: nm).
  { unfold buf2. apply cstr_at. by apply (tokch_not_nul (lit " ")). }
  destruct (getCommand_from_Some _ _ _ _ Hcmd) as (k & cmd & Hik & Hk & Hm & _).
  simpl in Hik. subst k.
  destruct (mosCommands_func i cmd Hk) as [f Hf].
  exists f, (set_tok w (TokState buf2 cursor)).
  split; [by rewrite Hk|].
  split.
  { rewrite mos_exec_unfold, Htrim. cbv zeta. rewrite Hblank, Htok, Hname, Hcmd.
    rewrite Hk. simpl. by rewrite Hf. }
  split; [done|].
  split; [|done].
  simpl. unfold buf2, cursor.
  replace (lead ++ (c :: nm) ++ NUL :: (args ++ [z]) ++ NUL :: tail)
    with ((lead ++ (c :: nm) ++ [NUL]) ++ (args ++ [z]) ++ NUL :: tail)
    by (rewrite <- ?app_assoc; simpl; rewrite <- ?app_assoc; reflexivity).
  replace (S (length lead + length (c :: nm)))
    with (length (lead ++ (c :: nm) ++ [NUL]))
    by (rewrite !length_app; simpl; lia).
  apply cstr_at. apply Forall_app. split; [done|]. by constructor.
Qed.

End WholeLine.

Section WholeLineExample.
#[local] Existing Instance spec_matcher.
#[local] Existing Instance agon_defines.
#[local] Existing Instance toy_fatfs.
#[local] Existing Instance toy_machine.

Lemma mos_exec_handler_args_witness :
  exists f w2,
    mosCommands !! 27%nat ≫= func = Some f
    /\ mos_exec (Some O) false (toy_world (cline " * run &40000  ") [])
       = ((call f 7%nat w2).1, (call f 7%nat w2).2,
          [EvDescFunc (Some 27%nat); EvCall f 7])
    /\ mos_strtok_ptr (tok w2) = 7%nat
    /\ cstr (line (tok w2)) 7 = lit "&4000" ++ ["0"%char]
    /\ ram w2 = ram (toy_world (cline " * run &40000  ") [])
    /\ fatfs w2 = fatfs (toy_world (cline " * run &40000  ") []).
Proof.
  apply (mos_exec_handler_args (toy_world (cline " * run &40000  ") []) false
           (lit " * ") "r"%char (lit "un") (lit "&4000") "0"%char (lit "  ") []
           27);
    try reflexivity; try discriminate; by repeat constructor.
Defined.

End WholeLineExample.
